(** * localgoose: a shallow embedding of the mapping and query engine

    The development follows the JavaScript sources module by module:

    - [Js]        the fragment of the JavaScript value language the library
                  computes with (values, operators, property access);
    - [Persist]   src/utils.js, [readJSON] and [writeJSON] over a file store;
    - [SchemaType], [Schema]  validators, [doValidate], [Schema.validate];
    - [Document]  what the constructor keeps of a record;
    - [Model]     [_matchQuery], [_find], [_createOne], [updateOne], ...;
    - [Query]     the query builder and [exec];
    - [Aggregate] [_group] and the accumulators;
    - [Unwind]    [_unwind] over an explicit object store, because the
                  stage copies records shallowly and then writes through
                  the copy.

    Conventions.  A JavaScript object is the list of its own enumerable
    properties, in the order they were defined, which is the order of
    [Object.entries] but for names that are array indices (those the
    language lists first).  Its prototype is [Object.prototype], which is
    no part of the value.  A read [o[k]] is therefore exact when [o] has
    [k] as its own or when [k] is [ordinary], that is, not the name of a
    member of [Object.prototype]; the statements that rest on a read of a
    name the object may lack are made for ordinary names.  An assignment
    [o[k] = v] defines the property, as [obj_set] has it, for every name
    but [__proto__], where the setter of [Object.prototype] runs instead:
    that is [obj_assign], which the query builder, the condition methods
    of a query and the document use; the other assignments of the code
    (in [_createOne], [sort], the accumulators and [$unwind]) are written
    with [obj_set], for names other than [__proto__].  Numbers are exact
    rationals extended with NaN and the two infinities: the rounding of
    doubles and the negative zero are not modelled, and the statements
    about sums and quotients are made for integers in the range where
    doubles are exact.  A string is the sequence of its UTF-16 code units,
    a character of [string] standing for the code unit of the same number;
    strings with a code unit from 256 on have no counterpart.  The
    coercions of the language that depend on number printing and parsing,
    the regular expression engine and the parsing of free-form dates are
    taken from a [Runtime] and every general statement holds for all of
    them; the examples are computed with [sample_runtime]. *)

From Stdlib Require Import ZArith QArith String Ascii List DecimalString Lia.
From stdpp Require Import base option list strings gmap.

(** ** Results of computations that may throw *)

Inductive res (A : Type) : Type :=
| Ok (a : A)
| Throw (e : string).
Arguments Ok {A} a.
Arguments Throw {A} e.

#[export] Instance res_ret : MRet res := fun A a => Ok a.
#[export] Instance res_bind : MBind res := fun A B f m =>
  match m with
  | Ok a => f a
  | Throw e => Throw e
  end.
#[export] Instance res_fmap : FMap res := fun A B f m =>
  match m with
  | Ok a => Ok (f a)
  | Throw e => Throw e
  end.

Definition is_ok {A} (m : res A) : bool :=
  match m with Ok _ => true | Throw _ => false end.

Module Js.

(** *** Numbers *)

Inductive number : Type :=
| NaN
| NegInf
| Fin (q : Q)
| PosInf.

Definition num_of_Z (z : Z) : number := Fin (inject_Z z).
Definition num_of_nat (n : nat) : number := num_of_Z (Z.of_nat n).
#[global] Arguments num_of_Z : simpl never.
#[global] Arguments num_of_nat : simpl never.

Definition num_is_nan (a : number) : bool :=
  match a with NaN => true | _ => false end.

Definition num_is_finite (a : number) : bool :=
  match a with Fin _ => true | _ => false end.

Definition num_add (a b : number) : number :=
  match a, b with
  | NaN, _ | _, NaN => NaN
  | PosInf, NegInf | NegInf, PosInf => NaN
  | PosInf, _ | _, PosInf => PosInf
  | NegInf, _ | _, NegInf => NegInf
  | Fin x, Fin y => Fin (Qred (x + y))
  end.

Definition q_sign (x : Q) : comparison := (Qnum x ?= 0)%Z.

Definition num_div (a b : number) : number :=
  match a, b with
  | NaN, _ | _, NaN => NaN
  | (PosInf | NegInf), (PosInf | NegInf) => NaN
  | PosInf, Fin y => match q_sign y with Lt => NegInf | _ => PosInf end
  | NegInf, Fin y => match q_sign y with Lt => PosInf | _ => NegInf end
  | Fin _, (PosInf | NegInf) => Fin 0
  | Fin x, Fin y =>
      match q_sign y with
      | Eq => match q_sign x with Eq => NaN | Gt => PosInf | Lt => NegInf end
      | _ => Fin (Qred (x / y))
      end
  end.

(** [a < b] on numbers; [None] when either side is NaN. *)
Definition num_less (a b : number) : option bool :=
  match a, b with
  | NaN, _ | _, NaN => None
  | _, NegInf => Some false
  | NegInf, _ => Some true
  | PosInf, _ => Some false
  | _, PosInf => Some true
  | Fin x, Fin y => Some (negb (Qle_bool y x))
  end.

Definition num_eqb (a b : number) : bool :=
  match a, b with
  | NegInf, NegInf | PosInf, PosInf => true
  | Fin x, Fin y => Qeq_bool x y
  | _, _ => false
  end.

Definition num_neg (a : number) : number :=
  match a with
  | NaN => NaN
  | NegInf => PosInf
  | PosInf => NegInf
  | Fin x => Fin (Qred (- x))
  end.

(** [Math.min] and [Math.max] on two numbers. *)
Definition num_min (a b : number) : number :=
  match num_less a b with
  | None => NaN
  | Some true => a
  | Some false => b
  end.

Definition num_max (a b : number) : number :=
  match num_less a b with
  | None => NaN
  | Some true => b
  | Some false => a
  end.

(** *** Dates

    A Date is held by the calendar fields of its instant in UTC; the
    invalid Date (time value NaN) is a case of its own. *)

Inductive jsdate : Type :=
| InvalidDate
| Utc (yr : Z) (mo dy hh mi ss ms : nat).

(** *** Values *)

#[local] Unset Elimination Schemes.
Inductive value : Type :=
| VUndef
| VNull
| VBool (b : bool)
| VNum (n : number)
| VStr (s : string)
| VDate (d : jsdate)
| VArr (xs : list value)
| VObj (ps : list (string * value)).
#[local] Set Elimination Schemes.

Abbreviation props := (list (string * value)).

Section value_induction.
Variable P : value -> Prop.
Hypothesis Pundef : P VUndef.
Hypothesis Pnull : P VNull.
Hypothesis Pbool : forall b, P (VBool b).
Hypothesis Pnum : forall n, P (VNum n).
Hypothesis Pstr : forall s, P (VStr s).
Hypothesis Pdate : forall d, P (VDate d).
Hypothesis Parr : forall xs, Forall P xs -> P (VArr xs).
Hypothesis Pobj : forall ps, Forall (fun kv => P (snd kv)) ps -> P (VObj ps).

Fixpoint value_ind' (v : value) : P v :=
  match v with
  | VUndef => Pundef
  | VNull => Pnull
  | VBool b => Pbool b
  | VNum n => Pnum n
  | VStr s => Pstr s
  | VDate d => Pdate d
  | VArr xs =>
      Parr xs ((fix go (l : list value) : Forall P l :=
                  match l with
                  | [] => List.Forall_nil P
                  | x :: r => @List.Forall_cons _ P x r (value_ind' x) (go r)
                  end) xs)
  | VObj ps =>
      Pobj ps ((fix go (l : props) : Forall (fun kv => P (snd kv)) l :=
                  match l with
                  | [] => List.Forall_nil _
                  | kv :: r =>
                      @List.Forall_cons _ (fun kv => P (snd kv)) kv r
                                   (value_ind' (snd kv)) (go r)
                  end) ps)
  end.
End value_induction.

(** [!!value]: the truthiness test of [if], [&&] and [||]. *)
Definition truthy (v : value) : bool :=
  match v with
  | VUndef | VNull => false
  | VBool b => b
  | VNum NaN => false
  | VNum (Fin q) => negb (Qeq_bool q 0)
  | VNum _ => true
  | VStr s => negb (String.eqb s EmptyString)
  | VDate _ | VArr _ | VObj _ => true
  end.

(** [typeof v === 'object'] holds of null, arrays, dates and objects. *)
Definition typeof_object (v : value) : bool :=
  match v with
  | VNull | VDate _ | VArr _ | VObj _ => true
  | _ => false
  end.

Definition typeof_string (v : value) : bool :=
  match v with VStr _ => true | _ => false end.

Definition is_array (v : value) : bool :=
  match v with VArr _ => true | _ => false end.

Definition is_primitive (v : value) : bool :=
  match v with
  | VDate _ | VArr _ | VObj _ => false
  | _ => true
  end.

(** [v == null]: null or undefined. *)
Definition nullish (v : value) : bool :=
  match v with VUndef | VNull => true | _ => false end.

(** [a === b] between two values that are distinct objects when they are
    objects at all: records come out of [JSON.parse], operands come from the
    caller, so an array, a Date or an object is never identical to anything
    on the other side. *)
Definition strict_eq (a b : value) : bool :=
  match a, b with
  | VUndef, VUndef | VNull, VNull => true
  | VBool x, VBool y => Bool.eqb x y
  | VNum x, VNum y => num_eqb x y
  | VStr x, VStr y => String.eqb x y
  | _, _ => false
  end.

(** SameValueZero, the equality of [Array.prototype.includes] and of [Map]
    keys, on values that are distinct objects when they are objects. *)
Definition same_value_zero (a b : value) : bool :=
  match a, b with
  | VNum NaN, VNum NaN => true
  | _, _ => strict_eq a b
  end.

(** *** The runtime *)

Class Runtime : Type := {
  (** ToPrimitive of an array, a Date or an object ([true]: hint number). *)
  rt_to_primitive : bool -> value -> value;
  (** ToNumber of a string *)
  rt_string_to_number : string -> number;
  (** ToString of a number *)
  rt_number_to_string : number -> string;
  (** [new RegExp(pattern, flags).test(subject)] *)
  rt_regexp_test : value -> value -> value -> res bool;
  (** [new Date(s)] for a string that is not a canonical ISO timestamp *)
  rt_date_parse : string -> jsdate
}.

Section coercions.
Context {rt : Runtime}.

Definition to_primitive (hint_number : bool) (v : value) : value :=
  if is_primitive v then v else rt_to_primitive hint_number v.

(** ToNumber of a primitive (anything else counts as NaN). *)
Definition prim_to_number (v : value) : number :=
  match v with
  | VUndef => NaN
  | VNull => Fin 0
  | VBool true => Fin 1
  | VBool false => Fin 0
  | VNum n => n
  | VStr s => rt_string_to_number s
  | _ => NaN
  end.

Definition to_number (v : value) : number :=
  prim_to_number (to_primitive true v).

Definition prim_to_string (v : value) : string :=
  match v with
  | VUndef => "undefined"
  | VNull => "null"
  | VBool true => "true"
  | VBool false => "false"
  | VNum n => rt_number_to_string n
  | VStr s => s
  | _ => EmptyString
  end.

(** The relational comparison [a < b]; [None] is the undefined outcome. *)
Definition js_less (a b : value) : option bool :=
  match to_primitive true a, to_primitive true b with
  | VStr x, VStr y => Some (String.ltb x y)
  | pa, pb => num_less (prim_to_number pa) (prim_to_number pb)
  end.

Definition js_lt (a b : value) : bool := default false (js_less a b).
Definition js_gt (a b : value) : bool := default false (js_less b a).
Definition js_le (a b : value) : bool :=
  match js_less b a with Some false => true | _ => false end.
Definition js_ge (a b : value) : bool :=
  match js_less a b with Some false => true | _ => false end.

(** [a + b] *)
Definition js_add (a b : value) : value :=
  let pa := to_primitive false a in
  let pb := to_primitive false b in
  if typeof_string pa || typeof_string pb
  then VStr (prim_to_string pa +:+ prim_to_string pb)
  else VNum (num_add (prim_to_number pa) (prim_to_number pb)).

(** [a / b] *)
Definition js_div (a b : value) : value :=
  VNum (num_div (to_number a) (to_number b)).

Definition math_min (a b : value) : value :=
  VNum (num_min (to_number a) (to_number b)).
Definition math_max (a b : value) : value :=
  VNum (num_max (to_number a) (to_number b)).
End coercions.

(** *** Objects and property access *)

Fixpoint obj_lookup (k : string) (ps : props) : option value :=
  match ps with
  | [] => None
  | (k', v) :: r => if String.eqb k' k then Some v else obj_lookup k r
  end.

(** [o[k]] on an object: undefined when [o] has no such property of its
    own (and [k] is no name it inherits, see [ordinary] below). *)
Definition obj_get (ps : props) (k : string) : value :=
  default VUndef (obj_lookup k ps).

Definition has_key (k : string) (ps : props) : bool :=
  match obj_lookup k ps with Some _ => true | None => false end.

(** The property [k] of [o] defined or redefined with the value [v], as an
    object literal, a spread and [JSON.parse] do, and as [o[k] = v] does
    for every name but [__proto__]: an existing property keeps its place,
    a new one goes last. *)
Fixpoint obj_set (k : string) (v : value) (ps : props) : props :=
  match ps with
  | [] => [(k, v)]
  | (k', v') :: r =>
      if String.eqb k' k then (k, v) :: r else (k', v') :: obj_set k v r
  end.

(** The properties of [src] copied over [dst], as [{...dst, ...src}] does. *)
Definition spread (src dst : props) : props :=
  fold_left (fun acc kv => obj_set kv.1 kv.2 acc) src dst.

(** The names an object inherits from [Object.prototype].  A read of one of
    them from an object that has no such property of its own finds the
    member of the prototype, a function for all but [__proto__], which is
    no value of this model. *)
Definition inherited_names : list string :=
  ["__proto__"; "constructor"; "hasOwnProperty"; "isPrototypeOf";
   "propertyIsEnumerable"; "toLocaleString"; "toString"; "valueOf";
   "__defineGetter__"; "__defineSetter__"; "__lookupGetter__";
   "__lookupSetter__"].

Definition ordinary (k : string) : bool :=
  negb (existsb (String.eqb k) inherited_names).

(** [o[k] = v] by assignment.  The name [__proto__] is an accessor of
    [Object.prototype]: unless [o] has a property of that name of its own,
    its setter runs, which changes the prototype of [o] when [v] is an
    object or null and does nothing otherwise; in neither case does [o]
    get a property.  (The prototype it may install is no part of the
    value.)  Every other member of [Object.prototype] is a writable data
    property, so that assigning to its name defines a property of [o]. *)
Definition obj_assign (k : string) (v : value) (ps : props) : props :=
  if String.eqb k "__proto__" && negb (has_key "__proto__" ps) then ps
  else obj_set k v ps.

(** [Object.assign(dst, src)]: the properties of [src] are assigned to
    [dst] one after the other. *)
Definition assign_all (src dst : props) : props :=
  fold_left (fun acc kv => obj_assign kv.1 kv.2 acc) src dst.

Definition index_key (i : nat) : string :=
  NilEmpty.string_of_uint (Nat.to_uint i).

Definition is_digit (c : ascii) : bool :=
  let n := nat_of_ascii c in Nat.leb 48 n && Nat.leb n 57.

Definition digit_val (c : ascii) : nat := nat_of_ascii c - 48.

Fixpoint digits_value (acc : nat) (s : string) : option nat :=
  match s with
  | EmptyString => Some acc
  | String c r =>
      if is_digit c then digits_value (10 * acc + digit_val c) r else None
  end.

(** The array index a property name denotes, if it is a canonical one. *)
Definition parse_index (k : string) : option nat :=
  match k with
  | EmptyString => None
  | String c EmptyString => digits_value 0 k
  | String c _ => if Ascii.eqb c "0" then None else digits_value 0 k
  end.

(** Own enumerable properties, as [Object.entries] and spread list them. *)
Definition own_props (v : value) : props :=
  match v with
  | VObj ps => ps
  | VArr xs => imap (fun i x => (index_key i, x)) xs
  | VStr s =>
      imap (fun i c => (index_key i, VStr (String c EmptyString)))
           (list_ascii_of_string s)
  | _ => []
  end.

(** [v[k]] for a value that is neither null nor undefined. *)
Definition get_own (v : value) (k : string) : value :=
  match v with
  | VObj ps => obj_get ps k
  | VArr xs =>
      if String.eqb k "length" then VNum (num_of_nat (length xs))
      else default VUndef (parse_index k ≫= fun i => xs !! i)
  | VStr s =>
      if String.eqb k "length" then VNum (num_of_nat (String.length s))
      else default VUndef
             (parse_index k ≫= fun i =>
              (fun c => VStr (String c EmptyString))
                <$> list_ascii_of_string s !! i)
  | _ => VUndef
  end.

(** [v[k]]; reading a property of null or undefined is a TypeError. *)
Definition js_get (v : value) (k : string) : res value :=
  if nullish v then Throw "TypeError" else Ok (get_own v k).

(** *** Strings *)

(** [s.split(sep)] for a one-character separator. *)
Fixpoint split_on (sep : ascii) (s : string) : list string :=
  match s with
  | EmptyString => [EmptyString]
  | String c r =>
      if Ascii.eqb c sep then EmptyString :: split_on sep r
      else match split_on sep r with
           | [] => [String c EmptyString]
           | w :: ws => String c w :: ws
           end
  end.

(** [s.startsWith('$')] and [s.slice(1)] *)
Definition starts_with (c : ascii) (s : string) : bool :=
  match s with
  | String c' _ => Ascii.eqb c' c
  | EmptyString => false
  end.

Definition slice1 (s : string) : string :=
  match s with
  | String _ r => r
  | EmptyString => EmptyString
  end.

Fixpoint join (sep : string) (ss : list string) : string :=
  match ss with
  | [] => EmptyString
  | [x] => x
  | x :: r => x +:+ sep +:+ join sep r
  end.

(** *** [Array.prototype.slice] *)

Inductive extint : Type :=
| MinusInf
| Int (z : Z)
| PlusInf.

(** ToIntegerOrInfinity *)
Definition to_integer (n : number) : extint :=
  match n with
  | NaN => Int 0
  | NegInf => MinusInf
  | PosInf => PlusInf
  | Fin q => Int (Z.quot (Qnum q) (Zpos (Qden q)))
  end.

Definition rel_index (len : Z) (e : extint) : Z :=
  match e with
  | MinusInf => 0
  | PlusInf => len
  | Int z => if (z <? 0)%Z then Z.max (len + z) 0 else Z.min z len
  end.

Section slice.
Context {rt : Runtime}.

(** [xs.slice(start, stop)]; an omitted [stop] is undefined. *)
Definition array_slice {A} (xs : list A) (start stop : value) : list A :=
  let len := Z.of_nat (length xs) in
  let k := rel_index len (to_integer (to_number start)) in
  let fin :=
    match stop with
    | VUndef => len
    | _ => rel_index len (to_integer (to_number stop))
    end in
  take (Z.to_nat (fin - k)) (drop (Z.to_nat k) xs).
End slice.

End Js.

Import Js.

(** ** src/utils.js: the JSON file store *)

Module Persist.

(** *** Printing and reading ISO timestamps *)

Definition digit_char (n : nat) : ascii := ascii_of_nat (48 + n mod 10).

(** The [w] low decimal digits of [n], most significant first. *)
Fixpoint digits (w n : nat) : list ascii :=
  match w with
  | O => []
  | S w' => digits w' (n / 10) ++ [digit_char n]
  end.

Definition year_chars (yr : Z) : list ascii :=
  if ((0 <=? yr) && (yr <=? 9999))%Z then digits 4 (Z.to_nat yr)
  else (if (yr <? 0)%Z then "-"%char else "+"%char)
         :: digits 6 (Z.to_nat (Z.abs yr)).

(** [Date.prototype.toISOString]: a RangeError on the invalid Date. *)
Definition toISOString (d : jsdate) : res string :=
  match d with
  | InvalidDate => Throw "RangeError: Invalid time value"
  | Utc yr mo dy hh mi ss ms =>
      Ok (string_of_list_ascii
            (year_chars yr ++ "-"%char :: digits 2 mo ++ "-"%char ::
             digits 2 dy ++ "T"%char :: digits 2 hh ++ ":"%char ::
             digits 2 mi ++ ":"%char :: digits 2 ss ++ "."%char ::
             digits 3 ms ++ ["Z"%char]))
  end.

(** [Date.prototype.toJSON]: null for the invalid Date. *)
Definition date_toJSON (d : jsdate) : value :=
  match toISOString d with
  | Ok s => VStr s
  | Throw _ => VNull
  end.

(** The pattern of [readJSON]'s reviver,
    [/^\d{4}-\d{2}-\d{2}T\d{2}:\d{2}:\d{2}.\d{3}Z$/]: the dot before the
    milliseconds is not escaped and stands for any character but a line
    terminator. *)
Inductive atom : Type :=
| Digit
| Lit (c : ascii)
| AnyChar.

Definition atom_matches (a : atom) (c : ascii) : bool :=
  match a with
  | Digit => is_digit c
  | Lit c' => Ascii.eqb c c'
  | AnyChar => negb (Ascii.eqb c "010"%char || Ascii.eqb c "013"%char)
  end.

Fixpoint atoms_match (p : list atom) (s : list ascii) : bool :=
  match p, s with
  | [], [] => true
  | a :: p', c :: s' => atom_matches a c && atoms_match p' s'
  | _, _ => false
  end.

Definition iso_pattern : list atom :=
  [Digit; Digit; Digit; Digit; Lit "-"; Digit; Digit; Lit "-"; Digit; Digit;
   Lit "T"; Digit; Digit; Lit ":"; Digit; Digit; Lit ":"; Digit; Digit;
   AnyChar; Digit; Digit; Digit; Lit "Z"]%char.

Definition iso_like (s : string) : bool :=
  atoms_match iso_pattern (list_ascii_of_string s).

Definition leap_year (yr : Z) : bool :=
  ((yr mod 4 =? 0) && (negb (yr mod 100 =? 0) || (yr mod 400 =? 0)))%Z.

Definition days_in_month (yr : Z) (mo : nat) : nat :=
  match mo with
  | 2 => if leap_year yr then 29 else 28
  | 4 | 6 | 9 | 11 => 30
  | _ => 31
  end.

(** The field ranges of a calendar instant. *)
Definition valid_fields (yr : Z) (mo dy hh mi ss ms : nat) : bool :=
  Nat.leb 1 mo && Nat.leb mo 12 && Nat.leb 1 dy &&
  Nat.leb dy (days_in_month yr mo) &&
  Nat.leb hh 23 && Nat.leb mi 59 && Nat.leb ss 59 && Nat.leb ms 999.

Definition valid_date (d : jsdate) : bool :=
  match d with
  | InvalidDate => false
  | Utc yr mo dy hh mi ss ms => valid_fields yr mo dy hh mi ss ms
  end.

Definition num_of_digits (cs : list ascii) : nat :=
  fold_left (fun acc c => 10 * acc + digit_val c) cs 0.

(** The instant a canonical timestamp [YYYY-MM-DDTHH:mm:ss.sssZ] denotes. *)
Definition parse_iso (s : string) : option jsdate :=
  match list_ascii_of_string s with
  | [y1; y2; y3; y4; _; m1; m2; _; d1; d2; _; h1; h2; _; i1; i2; _; s1; s2;
     dot; f1; f2; f3; _] =>
      let yr := Z.of_nat (num_of_digits [y1; y2; y3; y4]) in
      let mo := num_of_digits [m1; m2] in
      let dy := num_of_digits [d1; d2] in
      let hh := num_of_digits [h1; h2] in
      let mi := num_of_digits [i1; i2] in
      let ss := num_of_digits [s1; s2] in
      let ms := num_of_digits [f1; f2; f3] in
      if iso_like s && Ascii.eqb dot "."%char &&
         valid_fields yr mo dy hh mi ss ms
      then Some (Utc yr mo dy hh mi ss ms)
      else None
  | _ => None
  end.


(** *** JSON documents *)

#[local] Unset Elimination Schemes.
Inductive json : Type :=
| JNull
| JBool (b : bool)
| JNum (q : Q)
| JStr (s : string)
| JArr (js : list json)
| JObj (ps : list (string * json)).
#[local] Set Elimination Schemes.

(** The replacer [writeJSON] hands to [JSON.stringify]. *)
Definition replacer (v : value) : res value :=
  match v with
  | VDate d => VStr <$> toISOString d
  | _ => Ok v
  end.

(** The step of [JSON.stringify] that comes before the replacer: a value
    with a [toJSON] method is replaced by what the method returns. *)
Definition toJSON_step (v : value) : value :=
  match v with
  | VDate d => date_toJSON d
  | _ => v
  end.

(** Serialisation of what is left when it is no array and no object;
    [None] is the undefined result, which drops a property. *)
Definition stringify_leaf (v : value) : option json :=
  match v with
  | VUndef => None
  | VNull => Some JNull
  | VBool b => Some (JBool b)
  | VNum (Fin q) => Some (JNum q)
  | VNum _ => Some JNull
  | VStr s => Some (JStr s)
  | VDate _ | VObj _ => Some (JObj [])
  | VArr _ => Some (JArr [])
  end.

(** [JSON.stringify(v, replacer, 2)] up to the layout of the text.  Arrays
    and objects have no [toJSON] and the replacer returns them as they
    are, so both steps are written out for the other values only. *)
Fixpoint stringify (v : value) : res (option json) :=
  match v with
  | VArr xs =>
      let fix elems (l : list value) : res (list json) :=
        match l with
        | [] => Ok []
        | x :: r =>
            j ← stringify x; js ← elems r; Ok (default JNull j :: js)
        end in
      js ← elems xs; Ok (Some (JArr js))
  | VObj ps =>
      let fix fields (l : props) : res (list (string * json)) :=
        match l with
        | [] => Ok []
        | (k, x) :: r =>
            j ← stringify x; js ← fields r;
            Ok (match j with Some j' => (k, j') :: js | None => js end)
        end in
      js ← fields ps; Ok (Some (JObj js))
  | _ => v' ← replacer (toJSON_step v); Ok (stringify_leaf v')
  end.

(** *** Files *)

(** What a file holds: nothing but white space, the text of a JSON
    document, or text that [JSON.parse] rejects. *)
Inductive file : Type :=
| Blank
| Json (j : json)
| Garbled.

(** The store maps a path to its file; directories are not modelled and
    writing a file always succeeds. *)
Abbreviation store := (gmap string file).

(** Computations over the store: the store that is left, and a result
    or the error thrown. *)
Definition io (A : Type) : Type := store -> store * res A.

Definition io_ret {A} (a : A) : io A := fun fs => (fs, Ok a).
Definition io_throw {A} (e : string) : io A := fun fs => (fs, Throw e).
Definition io_lift {A} (m : res A) : io A := fun fs => (fs, m).
Definition io_bind {A B} (m : io A) (k : A -> io B) : io B :=
  fun fs =>
    match m fs with
    | (fs', Ok a) => k a fs'
    | (fs', Throw e) => (fs', Throw e)
    end.

(** [writeJSON(filePath, data)] *)
Definition writeJSON (filePath : string) (data : value) : io unit :=
  fun fs =>
    match stringify data with
    | Ok (Some j) => (<[filePath := Json j]> fs, Ok tt)
    | Ok None =>
        (fs, Throw ("Failed to write to " +:+ filePath +:+ ": TypeError"))
    | Throw e => (fs, Throw ("Failed to write to " +:+ filePath +:+ ": " +:+ e))
    end.

Section persist.
Context {rt : Runtime}.

(** [new Date(s)] *)
Definition new_Date (s : string) : jsdate :=
  match parse_iso s with
  | Some d => d
  | None => rt_date_parse s
  end.

(** The reviver [readJSON] hands to [JSON.parse]. *)
Definition reviver (v : value) : value :=
  match v with
  | VStr s => if iso_like s then VDate (new_Date s) else v
  | _ => v
  end.

(** [JSON.parse(text, reviver)]: children first, then the value itself.
    A member name that is repeated in the text keeps its first place and
    its last value. *)
Fixpoint parse (j : json) : value :=
  match j with
  | JNull => reviver VNull
  | JBool b => reviver (VBool b)
  | JNum q => reviver (VNum (Fin q))
  | JStr s => reviver (VStr s)
  | JArr js => reviver (VArr (map parse js))
  | JObj ps =>
      reviver (VObj (spread (map (fun kj => (kj.1, parse kj.2)) ps) []))
  end.

(** [readJSON(filePath)] *)
Definition readJSON (filePath : string) : io value :=
  fun fs =>
    match fs !! filePath with
    | Some Blank =>
        io_bind (writeJSON filePath (VArr [])) (fun _ => io_ret (VArr [])) fs
    | Some (Json j) => (fs, Ok (parse j))
    | Some Garbled => (fs, Throw "SyntaxError")
    | None =>
        io_bind (writeJSON filePath (VArr [])) (fun _ => io_ret (VArr [])) fs
    end.
End persist.

Notation "'let*' x ':=' m 'in' k" := (io_bind m (fun x => k))
  (at level 10, x pattern, m at level 100, k at level 200).

End Persist.

Import Persist.

(** ** src/SchemaType.js *)

Module SchemaType.

(** A call of one of the two handlers [doValidate] hands to [then]: the
    first with a value, or the second. *)
Inductive settled : Type :=
| Fulfils (ok : value)
| Rejects.

(** What [validator.validator.call(context, value)] does: it returns a
    value that is no thenable, it throws, or it returns a thenable.  A
    thenable is any object with a [then] method, and what counts of it is
    what that method does with the two handlers: the calls it makes before
    it returns, whether it then throws, and the calls that are made after
    [doValidate] has returned.  A promise makes no call at once, does not
    throw, and makes one call later. *)
Inductive outcome : Type :=
| Returns (result : value)
| Throws
| Thenable (at_once : list settled) (then_throws : bool)
           (later : list settled).

(** An entry of [this.validators]; a missing message is the empty string,
    which [validator.message || ...] treats alike. *)
Record validator : Type := {
  v_validator : value -> value -> outcome;   (* context, value *)
  v_message : string;
  v_isRequired : bool
}.

Record t : Type := {
  path : string;
  validators : list validator;
  setters : list (value -> res value)
}.

Definition default_message (p : string) : string :=
  "Validation failed for path `" +:+ p +:+ "`".

(** The validator [required] installs. *)
Definition required_validator (p : string) : validator :=
  {| v_validator := fun _ v => Returns (VBool (negb (nullish v)));
     v_message := "Path `" +:+ p +:+ "` is required.";
     v_isRequired := true |}.

(** [required()] without an argument *)
Definition required (st : t) : bool := existsb v_isRequired (validators st).

(** [required(required)] *)
Definition set_required (r : value) (st : t) : t :=
  if truthy r
  then {| path := path st;
          validators := required_validator (path st) :: validators st;
          setters := setters st |}
  else st.

(** The argument of [validate(obj)]: null or undefined, a function, or an
    object whose [validator] property may be missing. *)
Inductive validate_arg : Type :=
| ArgNone
| ArgFunction (f : value -> value -> outcome)
| ArgObject (f : option (value -> value -> outcome)) (message : string).

Definition _createValidator (st : t) (f : value -> value -> outcome)
    (message : string) : validator :=
  {| v_validator := f;
     v_message := if String.eqb message EmptyString then default_message (path st)
                  else message;
     v_isRequired := false |}.

Definition push_validator (v : validator) (st : t) : t :=
  {| path := path st;
     validators := validators st ++ [v];
     setters := setters st |}.

(** [validate(obj)] *)
Definition validate (obj : validate_arg) (st : t) : t :=
  match obj with
  | ArgNone => st
  | ArgFunction f => push_validator (_createValidator st f EmptyString) st
  | ArgObject (Some f) m => push_validator (_createValidator st f m) st
  | ArgObject None _ => st
  end.

(** [set(fn)] *)
Definition set (fn : value -> res value) (st : t) : t :=
  {| path := path st;
     validators := validators st;
     setters := setters st ++ [fn] |}.

(** The options the constructor reads that bear on casting and
    validation. *)
Record options : Type := {
  o_required : value;
  o_validate : validate_arg;
  o_set : option (value -> res value)
}.

(** [new SchemaType(path, options)] *)
Definition new (p : string) (o : options) : t :=
  let st0 := {| path := p; validators := []; setters := [] |} in
  let st1 := if truthy (o_required o) then set_required (o_required o) st0
             else st0 in
  let st2 := validate (o_validate o) st1 in
  match o_set o with
  | Some fn => set fn st2
  | None => st2
  end.

(** [cast(val)] *)
Definition cast (st : t) (val : value) : res value :=
  if nullish val then Ok val
  else fold_left (fun acc setter => acc ≫= setter) (setters st) (Ok val).

(** *** [doValidate] *)

(** The two variables the closures of [doValidate] share, with the record
    of what has been observed so far: the validators invoked, by position,
    and the arguments [fn] has been called with. *)
Record dv_state : Type := {
  err : option string;
  validatorsCompleted : nat;
  invoked : list nat;
  reported : list (option string)
}.

(** [validatorWrapper(ok)] of the validator [v] *)
Definition validatorWrapper (st : t) (v : validator) (ok : value)
    (s : dv_state) : dv_state :=
  let completed := S (validatorsCompleted s) in
  let err' :=
    if strict_eq ok (VBool false) && negb (bool_decide (is_Some (err s)))
    then Some (if String.eqb (v_message v) EmptyString then default_message (path st)
               else v_message v)
    else err s in
  {| err := err';
     validatorsCompleted := completed;
     invoked := invoked s;
     reported := if Nat.eqb completed (length (validators st))
                 then reported s ++ [err'] else reported s |}.

(** A handler given to [then] is called: [ok => validatorWrapper(ok)] or
    [error => validatorWrapper(false)]. *)
Definition dv_settle (st : t) (s : dv_state) (p : validator * settled)
    : dv_state :=
  match p.2 with
  | Fulfils ok => validatorWrapper st p.1 ok s
  | Rejects => validatorWrapper st p.1 (VBool false) s
  end.

(** One turn of the loop over [this.validators]: the state, and the calls
    of the handlers given to [then] that are still to come.  The calls
    [then] makes at once run inside the loop, and a [then] that throws is
    caught like a validator that throws. *)
Definition dv_step (st : t) (value context : value)
    (acc : dv_state * list (validator * settled)) (iv : nat * validator)
    : dv_state * list (validator * settled) :=
  let '(s, pending) := acc in
  let '(i, v) := iv in
  let s := {| err := err s; validatorsCompleted := validatorsCompleted s;
              invoked := invoked s ++ [i]; reported := reported s |} in
  match v_validator v context value with
  | Returns result => (validatorWrapper st v result s, pending)
  | Throws => (validatorWrapper st v (VBool false) s, pending)
  | Thenable at_once then_throws later =>
      let s := fold_left (fun s sd => dv_settle st s (v, sd)) at_once s in
      let s := if then_throws : bool
               then validatorWrapper st v (VBool false) s else s in
      (s, pending ++ map (pair v) later)
  end.

Record dv_result : Type := {
  (** the validators invoked, by position, in order *)
  dv_invoked : list nat;
  (** the calls of [fn] made before [doValidate] returns *)
  dv_reported : list (option string);
  (** the calls of [fn] made afterwards, by the calls of the handlers
      that are still to come (taken in the order the thenables were
      handed out) *)
  dv_reported_later : list (option string)
}.

(** [doValidate(value, fn, context)], for an [fn] that does not throw. *)
Definition doValidate (st : t) (value context : value) : dv_result :=
  let s0 := {| err := None; validatorsCompleted := 0;
               invoked := []; reported := [] |} in
  if Nat.eqb (length (validators st)) 0
  then {| dv_invoked := []; dv_reported := [None]; dv_reported_later := [] |}
  else
    let '(s1, pending) :=
      fold_left (dv_step st value context)
                (imap (fun i v => (i, v)) (validators st)) (s0, []) in
    let s2 := fold_left (dv_settle st) pending
                {| err := err s1;
                   validatorsCompleted := validatorsCompleted s1;
                   invoked := invoked s1; reported := [] |} in
    {| dv_invoked := invoked s1;
       dv_reported := reported s1;
       dv_reported_later := reported s2 |}.

End SchemaType.

(** ** src/Schema.js *)

Module Schema.

(** [schema.default] of a parsed field definition *)
Inductive default_spec : Type :=
| NoDefault
| DefaultValue (v : value)
| DefaultProducer (f : unit -> res value).

(** What [Model._createOne] reads of a parsed field definition. *)
Record fielddef : Type := {
  fd_type_is_Date : bool;
  fd_default : default_spec
}.

(** A hook: an effect on the record it is called on, or an error. *)
Definition hook : Type := props -> res props.

Record t : Type := {
  definition : list (string * fielddef);
  _paths : list (string * SchemaType.t);
  pre_save : option (list hook);
  post_save : option (list hook)
}.

(** An entry of the definition as [_parseDefinition] leaves it, by what is
    read of it afterwards: [_createOne] reads [type] and [default], and the
    constructor of [SchemaType], which [_createSchemaType] calls with the
    entry as options, reads [required], [validate] and [set]. *)
Record declared : Type := {
  d_field : fielddef;
  d_options : SchemaType.options
}.

(** [new Schema(definition)], for a definition given by its entries:
    [_parseDefinition] assigns them to a fresh object one by one, so that
    an entry named [__proto__] leaves no field, and [_init] makes a schema
    type of each and enters it in [_paths]; no hook is registered. *)
Definition new (entries : list (string * declared)) : t :=
  let parsed :=
    List.filter (fun e => negb (String.eqb e.1 "__proto__")) entries in
  {| definition := map (fun e => (e.1, d_field e.2)) parsed;
     _paths := map (fun e => (e.1, SchemaType.new e.1 (d_options e.2))) parsed;
     pre_save := None;
     post_save := None |}.

(** [pre('save', fn)] and [post('save', fn)] *)
Definition pre (fn : hook) (s : t) : t :=
  {| definition := definition s; _paths := _paths s;
     pre_save := Some (default [] (pre_save s) ++ [fn]);
     post_save := post_save s |}.

Definition post (fn : hook) (s : t) : t :=
  {| definition := definition s; _paths := _paths s;
     pre_save := pre_save s;
     post_save := Some (default [] (post_save s) ++ [fn]) |}.

(** The body of the loop of [validate] for one entry of [_paths]: the
    error strings it pushes before [validate] returns. *)
Definition validate_path (data : props) (entry : string * SchemaType.t)
    : list string :=
  let '(path, schemaType) := entry in
  if SchemaType.required schemaType && nullish (obj_get data path)
  then [path +:+ " is required"]
  else if negb (nullish (obj_get data path))
  then match SchemaType.cast schemaType (obj_get data path) with
       | Ok value =>
           omap id (SchemaType.dv_reported
                      (SchemaType.doValidate schemaType value (VObj data)))
       | Throw message => [path +:+ " validation failed: " +:+ message]
       end
  else [].

(** [validate(data)]: the array it returns, as it is on return. *)
Definition validate (schema : t) (data : props) : list string :=
  fold_left (fun errors entry => errors ++ validate_path data entry)
            (_paths schema) [].

End Schema.

(** ** Document.js: what the constructor stores *)

Module Document.

Record t : Type := {
  _doc : props;
  _id : value;
  isNew : bool
}.

(** [new Document(obj, schema, model)] *)
Definition new (obj : value) : res t :=
  id ← js_get obj "_id";
  Ok {| _doc := spread (own_props obj) []; _id := id; isNew := true |}.

End Document.

(** ** Model.js *)

Module Model.

Record t : Type := {
  name : string;
  schema : Schema.t;
  collectionPath : string
}.

Record update_result : Type := {
  modifiedCount : nat;
  upsertedCount : nat
}.

(** [xs.every(f)], [xs.filter(f)] and [xs.findIndex(f)] for a callback that
    may throw: the callback runs on the elements in order, and [every]
    stops at the first one it rejects. *)
Fixpoint every {A} (f : A -> res bool) (xs : list A) : res bool :=
  match xs with
  | [] => Ok true
  | x :: r => b ← f x; if b : bool then every f r else Ok false
  end.

Fixpoint filterM {A} (f : A -> res bool) (xs : list A) : res (list A) :=
  match xs with
  | [] => Ok []
  | x :: r => b ← f x; ys ← filterM f r; Ok (if b : bool then x :: ys else ys)
  end.

Fixpoint findIndex {A} (f : A -> res bool) (xs : list A) : res (option nat) :=
  match xs with
  | [] => Ok None
  | x :: r => b ← f x; if b : bool then Ok (Some 0)
              else i ← findIndex f r; Ok (option_map S i)
  end.

(** A collection as the methods use it: [docs.filter], [docs.push] and
    [docs.findIndex] are a TypeError on what is no array. *)
Definition as_array (docs : value) : res (list value) :=
  match docs with
  | VArr xs => Ok xs
  | _ => Throw "TypeError"
  end.

Section model.
Context {rt : Runtime}.

(** [Array.isArray(doc[key]) ? doc[key] : [doc[key]]] *)
Definition as_set (v : value) : list value :=
  match v with
  | VArr xs => xs
  | _ => [v]
  end.

(** [operand.some(item => docValue.includes(item))] *)
Definition some_included (operand : value) (docValue : list value)
    : res bool :=
  items ← as_array operand;
  Ok (existsb (fun item => existsb (same_value_zero item) docValue) items).

(** The [switch] of [_matchQuery] for one entry of a criterion;
    [value] is the criterion the entry belongs to. *)
Definition match_operator (doc : value) (key : string) (value : value)
    (entry : string * Js.value) : res bool :=
  let '(operator, operand) := entry in
  if String.eqb operator "$gt" then
    d ← js_get doc key; Ok (js_gt d operand)
  else if String.eqb operator "$gte" then
    d ← js_get doc key; Ok (js_ge d operand)
  else if String.eqb operator "$lt" then
    d ← js_get doc key; Ok (js_lt d operand)
  else if String.eqb operator "$lte" then
    d ← js_get doc key; Ok (js_le d operand)
  else if String.eqb operator "$ne" then
    d ← js_get doc key; Ok (negb (strict_eq d operand))
  else if String.eqb operator "$in" then
    d ← js_get doc key; some_included operand (as_set d)
  else if String.eqb operator "$nin" then
    d ← js_get doc key; negb <$> some_included operand (as_set d)
  else if String.eqb operator "$regex" then
    flags ← js_get value "$options";
    d ← js_get doc key;
    rt_regexp_test operand flags d
  else Ok false.

(** The test the callback of the outer [every] makes for one condition. *)
Definition match_condition (doc : value) (cond : string * value)
    : res bool :=
  let '(key, value) := cond in
  if truthy value && typeof_object value
  then every (match_operator doc key value) (own_props value)
  else d ← js_get doc key; Ok (strict_eq d value).

(** [_matchQuery(doc, query)] *)
Definition _matchQuery (doc : value) (query : props) : res bool :=
  every (match_condition doc) query.

(** [_find(conditions)] *)
Definition _find (m : t) (conditions : props) : io (list value) :=
  let* docs := readJSON (collectionPath m) in
  io_lift (xs ← as_array docs;
           filterM (fun doc => _matchQuery doc conditions) xs).

(** [findOne(conditions)]: a Document, or [None] for null. *)
Definition findOne (m : t) (conditions : props) : io (option Document.t) :=
  let* docs := _find m conditions in
  match docs with
  | d :: _ => if truthy d then io_lift (Some <$> Document.new d)
              else io_ret None
  | [] => io_ret None
  end.

(** The first loop of [_createOne]: defaults and date strings. *)
Definition default_defined (d : Schema.default_spec) : bool :=
  match d with
  | Schema.NoDefault | Schema.DefaultValue VUndef => false
  | _ => true
  end.

Definition eval_default (d : Schema.default_spec) : res value :=
  match d with
  | Schema.DefaultProducer f => f tt
  | Schema.DefaultValue v => Ok v
  | Schema.NoDefault => Ok VUndef
  end.

Definition apply_default (defaultedData : res props)
    (entry : string * Schema.fielddef) : res props :=
  let '(field, schema) := entry in
  dd ← defaultedData;
  dd ← (if strict_eq (obj_get dd field) VUndef &&
           default_defined (Schema.fd_default schema)
        then v ← eval_default (Schema.fd_default schema);
             Ok (obj_set field v dd)
        else Ok dd);
  Ok (match obj_get dd field with
      | VStr s =>
          if Schema.fd_type_is_Date schema
          then obj_set field (VDate (new_Date s)) dd
          else dd
      | _ => dd
      end).

Definition apply_defaults (m : t) (data : props) : res props :=
  fold_left apply_default (Schema.definition (schema m))
            (Ok (spread data [])).

(** The hooks of one action, run in order on the record. *)
Definition run_hooks (hooks : option (list Schema.hook)) (this : props)
    : res props :=
  match hooks with
  | Some hs => fold_left (fun acc h => acc ≫= h) hs (Ok this)
  | None => Ok this
  end.

(** [_createOne(data)]; [now] is the clock reading of [new Date()] and
    [oid] the text of the fresh [ObjectId]. *)
Definition _createOne (m : t) (now : jsdate) (oid : string) (data : props)
    : io Document.t :=
  let* defaultedData := io_lift (apply_defaults m data) in
  let errors := Schema.validate (schema m) defaultedData in
  if Nat.ltb 0 (length errors) then io_throw (join ", " errors)
  else
    let* defaultedData :=
      io_lift (run_hooks (Schema.pre_save (schema m)) defaultedData) in
    let* docs := readJSON (collectionPath m) in
    let newDoc :=
      obj_set "updatedAt" (VDate now)
        (obj_set "createdAt" (VDate now)
           (spread defaultedData [("_id", VStr oid)])) in
    let* xs := io_lift (as_array docs) in
    let* _ := writeJSON (collectionPath m) (VArr (xs ++ [VObj newDoc])) in
    let* newDoc :=
      io_lift (run_hooks (Schema.post_save (schema m)) newDoc) in
    io_lift (Document.new (VObj newDoc)).

(** [create(data)] for one record; for an array the source starts one
    [_createOne] per element without awaiting the previous one. *)
Definition create (m : t) (now : jsdate) (oid : string) (data : props)
    : io Document.t :=
  _createOne m now oid data.

(** [updateOne(conditions, update)] *)
Definition updateOne (m : t) (now : jsdate) (conditions update : props)
    : io update_result :=
  let* docs := readJSON (collectionPath m) in
  let* xs := io_lift (as_array docs) in
  let* index :=
    io_lift (findIndex (fun doc => _matchQuery doc conditions) xs) in
  match index with
  | Some i =>
      let merged :=
        obj_set "updatedAt" (VDate now)
          (spread update (spread (own_props (default VUndef (xs !! i))) []))
      in
      let* _ := writeJSON (collectionPath m) (VArr (<[i := VObj merged]> xs))
      in io_ret {| modifiedCount := 1; upsertedCount := 0 |}
  | None => io_ret {| modifiedCount := 0; upsertedCount := 0 |}
  end.

(** [deleteMany(conditions)]: the [deletedCount] *)
Definition deleteMany (m : t) (conditions : props) : io nat :=
  let* docs := readJSON (collectionPath m) in
  let* xs := io_lift (as_array docs) in
  let* remaining :=
    io_lift (filterM (fun doc => negb <$> _matchQuery doc conditions) xs) in
  let* _ := writeJSON (collectionPath m) (VArr remaining) in
  io_ret (length xs - length remaining).
End model.

End Model.

(** ** QueryBuilder.js and Query.js *)

Module Query.

Record t : Type := {
  model : Model.t;
  conditions : props;
  _sort : props;
  _limit : value;
  _skip : value
}.

(** [Model.find(conditions)], that is [new Query(model, conditions)] *)
Definition find (m : Model.t) (conditions : props) : t :=
  {| model := m; conditions := conditions; _sort := [];
     _limit := VNull; _skip := VNull |}.

(** *** QueryBuilder *)

Record QueryBuilder : Type := {
  query : t;
  path : string
}.

Definition where_ (q : t) (path : string) : QueryBuilder :=
  {| query := q; path := path |}.

(** [this.query.conditions[this.path] = criterion; return this.query] *)
Definition set_condition (b : QueryBuilder) (criterion : value) : t :=
  let q := query b in
  {| model := model q;
     conditions := obj_assign (path b) criterion (conditions q);
     _sort := _sort q; _limit := _limit q; _skip := _skip q |}.

Definition equals (b : QueryBuilder) (val : value) : t := set_condition b val.
Definition gt (b : QueryBuilder) (val : value) : t :=
  set_condition b (VObj [("$gt", val)]).
Definition gte (b : QueryBuilder) (val : value) : t :=
  set_condition b (VObj [("$gte", val)]).
Definition lt (b : QueryBuilder) (val : value) : t :=
  set_condition b (VObj [("$lt", val)]).
Definition lte (b : QueryBuilder) (val : value) : t :=
  set_condition b (VObj [("$lte", val)]).
Definition in_ (b : QueryBuilder) (arr : value) : t :=
  set_condition b (VObj [("$in", if is_array arr then arr else VArr [arr])]).
Definition nin (b : QueryBuilder) (arr : value) : t :=
  set_condition b (VObj [("$nin", if is_array arr then arr else VArr [arr])]).

(** [exists(val = true)]: an undefined argument takes the default. *)
Definition exists_ (b : QueryBuilder) (val : value) : t :=
  let val := match val with VUndef => VBool true | _ => val end in
  set_condition b (VObj [("$exists", val)]).

Definition regex (b : QueryBuilder) (pattern options : value) : t :=
  set_condition b (VObj [("$regex", pattern); ("$options", options)]).

(** *** Query *)

Definition skip (q : t) (n : value) : t :=
  {| model := model q; conditions := conditions q; _sort := _sort q;
     _limit := _limit q; _skip := n |}.

Definition limit (q : t) (n : value) : t :=
  {| model := model q; conditions := conditions q; _sort := _sort q;
     _limit := n; _skip := _skip q |}.

(** The white space of [\s] among the code units below 256: the blank,
    the controls from tab to carriage return, and the no-break space. *)
Definition is_space (c : ascii) : bool :=
  let n := nat_of_ascii c in
  Nat.eqb n 32 || (Nat.leb 9 n && Nat.leb n 13) || Nat.eqb n 160.

(** [fields.split(/\s+/)] *)
Fixpoint split_ws (after_space : bool) (s : string) : list string :=
  match s with
  | EmptyString => [EmptyString]
  | String c r =>
      if is_space c
      then if after_space then split_ws true r
           else EmptyString :: split_ws true r
      else match split_ws false r with
           | w :: ws => String c w :: ws
           | [] => [String c EmptyString]
           end
  end.

(** One field of the string form of [sort]: a leading dash means
    descending. *)
Definition sort_field (acc : props) (field : string) : props :=
  if starts_with "-" field
  then obj_set (slice1 field) (VNum (num_of_Z (-1))) acc
  else obj_set field (VNum (num_of_Z 1)) acc.

(** [sort(fields)] for a string and for an object *)
Definition sort (q : t) (fields : value) : t :=
  let merged :=
    match fields with
    | VStr s => fold_left sort_field (split_ws false s) (_sort q)
    | _ => spread (own_props fields) (_sort q)
    end in
  {| model := model q; conditions := conditions q; _sort := merged;
     _limit := _limit q; _skip := _skip q |}.

Section exec.
Context {rt : Runtime}.

(** The comparator [exec] hands to [docs.sort]. *)
Fixpoint compare_docs (sort : props) (a b : value) : res number :=
  match sort with
  | [] => Ok (Fin 0)
  | (field, order) :: rest =>
      x ← js_get a field;
      y ← js_get b field;
      if js_lt x y then Ok (num_neg (to_number order))
      else if js_gt x y then Ok (to_number order)
      else compare_docs rest a b
  end.

(** [docs.sort(cmp)] as a stable insertion sort: an element goes behind
    those the comparator does not put after it.  For a comparator that
    is a consistent ordering this is the sorted array every engine
    yields. *)
Fixpoint insert_doc (cmp : value -> value -> res number) (x : value)
    (sorted : list value) : res (list value) :=
  match sorted with
  | [] => Ok [x]
  | y :: r =>
      c ← cmp x y;
      match num_less (Fin 0) c with
      | Some true => r' ← insert_doc cmp x r; Ok (y :: r')
      | _ => Ok (x :: y :: r)
      end
  end.

Fixpoint sort_docs (cmp : value -> value -> res number) (docs : list value)
    : res (list value) :=
  match docs with
  | [] => Ok []
  | x :: r => r' ← sort_docs cmp r; insert_doc cmp x r'
  end.

(** [exec()] of a query without [populate] requests *)
Definition exec (q : t) : io (list Document.t) :=
  let* docs := Model._find (model q) (conditions q) in
  let* docs :=
    if Nat.ltb 0 (length (_sort q))
    then io_lift (sort_docs (compare_docs (_sort q)) docs)
    else io_ret docs in
  let docs := if truthy (_skip q) then array_slice docs (_skip q) VUndef
              else docs in
  let docs := if truthy (_limit q)
              then array_slice docs (VNum (Fin 0)) (_limit q)
              else docs in
  io_lift (mapM Document.new docs).
End exec.

End Query.

(** ** Aggregate.js: [$group] *)

Module Aggregate.

(** Which object a key of the [Map] of [_group] is, when it is an object:
    the one found in the record at a position of [docs], or the grouping
    expression itself.  The records are distinct trees, so two of them
    never hold the same object. *)
Inductive origin : Type :=
| InRecord (i : nat)
| InExpression.

Record gkey : Type := {
  k_value : value;
  k_origin : option origin       (* [None] for a primitive *)
}.

Definition origin_eqb (a b : origin) : bool :=
  match a, b with
  | InRecord i, InRecord j => Nat.eqb i j
  | InExpression, InExpression => true
  | _, _ => false
  end.

(** The equality of [Map] keys *)
Definition key_eqb (a b : gkey) : bool :=
  match k_origin a, k_origin b with
  | None, None => same_value_zero (k_value a) (k_value b)
  | Some x, Some y => origin_eqb x y
  | _, _ => false
  end.

Definition groups_has (key : gkey) (groups : list (gkey * props)) : bool :=
  existsb (fun g => key_eqb g.1 key) groups.

(** The group of a key, with [f] applied to it in place. *)
Fixpoint groups_update (key : gkey) (f : props -> res props)
    (groups : list (gkey * props)) : res (list (gkey * props)) :=
  match groups with
  | [] => Ok []
  | (k, g) :: r =>
      if key_eqb k key then g' ← f g; Ok ((k, g') :: r)
      else r' ← groups_update key f r; Ok ((k, g) :: r')
  end.

(** [Object.keys(o)[0]]: a TypeError on null and undefined. *)
Definition first_key (o : value) : res (option string) :=
  if nullish o then Throw "TypeError"
  else Ok (fst <$> head (own_props o)).

Section aggregate.
Context {rt : Runtime}.

(** [_getFieldValue(doc, path)] *)
Definition _getFieldValue (doc : value) (path : string) : value :=
  fold_left (fun obj key => if truthy obj then get_own obj key else obj)
            (split_on "." path) doc.

Definition is_field_reference (expr : value) : bool :=
  match expr with
  | VStr s => starts_with "$" s
  | _ => false
  end.

(** [_evaluateExpression(expr, doc)] *)
Definition _evaluateExpression (expr doc : value) : value :=
  match expr with
  | VStr s => if starts_with "$" s then _getFieldValue doc (slice1 s)
              else expr
  | _ => expr
  end.

(** [_initializeAccumulator(accumulator)] *)
Definition _initializeAccumulator (accumulator : value) : res value :=
  operator ← first_key accumulator;
  Ok (match operator with
      | Some "$sum" => VNum (Fin 0)
      | Some "$avg" => VObj [("sum", VNum (Fin 0)); ("count", VNum (Fin 0))]
      | Some "$min" => VNum PosInf
      | Some "$max" => VNum NegInf
      | _ => VNull
      end).

(** [_updateAccumulator(group, field, spec, doc)]: the group afterwards *)
Definition _updateAccumulator (group : props) (field : string)
    (spec doc : value) : res props :=
  operator ← first_key spec;
  let fieldPath := get_own spec (default "undefined" operator) in
  let value := _evaluateExpression fieldPath doc in
  match operator with
  | Some "$sum" =>
      Ok (obj_set field (js_add (obj_get group field) value) group)
  | Some "$avg" =>
      acc ← js_get (obj_get group field) "sum";
      match obj_get group field with
      | VObj ps =>
          let ps := obj_set "sum" (js_add acc value) ps in
          let ps := obj_set "count"
                      (VNum (num_add (to_number (obj_get ps "count"))
                                     (Fin 1))) ps in
          let ps := obj_set "value"
                      (js_div (obj_get ps "sum") (obj_get ps "count")) ps in
          Ok (obj_set field (VObj ps) group)
      | _ => Throw "TypeError"
      end
  | Some "$min" =>
      Ok (obj_set field (math_min (obj_get group field) value) group)
  | Some "$max" =>
      Ok (obj_set field (math_max (obj_get group field) value) group)
  | _ => Ok group
  end.

(** The key [_group] files a record under. *)
Definition group_key (grouping : props) (i : nat) (doc : value) : gkey :=
  if strict_eq (obj_get grouping "_id") VNull
  then {| k_value := VStr "null"; k_origin := None |}
  else
    let v := _evaluateExpression (obj_get grouping "_id") doc in
    {| k_value := v;
       k_origin :=
         if is_primitive v then None
         else Some (if is_field_reference (obj_get grouping "_id")
                    then InRecord i else InExpression) |}.

(** The two loops over [Object.entries(grouping)] *)
Definition init_group (grouping : props) : res props :=
  fold_left
    (fun group fa =>
       if String.eqb fa.1 "_id" then group
       else g ← group; a ← _initializeAccumulator fa.2;
            Ok (obj_set fa.1 a g))
    grouping (Ok []).

Definition update_group (grouping : props) (doc : value) (group : props)
    : res props :=
  fold_left
    (fun group fa =>
       if String.eqb fa.1 "_id" then group
       else g ← group; _updateAccumulator g fa.1 fa.2 doc)
    grouping (Ok group).

(** The body of the loop over [docs] *)
Definition group_step (grouping : props)
    (groups : res (list (gkey * props))) (idoc : nat * value)
    : res (list (gkey * props)) :=
  let '(i, doc) := idoc in
  gs ← groups;
  let key := group_key grouping i doc in
  gs ← (if groups_has key gs then Ok gs
        else g ← init_group grouping; Ok (gs ++ [(key, g)]));
  groups_update key (update_group grouping doc) gs.

(** One record of the result *)
Definition group_record (entry : gkey * props) : value :=
  let '(key, value) := entry in
  VObj (spread value
          [("_id", if strict_eq (k_value key) (VStr "null") then VNull
                   else k_value key)]).

(** [_group(docs, grouping)] *)
Definition _group (docs : list value) (grouping : props)
    : res (list value) :=
  groups ← fold_left (group_step grouping)
                     (imap (fun i doc => (i, doc)) docs) (Ok []);
  Ok (map group_record groups).
End aggregate.

End Aggregate.

(** ** Aggregate.js: [$unwind], over a store of objects

    [_unwind] copies a record with [{ ...doc }], which shares every nested
    object with the original, and then assigns through the copy.  Objects
    are therefore cells of a store here, and a value refers to them. *)

Module Unwind.

Definition loc : Type := nat.

Inductive hval : Type :=
| HUndef
| HNull
| HBool (b : bool)
| HNum (n : number)
| HStr (s : string)
| HDate (d : jsdate)
| HRef (l : loc).

Inductive cell : Type :=
| CObj (ps : list (string * hval))
| CArr (xs : list hval).

(** A new cell takes the next free location. *)
Definition heap : Type := list cell.

Definition new_cell (c : cell) (h : heap) : heap * hval :=
  (h ++ [c], HRef (length h)).

(** The objects [JSON.parse] builds for a document: one fresh cell for
    every array and every object. *)
Fixpoint alloc (v : value) (h : heap) : heap * hval :=
  match v with
  | VUndef => (h, HUndef)
  | VNull => (h, HNull)
  | VBool b => (h, HBool b)
  | VNum n => (h, HNum n)
  | VStr s => (h, HStr s)
  | VDate d => (h, HDate d)
  | VArr xs =>
      let fix elems (l : list value) (h : heap) : heap * list hval :=
        match l with
        | [] => (h, [])
        | x :: r =>
            let '(h1, y) := alloc x h in
            let '(h2, ys) := elems r h1 in (h2, y :: ys)
        end in
      let '(h1, ys) := elems xs h in new_cell (CArr ys) h1
  | VObj ps =>
      let fix fields (l : props) (h : heap)
          : heap * list (string * hval) :=
        match l with
        | [] => (h, [])
        | (k, x) :: r =>
            let '(h1, y) := alloc x h in
            let '(h2, ys) := fields r h1 in (h2, (k, y) :: ys)
        end in
      let '(h1, ys) := fields ps h in new_cell (CObj ys) h1
  end.

Fixpoint alloc_all (vs : list value) (h : heap) : heap * list hval :=
  match vs with
  | [] => (h, [])
  | v :: r =>
      let '(h1, y) := alloc v h in
      let '(h2, ys) := alloc_all r h1 in (h2, y :: ys)
  end.

(** The document a value of the store stands for, read to the depth
    [fuel]; [None] beyond it and at a location that holds nothing. *)
Fixpoint readback (fuel : nat) (h : heap) (v : hval) : option value :=
  match v with
  | HUndef => Some VUndef
  | HNull => Some VNull
  | HBool b => Some (VBool b)
  | HNum n => Some (VNum n)
  | HStr s => Some (VStr s)
  | HDate d => Some (VDate d)
  | HRef l =>
      match fuel with
      | O => None
      | S fuel' =>
          match h !! l with
          | Some (CArr xs) => VArr <$> mapM (readback fuel' h) xs
          | Some (CObj ps) =>
              VObj <$> mapM (fun kx => pair kx.1 <$> readback fuel' h kx.2) ps
          | None => None
          end
      end
  end.

Definition htruthy (v : hval) : bool :=
  match v with
  | HUndef | HNull => false
  | HBool b => b
  | HNum n => truthy (VNum n)
  | HStr s => truthy (VStr s)
  | HDate _ | HRef _ => true
  end.

Definition hnullish (v : hval) : bool :=
  match v with HUndef | HNull => true | _ => false end.

Fixpoint hlookup (k : string) (ps : list (string * hval)) : option hval :=
  match ps with
  | [] => None
  | (k', v) :: r => if String.eqb k' k then Some v else hlookup k r
  end.

Fixpoint hset_prop (k : string) (v : hval) (ps : list (string * hval))
    : list (string * hval) :=
  match ps with
  | [] => [(k, v)]
  | (k', v') :: r =>
      if String.eqb k' k then (k, v) :: r else (k', v') :: hset_prop k v r
  end.

(** [Array.isArray(v)] *)
Definition his_array (h : heap) (v : hval) : option (list hval) :=
  match v with
  | HRef l => match h !! l with Some (CArr xs) => Some xs | _ => None end
  | _ => None
  end.

(** [v[k]] for a value that is neither null nor undefined *)
Definition hget_own (h : heap) (v : hval) (k : string) : hval :=
  match v with
  | HRef l =>
      match h !! l with
      | Some (CObj ps) => default HUndef (hlookup k ps)
      | Some (CArr xs) =>
          if String.eqb k "length" then HNum (num_of_nat (length xs))
          else default HUndef (parse_index k ≫= fun i => xs !! i)
      | None => HUndef
      end
  | HStr s =>
      if String.eqb k "length" then HNum (num_of_nat (String.length s))
      else default HUndef
             (parse_index k ≫= fun i =>
              (fun c => HStr (String c EmptyString))
                <$> list_ascii_of_string s !! i)
  | _ => HUndef
  end.

(** [v[k]]: a TypeError on null and undefined *)
Definition hget (h : heap) (v : hval) (k : string) : res hval :=
  if hnullish v then Throw "TypeError" else Ok (hget_own h v k).

(** [target[k] = v].  The modules are strict code: assigning to a property
    of a primitive is a TypeError, as it is for null and undefined.  An
    array takes the value at the index [k] names and grows to reach it;
    its named properties, which nothing here reads, are not kept. *)
Definition hassign (h : heap) (target : hval) (k : string) (v : hval)
    : res heap :=
  match target with
  | HRef l =>
      match h !! l with
      | Some (CObj ps) => Ok (<[l := CObj (hset_prop k v ps)]> h)
      | Some (CArr xs) =>
          match parse_index k with
          | Some i =>
              if Nat.ltb i (length xs) then Ok (<[l := CArr (<[i := v]> xs)]> h)
              else Ok (<[l := CArr (xs ++ replicate (i - length xs) HUndef
                                       ++ [v])]> h)
          | None => Ok h
          end
      | None => Throw "TypeError"
      end
  | _ => Throw "TypeError"
  end.

Definition hown_props (h : heap) (v : hval) : list (string * hval) :=
  match v with
  | HRef l =>
      match h !! l with
      | Some (CObj ps) => ps
      | Some (CArr xs) => imap (fun i x => (index_key i, x)) xs
      | None => []
      end
  | HStr s =>
      imap (fun i c => (index_key i, HStr (String c EmptyString)))
           (list_ascii_of_string s)
  | _ => []
  end.

(** [{ ...doc }]: a new object with the properties of [doc], which go on
    referring to the objects they referred to. *)
Definition shallow_copy (h : heap) (doc : hval) : heap * hval :=
  new_cell (CObj (fold_left (fun acc kv => hset_prop kv.1 kv.2 acc)
                            (hown_props h doc) [])) h.

(** [_getFieldValue(doc, path)] *)
Definition _getFieldValue (h : heap) (doc : hval) (path : string) : hval :=
  fold_left (fun obj key => if htruthy obj then hget_own h obj key else obj)
            (split_on "." path) doc.

(** [_setFieldValue(doc, path, value)] *)
Definition _setFieldValue (h : heap) (doc : hval) (path : string)
    (value : hval) : res heap :=
  let parts := split_on "." path in
  let last := List.last parts EmptyString in
  let parts := removelast parts in
  target ← fold_left (fun obj key => o ← obj; hget h o key) parts (Ok doc);
  hassign h target last value.

(** The inner loop of [_unwind] over the elements of the array.  The body
    assigns to the object that holds the array, not to the array, so the
    elements are the ones the array had when the loop began. *)
Fixpoint unwind_items (fieldPath : string) (doc : hval) (items : list hval)
    (acc : res (heap * list hval)) : res (heap * list hval) :=
  match items with
  | [] => acc
  | item :: rest =>
      unwind_items fieldPath doc rest
        ('(h, result) ← acc;
         let '(h, newDoc) := shallow_copy h doc in
         h ← _setFieldValue h newDoc fieldPath item;
         Ok (h, result ++ [newDoc]))
  end.

(** The body of the outer loop *)
Definition unwind_doc (fieldPath : string) (acc : res (heap * list hval))
    (doc : hval) : res (heap * list hval) :=
  '(h, result) ← acc;
  match his_array h (_getFieldValue h doc fieldPath) with
  | None => Ok (h, result ++ [doc])
  | Some items => unwind_items fieldPath doc items (Ok (h, result))
  end.

(** [_unwind(docs, path)] *)
Definition _unwind (h : heap) (docs : list hval) (path : string)
    : res (heap * list hval) :=
  let fieldPath := if starts_with "$" path then slice1 path else path in
  fold_left (unwind_doc fieldPath) docs (Ok (h, [])).

(** [_unwind] on records as they come from the file, and the documents
    its result stands for once it has returned. *)
Definition unwind_stored (docs : list value) (path : string)
    : res (list (option value)) :=
  let '(h, ds) := alloc_all docs [] in
  '(h', out) ← _unwind h ds path;
  Ok (map (readback (S (length h')) h') out).

End Unwind.

(** ** A runtime to run examples with

    It covers the decimal numerals of the natural numbers and patterns that
    are a literal text; the examples below do not reach beyond that. *)

Fixpoint is_prefix (p s : string) : bool :=
  match p, s with
  | EmptyString, _ => true
  | String a p', String b s' => Ascii.eqb a b && is_prefix p' s'
  | _, _ => false
  end.

Fixpoint contains (p s : string) : bool :=
  is_prefix p s ||
  match s with
  | EmptyString => false
  | String _ s' => contains p s'
  end.

Definition sample_runtime : Runtime := {|
  rt_to_primitive := fun _ v =>
    match v with
    | VArr [] => VStr EmptyString
    | VObj _ => VStr "[object Object]"
    | _ => VNum NaN
    end;
  rt_string_to_number := fun s =>
    match digits_value 0 s with
    | Some n => num_of_nat n
    | None => NaN
    end;
  rt_number_to_string := fun n =>
    match n with
    | NaN => "NaN"
    | PosInf => "Infinity"
    | NegInf => "-Infinity"
    | Fin q =>
        if (0 <=? Qnum q)%Z
        then index_key (Z.to_nat (Qnum q / Zpos (Qden q)))
        else "-" +:+ index_key (Z.to_nat (- Qnum q / Zpos (Qden q)))
    end;
  rt_regexp_test := fun pattern flags subject =>
    match pattern, subject with
    | VStr p, VStr s => Ok (contains p s)
    | _, _ => Ok false
    end;
  rt_date_parse := fun _ => InvalidDate
|}.

(** ** Vocabulary of the statements *)

(** The operators the [switch] of [_matchQuery] knows. *)
Definition known_operator (operator : string) : bool :=
  existsb (String.eqb operator)
          ["$gt"; "$gte"; "$lt"; "$lte"; "$ne"; "$in"; "$nin"; "$regex"].

(** The file of a collection holds an array, or is blank or missing, in
    which case [readJSON] starts the collection as the empty array. *)
Definition holds_array (fs : store) (filePath : string) : bool :=
  match fs !! filePath with
  | Some (Json (JArr _)) | Some Blank | None => true
  | _ => false
  end.

(** A model over a schema without fields, and a store whose collection
    holds one record. *)
Definition users : Model.t :=
  {| Model.name := "User";
     Model.schema := {| Schema.definition := []; Schema._paths := [];
                        Schema.pre_save := None; Schema.post_save := None |};
     Model.collectionPath := "db/User.json" |}.

Definition one_user : store :=
  {[ "db/User.json" := Json (JArr [JObj [("_id", JStr "a")]]) ]}.

Definition user_a : Document.t :=
  {| Document._doc := [("_id", VStr "a")]; Document._id := VStr "a";
     Document.isNew := true |}.

(** A record whose array sits one level down, at [a.b]. *)
Definition nested_record : value :=
  VObj [("a", VObj [("b", VArr [VNum (num_of_Z 1); VNum (num_of_Z 2)])]);
        ("c", VStr "x")].

(** A record with a tag and a number, and a grouping that collects the
    numbers per tag with [$push]. *)
Definition tagged_record : value :=
  VObj [("tag", VStr "t"); ("x", VNum (num_of_Z 1))].

Definition push_grouping : props :=
  [("_id", VStr "$tag"); ("xs", VObj [("$push", VStr "$x")])].

(** A validator is synchronous on a value when calling it returns what is
    no thenable, or throws. *)
Definition synchronous (value context : value) (v : SchemaType.validator)
    : bool :=
  match SchemaType.v_validator v context value with
  | SchemaType.Thenable _ _ _ => false
  | _ => true
  end.

(** A synchronous validator fails when it returns [false] or throws. *)
Definition fails (value context : value) (v : SchemaType.validator) : bool :=
  match SchemaType.v_validator v context value with
  | SchemaType.Returns result => strict_eq result (VBool false)
  | SchemaType.Throws => true
  | SchemaType.Thenable _ _ _ => false
  end.

(** The message an error for the validator carries:
    [validator.message || `Validation failed for path ...`]. *)
Definition message_of (st : SchemaType.t) (v : SchemaType.validator)
    : string :=
  if String.eqb (SchemaType.v_message v) EmptyString
  then SchemaType.default_message (SchemaType.path st)
  else SchemaType.v_message v.

(** What [fn] is to be told: null, or the message of the first validator,
    in registration order, that fails. *)
Definition first_failure (st : SchemaType.t) (value context : value)
    : option string :=
  message_of st <$> List.find (fails value context) (SchemaType.validators st).

(** The schema types the constructor and the methods [required],
    [validate] and [set] build. *)
Inductive built : SchemaType.t -> Prop :=
| built_new (p : string) (o : SchemaType.options) :
    built (SchemaType.new p o)
| built_required (r : value) (st : SchemaType.t) :
    built st -> built (SchemaType.set_required r st)
| built_validate (obj : SchemaType.validate_arg) (st : SchemaType.t) :
    built st -> built (SchemaType.validate obj st)
| built_set (fn : value -> res value) (st : SchemaType.t) :
    built st -> built (SchemaType.set fn st).

(** A required field with a validator of its own that accepts nothing. *)
Definition strict_name : SchemaType.t :=
  SchemaType.new "name"
    {| SchemaType.o_required := VBool true;
       SchemaType.o_validate :=
         SchemaType.ArgObject (Some (fun _ _ => SchemaType.Returns (VBool false)))
                              "name is never good enough";
       SchemaType.o_set := None |}.

(** The field has no default in the parsed definition. *)
Definition defaultless (schema : Schema.t) (path : string) : Prop :=
  forall fd, In (path, fd) (Schema.definition schema) ->
             Model.default_defined (Schema.fd_default fd) = false.

(** What the setters of a field make of a value: each is applied to what
    the one before has returned, and the first that throws ends it. *)
Definition apply_setters (setters : list (value -> res value)) (v : value)
    : res value :=
  fold_left (fun acc setter => acc ≫= setter) setters (Ok v).

(** The error strings of a field whose validators have answered at once:
    the message of the first that failed, or none. *)
Definition one_error (failure : option string) : list string :=
  match failure with
  | Some message => [message]
  | None => []
  end.

(** No field of the schema is named like a member of [Object.prototype]. *)
Definition ordinary_names (schema : Schema.t) : bool :=
  forallb ordinary (map fst (Schema.definition schema)) &&
  forallb ordinary (map fst (Schema._paths schema)).

(** The schema is the one the constructor builds from the entries, with
    any hooks registered afterwards. *)
Definition constructed (schema : Schema.t)
    (entries : list (string * Schema.declared)) : Prop :=
  Schema.definition schema = Schema.definition (Schema.new entries) /\
  Schema._paths schema = Schema._paths (Schema.new entries).

(** A definition with the required field [name] and a field [code] whose
    default is a function that throws, and a model over its schema. *)
Definition coded_entries : list (string * Schema.declared) :=
  [("name", {| Schema.d_field :=
                 {| Schema.fd_type_is_Date := false;
                    Schema.fd_default := Schema.NoDefault |};
               Schema.d_options :=
                 {| SchemaType.o_required := VBool true;
                    SchemaType.o_validate := SchemaType.ArgNone;
                    SchemaType.o_set := None |} |});
   ("code", {| Schema.d_field :=
                 {| Schema.fd_type_is_Date := false;
                    Schema.fd_default :=
                      Schema.DefaultProducer (fun _ => Throw "no code") |};
               Schema.d_options :=
                 {| SchemaType.o_required := VUndef;
                    SchemaType.o_validate := SchemaType.ArgNone;
                    SchemaType.o_set := None |} |})].

Definition coded : Model.t :=
  {| Model.name := "Coded"; Model.schema := Schema.new coded_entries;
     Model.collectionPath := "db/Coded.json" |}.

(** A definition with the required field [name], with a setter that
    throws on the empty string and a validator that wants the name to be
    other than ["root"]. *)
Definition name_options : SchemaType.options :=
  {| SchemaType.o_required := VBool true;
     SchemaType.o_validate :=
       SchemaType.ArgObject
         (Some (fun _ v =>
                  SchemaType.Returns
                    (VBool (negb (strict_eq v (VStr "root"))))))
         "name is taken";
     SchemaType.o_set :=
       Some (fun v => if strict_eq v (VStr EmptyString)
                      then Throw "empty name" else Ok v) |}.

Definition named_entries : list (string * Schema.declared) :=
  [("name", {| Schema.d_field :=
                 {| Schema.fd_type_is_Date := false;
                    Schema.fd_default := Schema.NoDefault |};
               Schema.d_options := name_options |})].

Definition named_people : Model.t :=
  {| Model.name := "Named"; Model.schema := Schema.new named_entries;
     Model.collectionPath := "db/Named.json" |}.

(** A schema with the required field [name] and a field [age] that
    defaults to 0, and a model over it. *)
Definition person_schema : Schema.t :=
  {| Schema.definition :=
       [("name", {| Schema.fd_type_is_Date := false;
                    Schema.fd_default := Schema.NoDefault |});
        ("age", {| Schema.fd_type_is_Date := false;
                   Schema.fd_default := Schema.DefaultValue (VNum (num_of_Z 0)) |})];
     Schema._paths :=
       [("name", strict_name);
        ("age", SchemaType.new "age"
                  {| SchemaType.o_required := VUndef;
                     SchemaType.o_validate := SchemaType.ArgNone;
                     SchemaType.o_set := None |})];
     Schema.pre_save := None;
     Schema.post_save := None |}.

Definition persons : Model.t :=
  {| Model.name := "Person"; Model.schema := person_schema;
     Model.collectionPath := "db/Person.json" |}.

(** The names of the properties of an object are distinct. *)
Fixpoint distinct_keys (ks : list string) : bool :=
  match ks with
  | [] => true
  | k :: r => negb (existsb (String.eqb k) r) && distinct_keys r
  end.

(** A Date whose timestamp has a year of four digits. *)
Definition four_digit_date (d : jsdate) : bool :=
  match d with
  | InvalidDate => false
  | Utc yr mo dy hh mi ss ms =>
      ((0 <=? yr) && (yr <=? 9999))%Z && valid_fields yr mo dy hh mi ss ms
  end.

(** The values the file format keeps as they are: null, booleans, finite
    numbers, strings that do not have the shape of a timestamp, Dates of a
    four-digit year, and arrays and objects of such values. *)
Fixpoint storable (v : value) : bool :=
  match v with
  | VUndef => false
  | VNull | VBool _ => true
  | VNum n => num_is_finite n
  | VStr s => negb (iso_like s)
  | VDate d => four_digit_date d
  | VArr xs => forallb storable xs
  | VObj ps =>
      distinct_keys (map fst ps) && forallb (fun kv => storable kv.2) ps
  end.

(** The loops of [stringify] over the elements of an array and over the
    properties of an object. *)
Fixpoint stringify_elems (l : list value) : res (list json) :=
  match l with
  | [] => Ok []
  | x :: r => j ← stringify x; js ← stringify_elems r; Ok (default JNull j :: js)
  end.

Fixpoint stringify_fields (l : props) : res (list (string * json)) :=
  match l with
  | [] => Ok []
  | (k, x) :: r =>
      j ← stringify x; js ← stringify_fields r;
      Ok (match j with Some j' => (k, j') :: js | None => js end)
  end.

(** A record with a note that reads like a timestamp, and one with the
    time it was seen at. *)
Definition noted : value :=
  VArr [VObj [("note", VStr "2020-01-01T00:00:00.000Z")]].

Definition seen : list value :=
  [VObj [("_id", VStr "65a000000000000000000001");
         ("seenAt", VDate (Utc 2024 2 29 23 59 59 999));
         ("tags", VArr [VStr "a"; VNull; VBool true; VNum (num_of_Z 7)])]].

(** *** The groups of [_group], as a function of the records

    [slot ks k] is the position of the first key of [ks] that the [Map]
    takes for equal to [k]; [keys_seen] lists the keys in the order in
    which the loop first meets them; [members] are the records filed at a
    position, in their order; [accumulate] runs the accumulators of one
    group over its records. *)
Fixpoint slot (ks : list Aggregate.gkey) (k : Aggregate.gkey) : option nat :=
  match ks with
  | [] => None
  | k0 :: r => if Aggregate.key_eqb k0 k then Some 0 else option_map S (slot r k)
  end.

Definition at_slot (ks : list Aggregate.gkey) (k : Aggregate.gkey) (p : nat)
    : bool :=
  match slot ks k with
  | Some q => Nat.eqb q p
  | None => false
  end.

Section groups.
Context {rt : Runtime}.
Variable grouping : props.

Definition key_of (idoc : nat * value) : Aggregate.gkey :=
  Aggregate.group_key grouping idoc.1 idoc.2.

Definition see_key (ks : list Aggregate.gkey) (idoc : nat * value)
    : list Aggregate.gkey :=
  match slot ks (key_of idoc) with
  | Some _ => ks
  | None => ks ++ [key_of idoc]
  end.

Definition keys_seen (idocs : list (nat * value)) : list Aggregate.gkey :=
  fold_left see_key idocs [].

Definition members (idocs : list (nat * value)) (ks : list Aggregate.gkey)
    (p : nat) : list (nat * value) :=
  List.filter (fun idoc => at_slot ks (key_of idoc) p) idocs.

Definition accumulate (idocs : list (nat * value)) : res props :=
  fold_left (fun group idoc => group ≫= Aggregate.update_group grouping idoc.2)
            idocs (Aggregate.init_group grouping).
End groups.

(** The records of [docs] with their positions, as the loop of [_group]
    meets them. *)
Definition indexed (docs : list value) : list (nat * value) :=
  imap (fun i doc => (i, doc)) docs.

(** Three records tagged with the string ['null'], with null and with the
    string ['null'] again, counted per tag. *)
Definition null_tagged : list value :=
  [VObj [("tag", VStr "null")]; VObj [("tag", VNull)];
   VObj [("tag", VStr "null")]].

Definition count_by_tag : props :=
  [("_id", VStr "$tag"); ("n", VObj [("$sum", VNum (num_of_Z 1))])].

(** *** Identifiers of the stored records *)

(** The [_id] of every record of a sequence, in order. *)
Definition ids (docs : list value) : list value :=
  map (fun doc => get_own doc "_id") docs.

(** What [readJSON] returns for the collection of a model. *)
Definition stored {rt : Runtime} (m : Model.t) (fs : store) : res value :=
  (readJSON (Model.collectionPath m) fs).2.


(** The text of an [ObjectId]: 24 hexadecimal digits. *)
Definition is_hex (c : ascii) : bool :=
  let n := nat_of_ascii c in
  (Nat.leb 48 n && Nat.leb n 57) || (Nat.leb 97 n && Nat.leb n 102).

Definition is_objectid (s : string) : bool :=
  Nat.eqb (String.length s) 24 && forallb is_hex (list_ascii_of_string s).



(** A collection of two records. *)
Definition two_users : store :=
  {[ "db/User.json" :=
       Json (JArr [JObj [("_id", JStr "65a000000000000000000001")];
                   JObj [("_id", JStr "65a000000000000000000002")]]) ]}.

Definition first_id : value := VStr "65a000000000000000000001".
Definition second_id : value := VStr "65a000000000000000000002".
Definition new_year : jsdate := Utc 2024 1 1 0 0 0 0.

(** A grouping as an object literal gives it: the names are distinct and
    every accumulator is a value that has properties to look at, that is,
    neither null nor undefined. *)
Definition grouping_ok (grouping : props) : Prop :=
  List.NoDup (map fst grouping) /\
  Forall (fun fa => fa.1 <> "_id" -> nullish fa.2 = false) grouping.

(** Every [$avg] accumulator of the grouping has its running pair in the
    group. *)
Definition avg_ready (entries : props) (group : props) : Prop :=
  forall f spec,
    In (f, spec) entries -> f <> "_id" ->
    Aggregate.first_key spec = Ok (Some "$avg") ->
    exists ps, obj_get group f = VObj ps.


(** The file of a collection holds an array of objects, or is blank or
    missing. *)
Definition is_json_object (j : json) : bool :=
  match j with JObj _ => true | _ => false end.

Definition holds_records (fs : store) (filePath : string) : bool :=
  match fs !! filePath with
  | Some (Json (JArr js)) => forallb is_json_object js
  | Some Blank | None => true
  | _ => false
  end.

(** *** Grouping everything into one group *)

(** The key every record is filed under when the grouping has the literal
    null as [_id], and a grouping that counts the records. *)
Definition null_key : Aggregate.gkey :=
  {| Aggregate.k_value := VStr "null"; Aggregate.k_origin := None |}.

Definition count_all : props :=
  [("_id", VNull); ("n", VObj [("$sum", VNum (num_of_Z 1))])].

(** A validator answers with a promise on a value when calling it
    returns a thenable that calls no handler before [then] returns, does
    not throw, and calls one handler afterwards, once: what [then] of a
    native promise does. *)
Definition promised (value context : value) (v : SchemaType.validator)
    : bool :=
  match SchemaType.v_validator v context value with
  | SchemaType.Thenable [] false [_] => true
  | _ => false
  end.

(** A field with a validator that rejects everything at once and one that
    answers later. *)
Definition checked_email : SchemaType.t :=
  SchemaType.validate
    (SchemaType.ArgFunction
       (fun _ _ => SchemaType.Thenable [] false [SchemaType.Rejects]))
    (SchemaType.validate
       (SchemaType.ArgFunction (fun _ _ => SchemaType.Returns (VBool false)))
       (SchemaType.new "email"
          {| SchemaType.o_required := VUndef;
             SchemaType.o_validate := SchemaType.ArgNone;
             SchemaType.o_set := None |})).

(** *** Collections the file format keeps as they are *)

(** The collection of [m] holds the records [docs], in this order, and
    the file format keeps every one of them as it is. *)
Definition holds {rt : Runtime} (m : Model.t) (fs : store)
    (docs : list value) : Prop :=
  stored m fs = Ok (VArr docs) /\ forallb storable docs = true.

(** [_matchQuery] accepts the record; it comes to a decision on it, that
    is, it does not throw. *)
Definition matches {rt : Runtime} (conditions : props) (doc : value) : bool :=
  match Model._matchQuery doc conditions with
  | Ok true => true
  | _ => false
  end.

Definition decided {rt : Runtime} (conditions : props) (doc : value) : bool :=
  is_ok (Model._matchQuery doc conditions).

(** The record [_createOne] stores for the input it has defaulted,
    validated and run the pre-save hooks on. *)
Definition created (now : jsdate) (oid : string) (dd : props) : props :=
  obj_set "updatedAt" (VDate now)
    (obj_set "createdAt" (VDate now) (spread dd [("_id", VStr oid)])).

(** A hook that throws, a model whose schema runs it before saving and
    one whose schema runs it after saving. *)
Definition failing_hook : Schema.hook := fun _ => Throw "hook failed".

Definition guarded : Model.t :=
  {| Model.name := "User";
     Model.schema := {| Schema.definition := []; Schema._paths := [];
                        Schema.pre_save := Some [failing_hook];
                        Schema.post_save := None |};
     Model.collectionPath := "db/User.json" |}.

Definition audited : Model.t :=
  {| Model.name := "User";
     Model.schema := {| Schema.definition := []; Schema._paths := [];
                        Schema.pre_save := None;
                        Schema.post_save := Some [failing_hook] |};
     Model.collectionPath := "db/User.json" |}.

(** What the first loop of [_createOne] makes of the value of a field:
    a string in a field of type Date becomes the Date it denotes. *)
Definition as_date {rt : Runtime} (fd : Schema.fielddef) (v : value) : value :=
  match v with
  | VStr s => if Schema.fd_type_is_Date fd then VDate (new_Date s) else v
  | _ => v
  end.

(** A model with a field [role] that defaults to ["user"] and a field
    [since] of type Date. *)
Definition members_schema : Schema.t :=
  {| Schema.definition :=
       [("role", {| Schema.fd_type_is_Date := false;
                    Schema.fd_default := Schema.DefaultValue (VStr "user") |});
        ("since", {| Schema.fd_type_is_Date := true;
                     Schema.fd_default := Schema.NoDefault |})];
     Schema._paths := [];
     Schema.pre_save := None;
     Schema.post_save := None |}.

Definition member_model : Model.t :=
  {| Model.name := "Member"; Model.schema := members_schema;
     Model.collectionPath := "db/Member.json" |}.

(** *** Sorting *)






(** Three records with an age. *)
Definition aged (n : Z) : value := VObj [("age", VNum (num_of_Z n))].


(** *** Documents in the store of objects *)

(** The loops of [alloc] over the elements of an array and over the
    properties of an object. *)
Fixpoint alloc_fields (l : props) (h : Unwind.heap)
    : Unwind.heap * list (string * Unwind.hval) :=
  match l with
  | [] => (h, [])
  | (k, x) :: r =>
      let '(h1, y) := Unwind.alloc x h in
      let '(h2, ys) := alloc_fields r h1 in (h2, (k, y) :: ys)
  end.

(** The least fuel [readback] needs to follow a value. *)
Definition ref_bound (r : Unwind.hval) : nat :=
  match r with
  | Unwind.HRef l => S l
  | _ => 0
  end.

(** The value [r] of the store [h] stands for the document [v]: a
    reference leads to a cell whose contents stand for the parts of [v],
    and the cells of the parts come before the cell itself. *)
Fixpoint repr (h : Unwind.heap) (r : Unwind.hval) (v : value) {struct v}
    : Prop :=
  match v with
  | VUndef => r = Unwind.HUndef
  | VNull => r = Unwind.HNull
  | VBool b => r = Unwind.HBool b
  | VNum n => r = Unwind.HNum n
  | VStr s => r = Unwind.HStr s
  | VDate d => r = Unwind.HDate d
  | VArr vs =>
      exists l xs,
        r = Unwind.HRef l /\ h !! l = Some (Unwind.CArr xs) /\
        (fix all2 (vs : list value) (xs : list Unwind.hval) : Prop :=
           match vs, xs with
           | [], [] => True
           | v :: vs', x :: xs' =>
               (ref_bound x <= l /\ repr h x v) /\ all2 vs' xs'
           | _, _ => False
           end) vs xs
  | VObj ps =>
      exists l hps,
        r = Unwind.HRef l /\ h !! l = Some (Unwind.CObj hps) /\
        (fix all2 (ps : props) (hps : list (string * Unwind.hval)) : Prop :=
           match ps, hps with
           | [], [] => True
           | (k, v) :: ps', (k', x) :: hps' =>
               (k' = k /\ ref_bound x <= l /\ repr h x v) /\ all2 ps' hps'
           | _, _ => False
           end) ps hps
  end.

(** The contents of a cell stand for the parts of a document. *)
Definition repr_elem (h : Unwind.heap) (l : nat) (x : Unwind.hval)
    (v : value) : Prop :=
  ref_bound x <= l /\ repr h x v.

Definition repr_prop (h : Unwind.heap) (l : nat)
    (hp : string * Unwind.hval) (p : string * value) : Prop :=
  hp.1 = p.1 /\ ref_bound hp.2 <= l /\ repr h hp.2 p.2.

(** A path without a dot names a property of the record itself. *)
Definition no_dot (k : string) : bool :=
  forallb (fun c => negb (Ascii.eqb c ".")) (list_ascii_of_string k).

(** A record as [JSON.parse] gives it: an object, with distinct property
    names. *)
Definition is_record (d : value) : bool :=
  match d with
  | VObj ps => distinct_keys (map fst ps)
  | _ => false
  end.

(** One record per element of the array at the property [k], each with
    the element in the place of the array; the record itself when there
    is no array at [k]. *)
Definition unwound (k : string) (doc : value) : list value :=
  match doc with
  | VObj ps =>
      match obj_get ps k with
      | VArr items => map (fun item => VObj (obj_set k item ps)) items
      | _ => [doc]
      end
  | _ => [doc]
  end.

(** Two records with tags, one of them without any. *)
Definition tagged_posts : list value :=
  [VObj [("title", VStr "a"); ("tags", VArr [VStr "x"; VStr "y"])];
   VObj [("title", VStr "b"); ("tags", VArr [])];
   VObj [("title", VStr "c")]].

(** ** Query.js: the methods that write a condition on the query itself *)

Module Conditions.

(** [this.conditions[path] = criterion; return this] *)
Definition set_condition (q : Query.t) (path : string) (criterion : value)
    : Query.t :=
  {| Query.model := Query.model q;
     Query.conditions := obj_assign path criterion (Query.conditions q);
     Query._sort := Query._sort q;
     Query._limit := Query._limit q;
     Query._skip := Query._skip q |}.

(** [all(path, values)], [elemMatch(path, criteria)] and
    [mod(path, divisor, remainder)] *)
Definition all_ (q : Query.t) (path : string) (values : value) : Query.t :=
  set_condition q path (VObj [("$all", values)]).

Definition elemMatch (q : Query.t) (path : string) (criteria : value)
    : Query.t :=
  set_condition q path (VObj [("$elemMatch", criteria)]).

Definition mod_ (q : Query.t) (path : string) (divisor remainder : value)
    : Query.t :=
  set_condition q path (VObj [("$mod", VArr [divisor; remainder])]).

(** What [...conditions] spreads into the arguments of [push]: the
    elements of an array, the characters of a string; anything else the
    model knows is not iterable. *)
Definition spread_elements (conditions : value) : res (list value) :=
  match conditions with
  | VArr xs => Ok xs
  | VStr s =>
      Ok (map (fun c => VStr (String c EmptyString)) (list_ascii_of_string s))
  | _ => Throw "TypeError"
  end.

(** The body [and] and [nor] share, for the key [$and] or [$nor]:
    [if (!this.conditions[key]) this.conditions[key] = [];
     this.conditions[key].push(...conditions)]. *)
Definition push_conditions (key : string) (q : Query.t) (conditions : value)
    : res Query.t :=
  let current :=
    if truthy (obj_get (Query.conditions q) key)
    then obj_get (Query.conditions q) key else VArr [] in
  match current with
  | VArr old =>
      new ← spread_elements conditions;
      Ok (set_condition q key (VArr (old ++ new)))
  | _ => Throw "TypeError"
  end.

Definition and_ (q : Query.t) (conditions : value) : res Query.t :=
  push_conditions "$and" q conditions.

Definition nor (q : Query.t) (conditions : value) : res Query.t :=
  push_conditions "$nor" q conditions.

End Conditions.

(** ** Aggregate.js: the pipeline

    The stage [$unwind] writes through objects that records share and is
    embedded over the store of objects, in [Unwind].  The pipelines here
    are those without it: their stages build new records and change none,
    so a record can be held as the tree it is. *)

Module Pipeline.

(** A stage by the first key of its object: [{ $match: criteria }],
    [{ $group: grouping }], [{ $sort: sorting }], [{ $limit: n }],
    [{ $skip: n }], or an object with another first key or none, which
    the [switch] of [exec] has no case for. *)
Inductive stage : Type :=
| Match (criteria : value)
| Group (grouping : value)
| Sort (sorting : value)
| Limit (n : value)
| Skip (n : value)
| Other (operator : option string) (operation : value).

(** [Object.entries(o)]: a TypeError on null and undefined. *)
Definition entries (o : value) : res props :=
  if nullish o then Throw "TypeError" else Ok (own_props o).

Section pipeline.
Context {rt : Runtime}.

(** The comparator of [_sort] *)
Fixpoint compare_fields (sorting : props) (a b : value) : number :=
  match sorting with
  | [] => Fin 0
  | (field, order) :: rest =>
      let aVal := Aggregate._getFieldValue a field in
      let bVal := Aggregate._getFieldValue b field in
      if js_lt aVal bVal then num_neg (to_number order)
      else if js_gt aVal bVal then to_number order
      else compare_fields rest a b
  end.

(** [_sort(docs, sorting)]: the copy [[...docs]], sorted. *)
Definition _sort (docs : list value) (sorting : value)
    : res (list value) :=
  Query.sort_docs
    (fun a b => fields ← entries sorting; Ok (compare_fields fields a b))
    docs.

(** One turn of the loop of [exec] *)
Definition run_stage (docs : list value) (s : stage) : res (list value) :=
  match s with
  | Match criteria =>
      Model.filterM
        (fun doc => query ← entries criteria; Model._matchQuery doc query)
        docs
  | Group grouping =>
      match docs with
      | [] => Ok []
      | _ => g ← entries grouping; Aggregate._group docs g
      end
  | Sort sorting => _sort docs sorting
  | Limit n => Ok (array_slice docs (VNum (Fin 0)) n)
  | Skip n => Ok (array_slice docs n VUndef)
  | Other _ _ => Ok docs
  end.

Definition run (pipeline : list stage) (docs : list value)
    : res (list value) :=
  fold_left (fun acc s => acc ≫= fun docs => run_stage docs s)
            pipeline (Ok docs).

(** [exec()] *)
Definition exec (m : Model.t) (pipeline : list stage) : io (list value) :=
  let* docs := Model._find m [] in
  io_lift (run pipeline docs).
End pipeline.

End Pipeline.

(** ** Document.js: [get], [set], [save] and the modified paths

    A document here is what the constructor stores together with the set
    [_modifiedPaths], in insertion order, the set [_snapshot], and the
    keys of the record the constructor has defined an accessor for.
    [_populated] stays empty unless a query populates the document, which
    is not embedded, and the schema has neither virtuals nor methods. *)

Module Changes.

Record t : Type := {
  doc : Document.t;
  _modifiedPaths : list string;
  _snapshot : option (list string);
  accessors : list string
}.

(** The names that are [in] the document when the constructor comes to
    the keys of the record: the properties it has assigned by then, the
    methods of the class, and what every object inherits. *)
Definition assigned_names : list string :=
  ["_doc"; "_schema"; "_model"; "_modifiedPaths"; "_populated"; "_parent";
   "_isNew"; "_snapshot"; "isNew"; "errors"; "id"; "_id"].

Definition method_names : list string :=
  ["constructor"; "get"; "set"; "save"; "toObject"; "toJSON";
   "markModified"; "$assertPopulated"; "$createModifiedPathsSnapshot";
   "$restoreModifiedPathsSnapshot"; "$getAllSubdocs"; "$getPopulatedDocs";
   "$init"; "$isDefault"; "getChanges"; "isDirectSelected"; "isSelected";
   "parent"; "replaceOne"].

Definition in_document (key : string) : bool :=
  existsb (String.eqb key)
          (assigned_names ++ method_names ++ inherited_names).

(** The constructor starts with [new Set()] and no snapshot, and defines
    an accessor for every key of the record that is not [in this]. *)
Definition of_document (d : Document.t) : t :=
  {| doc := d; _modifiedPaths := []; _snapshot := None;
     accessors := List.filter (fun key => negb (in_document key))
                              (map fst (Document._doc d)) |}.

(** [set.add(p)] *)
Definition set_add (p : string) (s : list string) : list string :=
  if existsb (String.eqb p) s then s else s ++ [p].

(** [get(path)] *)
Definition get (d : t) (path : string) : value :=
  obj_get (Document._doc (doc d)) path.

(** [set(path, value)] *)
Definition set (d : t) (path : string) (value : value) : t :=
  {| doc := {| Document._doc :=
                 obj_assign path value (Document._doc (doc d));
               Document._id := Document._id (doc d);
               Document.isNew := Document.isNew (doc d) |};
     _modifiedPaths := set_add path (_modifiedPaths d);
     _snapshot := _snapshot d;
     accessors := accessors d |}.

(** [document[key] = value] from outside, for a key that is not
    [in_document]: through the setter of the accessor, which does what
    [set] does, when the record had the key at construction; otherwise
    the assignment makes a property of the document object, and neither
    [_doc] nor [_modifiedPaths] sees it. *)
Definition assign (d : t) (key : string) (value : value) : t :=
  if existsb (String.eqb key) (accessors d) then set d key value else d.

(** [markModified(path)] *)
Definition markModified (d : t) (path : string) : t :=
  {| doc := doc d; _modifiedPaths := set_add path (_modifiedPaths d);
     _snapshot := _snapshot d; accessors := accessors d |}.

(** [$createModifiedPathsSnapshot()] and
    [$restoreModifiedPathsSnapshot()] *)
Definition createSnapshot (d : t) : t :=
  {| doc := doc d; _modifiedPaths := _modifiedPaths d;
     _snapshot := Some (_modifiedPaths d); accessors := accessors d |}.

Definition restoreSnapshot (d : t) : t :=
  match _snapshot d with
  | Some paths =>
      {| doc := doc d; _modifiedPaths := paths;
         _snapshot := _snapshot d; accessors := accessors d |}
  | None => d
  end.

(** [getChanges()] *)
Definition getChanges (d : t) : props :=
  fold_left (fun changes path => obj_assign path (get d path) changes)
            (_modifiedPaths d) [].

(** [toObject()] of a document without populated paths *)
Definition toObject (d : t) : props :=
  spread (Document._doc (doc d)) [].

(** [$init(obj)]: [Object.assign] skips a source that is null or
    undefined. *)
Definition _init (d : t) (obj : value) : t :=
  {| doc := {| Document._doc :=
                 assign_all (own_props obj) (Document._doc (doc d));
               Document._id := Document._id (doc d);
               Document.isNew := Document.isNew (doc d) |};
     _modifiedPaths := [];
     _snapshot := _snapshot d;
     accessors := accessors d |}.

(** A call on a document, and a sequence of calls. *)
Inductive call : Type :=
| Set_ (path : string) (value : value)
| MarkModified (path : string)
| Assign (key : string) (value : value)
| Init (obj : value)
| CreateSnapshot
| RestoreSnapshot.

Definition step (d : t) (c : call) : t :=
  match c with
  | Set_ path value => set d path value
  | MarkModified path => markModified d path
  | Assign key value => assign d key value
  | Init obj => _init d obj
  | CreateSnapshot => createSnapshot d
  | RestoreSnapshot => restoreSnapshot d
  end.

Definition run (calls : list call) (d : t) : t := fold_left step calls d.

Section save.
Context {rt : Runtime}.

(** What a hook of the schema does when it is called on a document
    instead of a record. *)
Variable on_document : Schema.hook -> t -> res t.

Definition run_hooks (hooks : option (list Schema.hook)) (this : t)
    : res t :=
  match hooks with
  | Some hs => fold_left (fun acc h => acc ≫= on_document h) hs (Ok this)
  | None => Ok this
  end.

(** [save()]: the result of [updateOne], and the document afterwards. *)
Definition save (m : Model.t) (now : jsdate) (d : t)
    : io (Model.update_result * t) :=
  let* d := io_lift (run_hooks (Schema.pre_save (Model.schema m)) d) in
  let* result :=
    Model.updateOne m now [("_id", Document._id (doc d))]
                    (Document._doc (doc d)) in
  let* d := io_lift (run_hooks (Schema.post_save (Model.schema m)) d) in
  io_ret (result, d).
End save.

End Changes.

(** The document of a stored record. *)
Definition document_of (ps : props) : Document.t :=
  {| Document._doc := spread ps []; Document._id := obj_get ps "_id";
     Document.isNew := true |}.

(** *** Calls that change a document *)

(** The path a call names as modified, on a document with the accessors
    [acc]. *)
Definition names (acc : list string) (c : Changes.call) : option string :=
  match c with
  | Changes.Set_ path _ | Changes.MarkModified path => Some path
  | Changes.Assign key _ =>
      if existsb (String.eqb key) acc then Some key else None
  | _ => None
  end.

Definition is_init (c : Changes.call) : bool :=
  match c with Changes.Init _ => true | _ => false end.

(** The calls made after the last [$init] *)
Definition since_init (calls : list Changes.call) : list Changes.call :=
  fold_left (fun acc c => if is_init c then [] else acc ++ [c]) calls [].

(** A call since the last [$init] has named the path. *)
Definition named (acc : list string) (p : string)
    (calls : list Changes.call) : bool :=
  existsb (fun c => match names acc c with
                    | Some q => String.eqb p q
                    | None => false
                    end) (since_init calls).

(** The calls the statement is made for: nothing is assigned at the name
    [__proto__], an assignment from outside is to a key that is not
    [in_document], and no snapshot is restored. *)
Definition plain (c : Changes.call) : bool :=
  match c with
  | Changes.Set_ path _ => negb (String.eqb path "__proto__")
  | Changes.Assign key _ => negb (Changes.in_document key)
  | Changes.Init obj => negb (has_key "__proto__" (own_props obj))
  | Changes.RestoreSnapshot => false
  | _ => true
  end.

(** Calls between a snapshot and its restoration that leave the snapshot
    alone: no other snapshot is taken, and an assignment from outside is
    to a key that is not [in_document]. *)
Definition keeps_snapshot (c : Changes.call) : bool :=
  match c with
  | Changes.CreateSnapshot => false
  | Changes.Assign key _ => negb (Changes.in_document key)
  | _ => true
  end.

(** A record with a name, made a document. *)
Definition named_ada : Changes.t :=
  Changes.of_document
    {| Document._doc := [("_id", VStr "65a000000000000000000001");
                         ("name", VStr "Ada")];
       Document._id := VStr "65a000000000000000000001";
       Document.isNew := true |}.

(** *** What [Schema.validate] accepts *)

(** The field passes: when the record has nothing there the field is not
    required; otherwise the setters run through and no validator fails on
    what they give. *)
Definition path_ok (data : props) (entry : string * SchemaType.t) : bool :=
  let '(path, st) := entry in
  if nullish (obj_get data path) then negb (SchemaType.required st)
  else
    match SchemaType.cast st (obj_get data path) with
    | Ok v =>
        negb (existsb (fails v (VObj data)) (SchemaType.validators st))
    | Throw _ => false
    end.

(** Every validator of the field answers at once on what the setters
    give. *)
Definition answers_at_once (data : props) (entry : string * SchemaType.t)
    : bool :=
  let '(path, st) := entry in
  match SchemaType.cast st (obj_get data path) with
  | Ok v => forallb (synchronous v (VObj data)) (SchemaType.validators st)
  | Throw _ => true
  end.

(** *** Sums, bounds and means of a group *)

(** The record holds the integer [z] at the path. *)
Definition holds_integer (path : string) (d : value) (z : Z) : Prop :=
  Aggregate._getFieldValue d path = VNum (num_of_Z z).

Definition sum_of (zs : list Z) : Z := fold_left Z.add zs 0%Z.

(** Integers that doubles add without rounding: each within [bound] of
    zero, and so few that no sum of them leaves the range up to [2^53], in
    which every integer is a double. *)
Definition exactly_summed (bound : Z) (zs : list Z) : bool :=
  forallb (fun z => (- bound <=? z)%Z && (z <=? bound)%Z) zs &&
  (Z.of_nat (length zs) * bound <=? 2 ^ 53)%Z.

(** A grouping of all records into one group, with the four accumulators
    on the same path, and the group they make. *)
Definition statistics (path : string) : props :=
  [("_id", VNull);
   ("total", VObj [("$sum", VStr (String "$" path))]);
   ("low", VObj [("$min", VStr (String "$" path))]);
   ("high", VObj [("$max", VStr (String "$" path))]);
   ("mean", VObj [("$avg", VStr (String "$" path))])].

Definition statistics_group (s lo hi a : number) (n : nat) : props :=
  [("total", VNum s); ("low", VNum lo); ("high", VNum hi);
   ("mean", VObj [("sum", VNum s); ("count", VNum (num_of_nat n));
                  ("value", VNum a)])].

(** * Properties *)

Import Query.

(** ** Shared lemmas *)

Ltac res_simpl :=
  repeat (unfold mbind, res_bind, fmap, res_fmap, mret, res_ret in *;
          simpl in *).

Lemma NoDup_fst_functional {A B} (l : list (A * B)) (a : A) (b b' : B) :
  List.NoDup (map fst l) -> In (a, b) l -> In (a, b') l -> b = b'.
Proof.
  induction l as [|[a0 b0] l IH]; simpl; intros Hnd H1 H2; [contradiction|].
  apply List.NoDup_cons_iff in Hnd as [Hn Hnd].
  destruct H1 as [H1|H1], H2 as [H2|H2].
  - congruence.
  - injection H1 as -> ->. exfalso. apply Hn.
    apply (in_map fst) in H2. exact H2.
  - injection H2 as -> ->. exfalso. apply Hn.
    apply (in_map fst) in H1. exact H1.
  - exact (IH Hnd H1 H2).
Qed.

Lemma res_bind_ok {A B} (m : res A) (f : A -> res B) (b : B) :
  m ≫= f = Ok b -> exists a, m = Ok a /\ f a = Ok b.
Proof. destruct m as [a|e]; simpl; [eauto | discriminate]. Qed.

Lemma mapM_res_cons {A B} (f : A -> res B) (x : A) (xs : list A) :
  mapM f (x :: xs) = y ← f x; ys ← mapM f xs; Ok (y :: ys).
Proof. reflexivity. Qed.

Lemma mapM_res_take {A B} (f : A -> res B) (n : nat) (xs : list A) (ys : list B) :
  mapM f xs = Ok ys -> mapM f (take n xs) = Ok (take n ys).
Proof.
  revert n ys. induction xs as [|x xs IH]; intros n ys H.
  - injection H as <-. destruct n; reflexivity.
  - rewrite mapM_res_cons in H.
    apply res_bind_ok in H as (y & Hy & H).
    apply res_bind_ok in H as (ys' & Hys & H). injection H as <-.
    destruct n as [|n]; [reflexivity|].
    simpl take. rewrite mapM_res_cons, Hy. simpl.
    rewrite (IH n ys' Hys). reflexivity.
Qed.

Lemma mapM_res_drop {A B} (f : A -> res B) (n : nat) (xs : list A) (ys : list B) :
  mapM f xs = Ok ys -> mapM f (drop n xs) = Ok (drop n ys).
Proof.
  revert n ys. induction xs as [|x xs IH]; intros n ys H.
  - injection H as <-. destruct n; reflexivity.
  - destruct n as [|n]; [exact H|].
    rewrite mapM_res_cons in H.
    apply res_bind_ok in H as (y & Hy & H).
    apply res_bind_ok in H as (ys' & Hys & H). injection H as <-.
    simpl. apply IH, Hys.
Qed.

Lemma mapM_res_length {A B} (f : A -> res B) (xs : list A) (ys : list B) :
  mapM f xs = Ok ys -> length ys = length xs.
Proof.
  revert ys. induction xs as [|x xs IH]; intros ys H.
  - injection H as <-. reflexivity.
  - rewrite mapM_res_cons in H.
    apply res_bind_ok in H as (y & Hy & H).
    apply res_bind_ok in H as (ys' & Hys & H). injection H as <-.
    simpl. f_equal. apply IH, Hys.
Qed.

Section with_runtime.
Context {rt : Runtime}.

Lemma to_number_num (n : number) : to_number (VNum n) = n.
Proof. reflexivity. Qed.

Lemma Qeq_bool_inject_Z_0 (z : Z) : Qeq_bool (inject_Z z) 0 = (z =? 0)%Z.
Proof.
unfold Qeq_bool, inject_Z. simpl. rewrite Z.mul_1_r.
destruct z; reflexivity.
Qed.

Lemma truthy_of_Z (z : Z) : truthy (VNum (num_of_Z z)) = negb (z =? 0)%Z.
Proof. unfold num_of_Z. simpl. rewrite Qeq_bool_inject_Z_0. reflexivity. Qed.

Lemma to_integer_of_Z (z : Z) : to_integer (num_of_Z z) = Int z.
Proof. unfold num_of_Z, inject_Z. simpl. rewrite Z.quot_1_r. reflexivity. Qed.

(** [xs.slice(s)] drops [s] elements, whatever the length. *)
Lemma array_slice_from {A} (xs : list A) (s : Z) :
(0 <= s)%Z ->
array_slice xs (VNum (num_of_Z s)) VUndef = drop (Z.to_nat s) xs.
Proof.
intros Hs. unfold array_slice.
rewrite to_number_num, to_integer_of_Z. simpl rel_index.
destruct (Z.ltb_spec s 0) as [?|_]; [lia|].
destruct (Z.le_gt_cases s (Z.of_nat (length xs))) as [Hle|Hgt].
- rewrite Z.min_l by lia.
  rewrite take_ge; [reflexivity|]. rewrite length_drop. lia.
- rewrite Z.min_r by lia. rewrite Nat2Z.id.
  rewrite !drop_ge by lia. destruct (Z.to_nat _); reflexivity.
Qed.

(** [xs.slice(0, l)] keeps [l] elements, whatever the length. *)
Lemma array_slice_upto {A} (xs : list A) (l : Z) :
(0 <= l)%Z ->
array_slice xs (VNum (Fin 0)) (VNum (num_of_Z l)) = take (Z.to_nat l) xs.
Proof.
intros Hl. unfold array_slice.
rewrite !to_number_num, to_integer_of_Z.
change (to_integer (Fin 0)) with (Int 0). simpl rel_index.
destruct (Z.ltb_spec l 0) as [?|_]; [lia|].
rewrite (Z.min_l 0 (Z.of_nat (length xs))) by lia. rewrite Z.sub_0_r. simpl drop.
destruct (Z.le_gt_cases l (Z.of_nat (length xs))) as [Hle|Hgt].
- rewrite Z.min_l by lia. reflexivity.
- rewrite Z.min_r by lia. rewrite Nat2Z.id.
  change (drop (Z.to_nat 0) xs) with xs.
  rewrite (take_ge xs (length xs)) by lia.
  rewrite (take_ge xs (Z.to_nat l)) by lia. reflexivity.
Qed.

End with_runtime.

(** ** [_matchQuery] *)

Section matching.
Context {rt : Runtime}.

Lemma every_true_iff {A} (f : A -> res bool) (xs : list A) :
Model.every f xs = Ok true <-> Forall (fun x => f x = Ok true) xs.
Proof.
induction xs as [|x xs IH]; simpl.
- split; [constructor | reflexivity].
- destruct (f x) as [[|]|e] eqn:Hx; simpl.
  + rewrite IH. split; [intros H; constructor; assumption|].
    intros H. inversion H; assumption.
  + split; [discriminate|]. intros H. inversion H; congruence.
  + split; [discriminate|]. intros H. inversion H; congruence.
Qed.

(** All conditions are ANDed. *)
Lemma matchQuery_true_iff (doc : value) (query : props) :
Model._matchQuery doc query = Ok true <->
Forall (fun cond => Model.match_condition doc cond = Ok true) query.
Proof. apply every_true_iff. Qed.

(** An entry whose name is no known operator rejects the record. *)
Lemma match_operator_unknown (doc : value) (key : string) (value : value)
  (operator : string) (operand : Js.value) :
known_operator operator = false ->
Model.match_operator doc key value (operator, operand) = Ok false.
Proof.
unfold known_operator. simpl. intros H.
repeat (apply orb_false_elim in H as [? H]).
unfold Model.match_operator.
repeat match goal with
       | E : String.eqb operator _ = false |- _ => rewrite E; clear E
       end.
reflexivity.
Qed.

Lemma matchQuery_exists (doc : value) (path : string) (val : value) :
Model._matchQuery doc [(path, VObj [("$exists", val)])] = Ok false.
Proof. reflexivity. Qed.

Lemma filterM_all_false {A} (f : A -> res bool) (xs : list A) :
(forall x, f x = Ok false) -> Model.filterM f xs = Ok [].
Proof.
intros Hf. induction xs as [|x xs IH]; [reflexivity|].
simpl. rewrite Hf. simpl. rewrite IH. reflexivity.
Qed.

(** What [_find] returns on a collection file that holds an array, is
  blank or is missing. *)
Lemma find_all_false (m : Model.t) (conditions : props) (fs : store) :
holds_array fs (Model.collectionPath m) = true ->
(forall doc, Model._matchQuery doc conditions = Ok false) ->
(Model._find m conditions fs).2 = Ok [].
Proof.
intros Hfs Hq. unfold Model._find, io_bind, readJSON, holds_array in *.
destruct (fs !! Model.collectionPath m) as [[|j|]|] eqn:E;
  try discriminate; try reflexivity.
destruct j; try discriminate. simpl.
unfold io_lift. simpl. rewrite filterM_all_false by assumption. reflexivity.
Qed.

End matching.

(** C1 (as the code has it at the input that shows the defect): a
    criterion with the entries [$regex] and [$options], which is what
    [QueryBuilder.regex] always writes, never lets a record through,
    whatever the regular expression engine answers: the flags are read from
    [$options], but the loop over the entries then takes [$options] for an
    operator it does not know. *)
Theorem regex_with_options_never_matches :
  forall (rt : Runtime) (doc : value) (key : string) (pattern options : value),
    Model._matchQuery doc
      [(key, VObj [("$regex", pattern); ("$options", options)])] <> Ok true.
Proof.
  intros rt doc key pattern options.
  intros H. revert H. unfold Model._matchQuery. simpl.
  unfold js_get. simpl.
  destruct (nullish doc); res_simpl; [discriminate|].
  destruct (rt_regexp_test pattern _ (get_own doc key)) as [[|]|e];
    res_simpl; discriminate.
Qed.

(** The same pattern without the [$options] entry does match. *)
Example regex_alone_matches :
  @Model._matchQuery sample_runtime (VObj [("name", VStr "alice")])
    [("name", VObj [("$regex", VStr "ali")])] = Ok true
  /\ @Model._matchQuery sample_runtime (VObj [("name", VStr "alice")])
       [("name", VObj [("$regex", VStr "ali"); ("$options", VStr "i")])]
     = Ok false.
Proof. split; reflexivity. Qed.

(** ** [exists] *)

(** C9, counterexample: at the path [__proto__] the assignment
    [conditions[path] = { $exists: v }] runs the setter of
    [Object.prototype] and the conditions get no entry, so the query
    returns every record of the collection. *)
Lemma exists_at_proto_matches_everything :
  conditions (exists_ (where_ (find users []) "__proto__") (VBool true)) = [] /\
  (@exec sample_runtime
     (exists_ (where_ (find users []) "__proto__") (VBool true)) one_user).2
  = Ok [user_a] /\
  [user_a] <> [].
Proof. repeat split; try reflexivity. discriminate. Qed.

(** C9, amended: a query built with [find().where(path).exists(v)] returns
    the empty sequence on every collection, for every path other than
    [__proto__] and every argument [v], booleans among them: the criterion
    is [{ $exists: v }] and [$exists] is no operator [_matchQuery] knows.
    At the path [__proto__] no condition is written and the query returns
    what [find()] returns. *)
Theorem exists_query_matches_nothing :
  forall (rt : Runtime) (m : Model.t) (fs : store) (path : string) (v : value),
    holds_array fs (Model.collectionPath m) = true ->
    (path <> "__proto__" ->
     (exec (exists_ (where_ (find m []) path) v) fs).2 = Ok []) /\
    exec (exists_ (where_ (find m []) "__proto__") v) fs
    = exec (find m []) fs.
Proof.
  intros rt m fs path v Hfs. split; [|reflexivity]. intros Hp.
  unfold exec, exists_, where_, find, set_condition, obj_assign.
  cbn [query Query.path conditions model _sort _limit _skip has_key
       obj_lookup negb andb].
  rewrite andb_true_r.
  destruct (String.eqb_spec path "__proto__") as [E|_]; [contradiction|].
  cbn [obj_set length Nat.ltb Nat.leb truthy].
  unfold io_bind.
  pose proof (find_all_false m
                [(path, VObj [("$exists",
                               match v with VUndef => VBool true | _ => v end)])]
                fs Hfs) as H.
  destruct (Model._find m _ fs) as [fs' r]. simpl in H.
  rewrite H by (intros doc; apply matchQuery_exists). reflexivity.
Qed.

Lemma exists_query_matches_nothing_witness :
  holds_array one_user (Model.collectionPath users) = true /\
  "_id" <> "__proto__" /\
  (@exec sample_runtime
     (exists_ (where_ (find users []) "_id") (VBool true)) one_user).2 = Ok [].
Proof.
  split; [reflexivity|]. split; [discriminate|].
  apply (exists_query_matches_nothing sample_runtime users one_user "_id"
           (VBool true) eq_refl).
  discriminate.
Defined.

(** ** [skip] and [limit] *)

(** C4, counterexample: with [limit(0)] the guard [if (this._limit)] leaves
    the result unlimited, so [find().skip(0).limit(0)] returns the whole
    collection and not the empty slice [[0, 0)]. *)
Lemma limit_zero_returns_everything :
  (@exec sample_runtime (find users []) one_user).2 = Ok [user_a] /\
  (@exec sample_runtime
     (limit (skip (find users []) (VNum (num_of_Z 0))) (VNum (num_of_Z 0)))
     one_user).2 = Ok [user_a] /\
  take 0 (drop 0 [user_a]) <> [user_a].
Proof. repeat split; try reflexivity. discriminate. Qed.

(** Paging a query that returns: the conditions may be any. *)
Lemma skip_limit_of_result :
  forall (rt : Runtime) (m : Model.t) (conditions : props) (fs : store)
         (s l : Z) (docs : list Document.t),
    (0 <= s)%Z -> (0 <= l)%Z ->
    (exec (find m conditions) fs).2 = Ok docs ->
    (exec (limit (skip (find m conditions) (VNum (num_of_Z s)))
                 (VNum (num_of_Z l))) fs).2
    = Ok (if (l =? 0)%Z then drop (Z.to_nat s) docs
          else take (Z.to_nat l) (drop (Z.to_nat s) docs))
    /\ ((Z.of_nat (length docs) <= s)%Z ->
        (exec (limit (skip (find m conditions) (VNum (num_of_Z s)))
                     (VNum (num_of_Z l))) fs).2 = Ok []).
Proof.
  intros rt m conditions fs s l docs Hs Hl Hall.
  assert (Hmain :
    (exec (limit (skip (find m conditions) (VNum (num_of_Z s)))
                 (VNum (num_of_Z l))) fs).2
    = Ok (if (l =? 0)%Z then drop (Z.to_nat s) docs
          else take (Z.to_nat l) (drop (Z.to_nat s) docs))).
  { revert Hall. unfold exec, limit, skip, find. simpl. unfold io_bind.
    destruct (Model._find m conditions fs) as [fs' [xs|e]]; simpl;
      [|discriminate].
    unfold io_lift. simpl. intros Hall.
    rewrite !Qeq_bool_inject_Z_0.
    assert (Hskip :
      (if negb (s =? 0)%Z then array_slice xs (VNum (num_of_Z s)) VUndef
       else xs) = drop (Z.to_nat s) xs).
    { destruct (Z.eqb_spec s 0) as [->|_]; simpl; [reflexivity|].
      apply array_slice_from, Hs. }
    rewrite Hskip.
    destruct (Z.eqb_spec l 0) as [->|_]; simpl.
    - apply mapM_res_drop, Hall.
    - rewrite array_slice_upto by assumption.
      apply mapM_res_take, mapM_res_drop, Hall. }
  split; [exact Hmain|].
  intros Hlen. rewrite Hmain.
  rewrite drop_ge by lia. destruct (l =? 0)%Z; [reflexivity|].
  destruct (Z.to_nat l); reflexivity.
Qed.

Lemma mapM_res_total {A B} (f : A -> res B) (xs : list A) :
  Forall (fun x => exists y, f x = Ok y) xs -> exists ys, mapM f xs = Ok ys.
Proof.
  induction 1 as [|x xs [y Hy] _ [ys Hys]]; [exists []; reflexivity|].
  rewrite mapM_res_cons, Hy. simpl. rewrite Hys. eexists. reflexivity.
Qed.

(** [find().exec()] returns on a collection of records. *)
Lemma exec_find_returns (rt : Runtime) (m : Model.t) (fs : store) :
  holds_records fs (Model.collectionPath m) = true ->
  exists docs, (exec (find m []) fs).2 = Ok docs.
Proof.
  intros H. unfold exec, find. simpl. unfold io_bind, Model._find, io_bind.
  unfold holds_records in H. unfold readJSON.
  destruct (fs !! Model.collectionPath m) as [[|j|]|] eqn:E;
    try discriminate; try (simpl; eexists; reflexivity).
  destruct j as [| | | |js|]; try discriminate. simpl.
  unfold io_lift. simpl.
  assert (Hf : Model.filterM (fun doc => Model._matchQuery doc [])
                 (map parse js) = Ok (map parse js)).
  { clear. induction (map parse js) as [|x xs IH]; [reflexivity|].
    simpl. res_simpl. rewrite IH. reflexivity. }
  rewrite Hf. simpl.
  apply mapM_res_total. apply List.Forall_forall. intros d Hd.
  apply in_map_iff in Hd as (j & <- & Hj).
  rewrite forallb_forall in H. specialize (H j Hj).
  destruct j; try discriminate. simpl. eexists. reflexivity.
Qed.

(** C4, amended: on every collection of records and for non-negative
    integers [s] and [l], [find().exec()] returns a sequence and
    [find().skip(s).limit(l).exec()] returns its slice [[s, s+l)] when [l]
    is at least 1, and everything from position [s] on when [l] is 0; a
    skip at or beyond the length gives the empty sequence; nothing is
    thrown. *)
Theorem skip_limit_slice :
  forall (rt : Runtime) (m : Model.t) (fs : store) (s l : Z),
    (0 <= s)%Z -> (0 <= l)%Z ->
    holds_records fs (Model.collectionPath m) = true ->
    exists docs,
      (exec (find m []) fs).2 = Ok docs /\
      (exec (limit (skip (find m []) (VNum (num_of_Z s)))
                   (VNum (num_of_Z l))) fs).2
      = Ok (if (l =? 0)%Z then drop (Z.to_nat s) docs
            else take (Z.to_nat l) (drop (Z.to_nat s) docs)) /\
      ((Z.of_nat (length docs) <= s)%Z ->
       (exec (limit (skip (find m []) (VNum (num_of_Z s)))
                    (VNum (num_of_Z l))) fs).2 = Ok []).
Proof.
  intros rt m fs s l Hs Hl Hfs.
  destruct (exec_find_returns rt m fs Hfs) as [docs Hdocs].
  exists docs. split; [exact Hdocs|].
  exact (skip_limit_of_result rt m [] fs s l docs Hs Hl Hdocs).
Qed.

Lemma skip_limit_slice_witness :
  (0 <= 0)%Z /\ (0 <= 1)%Z /\
  holds_records one_user (Model.collectionPath users) = true /\
  (@exec sample_runtime
     (limit (skip (find users []) (VNum (num_of_Z 0))) (VNum (num_of_Z 1)))
     one_user).2 = Ok [user_a].
Proof.
  split; [lia|]. split; [lia|]. split; [reflexivity|].
  destruct (skip_limit_slice sample_runtime users one_user 0 1
              (Z.le_refl 0) Z.le_0_1 eq_refl) as (docs & Hd & Hp & _).
  assert (Hall : (@exec sample_runtime (find users []) one_user).2
                 = Ok [user_a]) by reflexivity.
  rewrite Hall in Hd. injection Hd as <-. exact Hp.
Defined.

(** ** [$unwind] *)

(** On a path without a dot the copies are independent. *)
Example unwind_top_level :
  Unwind.unwind_stored
    [VObj [("b", VArr [VNum (num_of_Z 1); VNum (num_of_Z 2)]); ("c", VStr "x")]]
    "$b"
  = Ok [Some (VObj [("b", VNum (num_of_Z 1)); ("c", VStr "x")]);
        Some (VObj [("b", VNum (num_of_Z 2)); ("c", VStr "x")])].
Proof. reflexivity. Qed.

(** A record whose target is no array passes through once. *)
Example unwind_not_an_array :
  Unwind.unwind_stored [nested_record] "$c" = Ok [Some nested_record].
Proof. reflexivity. Qed.

(** C5 (as the code has it at the input that shows the defect): on the
    dotted path [a.b] the two records [_unwind] returns for the array
    [[1, 2]] both hold 2 at [a.b].  Each copy [{ ...doc }] shares the object
    at [a] with the record it was copied from, and [_setFieldValue] writes
    the element into that one object. *)
Theorem unwind_dotted_path_shares_nested_object :
  Unwind.unwind_stored [nested_record] "$a.b"
  = Ok [Some (VObj [("a", VObj [("b", VNum (num_of_Z 2))]); ("c", VStr "x")]);
        Some (VObj [("a", VObj [("b", VNum (num_of_Z 2))]); ("c", VStr "x")])].
Proof. reflexivity. Qed.

(** ** [$group]: accumulators *)

(** The seeds of the four kinds the [switch] of [_initializeAccumulator]
    lists. *)
Lemma initializeAccumulator_seeds (rt : Runtime) (operand : value) :
  Aggregate._initializeAccumulator (VObj [("$sum", operand)]) = Ok (VNum (Fin 0)) /\
  Aggregate._initializeAccumulator (VObj [("$avg", operand)])
    = Ok (VObj [("sum", VNum (Fin 0)); ("count", VNum (Fin 0))]) /\
  Aggregate._initializeAccumulator (VObj [("$min", operand)]) = Ok (VNum PosInf) /\
  Aggregate._initializeAccumulator (VObj [("$max", operand)]) = Ok (VNum NegInf).
Proof. repeat split; reflexivity. Qed.

(** C3 (as the code has it at the input that shows the defect): [$push]
    is seeded with null, no record changes it, and the group of a record
    with [x = 1] comes out with [xs = null] where the claim has the
    sequence of the pushed values. *)
Theorem group_push_is_never_collected :
  forall rt : Runtime,
    (forall operand,
        Aggregate._initializeAccumulator (VObj [("$push", operand)]) = Ok VNull) /\
    (forall group field operand doc,
        Aggregate._updateAccumulator group field (VObj [("$push", operand)]) doc
        = Ok group) /\
    Aggregate._group [tagged_record] push_grouping
    = Ok [VObj [("_id", VStr "t"); ("xs", VNull)]].
Proof. intros rt. repeat split; reflexivity. Qed.

(** ** [doValidate] *)

Lemma find_snoc {A} (f : A -> bool) (l : list A) (x : A) :
  List.find f (l ++ [x]) =
  match List.find f l with
  | Some y => Some y
  | None => if f x then Some x else None
  end.
Proof.
  induction l as [|y l IH]; simpl; [reflexivity|].
  destruct (f y); [reflexivity | exact IH].
Qed.

Section doValidate.
Variables (st : SchemaType.t) (value context : value).

Let s0 : SchemaType.dv_state :=
  {| SchemaType.err := None; SchemaType.validatorsCompleted := 0;
     SchemaType.invoked := []; SchemaType.reported := [] |}.

(** The state of the loop after a prefix of synchronous validators. *)
Lemma dv_fold_sync (pre : list SchemaType.validator) :
  forallb (synchronous value context) pre = true ->
  length pre <= length (SchemaType.validators st) ->
  fold_left (SchemaType.dv_step st value context)
            (imap (fun i v => (i, v)) pre) (s0, [])
  = ({| SchemaType.err :=
          message_of st <$> List.find (fails value context) pre;
        SchemaType.validatorsCompleted := length pre;
        SchemaType.invoked := seq 0 (length pre);
        SchemaType.reported :=
          if Nat.ltb 0 (length pre) &&
             Nat.eqb (length pre) (length (SchemaType.validators st))
          then [message_of st <$> List.find (fails value context) pre]
          else [] |}, []).
Proof.
  induction pre as [|x pre IH] using rev_ind; intros Hsync Hlen.
  - reflexivity.
  - rewrite forallb_app in Hsync. apply andb_prop in Hsync as [Hpre Hx].
    simpl in Hx. rewrite andb_true_r in Hx.
    rewrite length_app in *. simpl length in *.
    rewrite imap_app, fold_left_app, IH by (assumption || lia).
    replace (Nat.eqb (length pre) (length (SchemaType.validators st)))
      with false by (symmetry; apply Nat.eqb_neq; lia).
    rewrite andb_false_r.
    replace (length pre + 1) with (S (length pre)) by lia.
    rewrite seq_S, find_snoc.
    change (Nat.ltb 0 (S (length pre))) with true.
    cbn [andb fold_left imap compose]. rewrite Nat.add_0_r.
    unfold synchronous in Hx. unfold SchemaType.dv_step.
    assert (Hf : fails value context x
                 = match SchemaType.v_validator x context value with
                   | SchemaType.Returns r => strict_eq r (VBool false)
                   | SchemaType.Throws => true
                   | SchemaType.Thenable _ _ _ => false
                   end) by reflexivity.
    rewrite Hf. clear Hf IH.
    fold (message_of st) in *.
    destruct (SchemaType.v_validator x context value) as [r| |now thr later];
      [| |discriminate];
      unfold SchemaType.validatorWrapper;
      cbn [SchemaType.err SchemaType.validatorsCompleted SchemaType.invoked
           SchemaType.reported app];
      fold (message_of st x);
      destruct (List.find (fails value context) pre) as [y|];
      cbn [fmap option_fmap option_map strict_eq Bool.eqb andb negb];
      try destruct (strict_eq r (VBool false));
      destruct (Nat.eqb (S (length pre)) (length (SchemaType.validators st)));
      reflexivity.
Qed.

End doValidate.

(** [fn] is called at most once before [doValidate] returns, whatever the
    validators do. *)
Lemma validatorWrapper_reported (st : SchemaType.t) (v : SchemaType.validator)
    (ok : value) (s : SchemaType.dv_state) :
  (SchemaType.validatorsCompleted s < length (SchemaType.validators st) ->
   SchemaType.reported s = []) ->
  length (SchemaType.reported s) <= 1 ->
  (SchemaType.validatorsCompleted (SchemaType.validatorWrapper st v ok s)
   < length (SchemaType.validators st) ->
   SchemaType.reported (SchemaType.validatorWrapper st v ok s) = []) /\
  length (SchemaType.reported (SchemaType.validatorWrapper st v ok s)) <= 1.
Proof.
  intros Hlt Hlen. unfold SchemaType.validatorWrapper.
  cbn [SchemaType.validatorsCompleted SchemaType.reported].
  destruct (Nat.eqb_spec (S (SchemaType.validatorsCompleted s))
                         (length (SchemaType.validators st))) as [E|E].
  - split; [intros; lia|]. rewrite Hlt by lia. simpl. lia.
  - split; [intros; apply Hlt; lia|exact Hlen].
Qed.

Lemma dv_settle_reported (st : SchemaType.t) (v : SchemaType.validator)
    (calls : list SchemaType.settled) (s : SchemaType.dv_state) :
  (SchemaType.validatorsCompleted s < length (SchemaType.validators st) ->
   SchemaType.reported s = []) ->
  length (SchemaType.reported s) <= 1 ->
  let s' := fold_left (fun s sd => SchemaType.dv_settle st s (v, sd)) calls s in
  (SchemaType.validatorsCompleted s' < length (SchemaType.validators st) ->
   SchemaType.reported s' = []) /\
  length (SchemaType.reported s') <= 1.
Proof.
  cbn zeta. revert s. induction calls as [|c calls IH]; intros s Hlt Hlen.
  - split; assumption.
  - cbn [fold_left]. apply IH; unfold SchemaType.dv_settle; cbn [fst snd];
      destruct c; apply validatorWrapper_reported; assumption.
Qed.

Lemma dv_step_reported (st : SchemaType.t) (value context : value)
    (l : list (nat * SchemaType.validator))
    (s : SchemaType.dv_state) (p : list (SchemaType.validator * SchemaType.settled)) :
  (SchemaType.validatorsCompleted s < length (SchemaType.validators st) ->
   SchemaType.reported s = []) ->
  length (SchemaType.reported s) <= 1 ->
  length (SchemaType.reported
            (fold_left (SchemaType.dv_step st value context) l (s, p)).1) <= 1.
Proof.
  revert s p. induction l as [|[i v] l IH]; intros s p Hlt Hlen; [exact Hlen|].
  cbn [fold_left]. unfold SchemaType.dv_step at 2.
  set (s1 := {| SchemaType.err := SchemaType.err s;
                SchemaType.validatorsCompleted :=
                  SchemaType.validatorsCompleted s;
                SchemaType.invoked := SchemaType.invoked s ++ [i];
                SchemaType.reported := SchemaType.reported s |}).
  assert (H1 : (SchemaType.validatorsCompleted s1
                < length (SchemaType.validators st) ->
                SchemaType.reported s1 = []) /\
               length (SchemaType.reported s1) <= 1) by (split; assumption).
  destruct H1 as [H1 H2].
  destruct (SchemaType.v_validator v context value) as [r| |now thr later].
  - apply IH; apply validatorWrapper_reported; assumption.
  - apply IH; apply validatorWrapper_reported; assumption.
  - destruct (dv_settle_reported st v now s1 H1 H2) as [H3 H4].
    cbn zeta in H3, H4.
    destruct thr; apply IH; try assumption;
      apply validatorWrapper_reported; assumption.
Qed.

Lemma doValidate_reported_once (st : SchemaType.t) (value context : value) :
  length (SchemaType.dv_reported (SchemaType.doValidate st value context)) <= 1.
Proof.
  unfold SchemaType.doValidate.
  destruct (Nat.eqb (length (SchemaType.validators st)) 0); [simpl; lia|].
  pose proof (dv_step_reported st value context
                (imap (fun i v => (i, v)) (SchemaType.validators st))
                {| SchemaType.err := None; SchemaType.validatorsCompleted := 0;
                   SchemaType.invoked := []; SchemaType.reported := [] |} [])
    as H.
  destruct (fold_left _ _ _) as [s1 pending]. simpl in *.
  apply H; [reflexivity | lia].
Qed.

(** What the constructor and the builder methods keep true: the
    validators [required] installed come first, and every validator has a
    message. *)
Lemma default_message_nonempty (p : string) :
  SchemaType.default_message p <> EmptyString.
Proof. discriminate. Qed.

Lemma built_shape (st : SchemaType.t) :
  built st ->
  exists k others,
    SchemaType.validators st
    = replicate k (SchemaType.required_validator (SchemaType.path st)) ++ others
    /\ Forall (fun v => SchemaType.v_isRequired v = false /\
                        SchemaType.v_message v <> EmptyString) others.
Proof.
  assert (Hval : forall obj st0 k others,
    SchemaType.validators st0
    = replicate k (SchemaType.required_validator (SchemaType.path st0)) ++ others ->
    Forall (fun v => SchemaType.v_isRequired v = false /\
                     SchemaType.v_message v <> EmptyString) others ->
    exists k' others',
      SchemaType.validators (SchemaType.validate obj st0)
      = replicate k' (SchemaType.required_validator
                        (SchemaType.path (SchemaType.validate obj st0))) ++ others'
      /\ Forall (fun v => SchemaType.v_isRequired v = false /\
                          SchemaType.v_message v <> EmptyString) others').
  { intros obj st0 k others Hv Ho.
    assert (Hpush : forall f m,
      exists k' others',
        SchemaType.validators
          (SchemaType.push_validator (SchemaType._createValidator st0 f m) st0)
        = replicate k' (SchemaType.required_validator (SchemaType.path st0))
            ++ others'
        /\ Forall (fun v => SchemaType.v_isRequired v = false /\
                            SchemaType.v_message v <> EmptyString) others').
    { intros f m. exists k, (others ++ [SchemaType._createValidator st0 f m]).
      simpl. rewrite Hv, <- app_assoc. split; [reflexivity|].
      apply Forall_app. split; [assumption|].
      constructor; [|constructor]. split; [reflexivity|]. simpl.
      destruct (String.eqb_spec m EmptyString); [apply default_message_nonempty|assumption].
 }
    destruct obj as [|f|[f|] m];
      [ exists k, others; split; assumption
      | exact (Hpush f EmptyString)
      | exact (Hpush f m)
      | exists k, others; split; assumption ]. }
  induction 1 as [p o|r st Hb IH|obj st Hb IH|fn st Hb IH].
  - unfold SchemaType.new.
    set (st0 := {| SchemaType.path := p; SchemaType.validators := [];
                   SchemaType.setters := [] |}).
    assert (H1 : exists k others,
      SchemaType.validators
        (if truthy (SchemaType.o_required o)
         then SchemaType.set_required (SchemaType.o_required o) st0 else st0)
      = replicate k (SchemaType.required_validator
                       (SchemaType.path
                          (if truthy (SchemaType.o_required o)
                           then SchemaType.set_required (SchemaType.o_required o) st0
                           else st0))) ++ others
      /\ Forall (fun v => SchemaType.v_isRequired v = false /\
                          SchemaType.v_message v <> EmptyString) others).
    { unfold SchemaType.set_required.
      destruct (truthy (SchemaType.o_required o)).
      - exists 1, []. split; [reflexivity|constructor].
      - exists 0, []. split; [reflexivity|constructor]. }
    destruct H1 as (k & others & Hv & Ho).
    destruct (Hval (SchemaType.o_validate o) _ k others Hv Ho)
      as (k' & others' & Hv' & Ho').
    destruct (SchemaType.o_set o); simpl; eauto.
  - destruct IH as (k & others & Hv & Ho). unfold SchemaType.set_required.
    destruct (truthy r); [|eauto].
    exists (S k), others. simpl. rewrite Hv. split; [reflexivity|assumption].
  - destruct IH as (k & others & Hv & Ho). eapply Hval; eassumption.
  - destruct IH as (k & others & Hv & Ho). simpl. eauto.
Qed.

Lemma built_required_first (st : SchemaType.t) :
  built st -> SchemaType.required st = true ->
  exists rest,
    SchemaType.validators st
    = SchemaType.required_validator (SchemaType.path st) :: rest.
Proof.
  intros Hb Hr. destruct (built_shape st Hb) as (k & others & Hv & Ho).
  destruct k as [|k]; [|rewrite Hv; simpl; eauto].
  exfalso. unfold SchemaType.required in Hr. rewrite Hv in Hr. simpl in Hr.
  apply existsb_exists in Hr as (v & Hin & Hv').
  rewrite List.Forall_forall in Ho. destruct (Ho v Hin). congruence.
Qed.

Lemma built_messages (st : SchemaType.t) (v : SchemaType.validator) :
  built st -> In v (SchemaType.validators st) ->
  message_of st v = SchemaType.v_message v.
Proof.
  intros Hb Hin. destruct (built_shape st Hb) as (k & others & Hv & Ho).
  unfold message_of. rewrite Hv in Hin. apply in_app_or in Hin as [Hin|Hin].
  - apply list_elem_of_In, elem_of_replicate in Hin as [-> _]. reflexivity.
  - rewrite List.Forall_forall in Ho. destruct (Ho v Hin) as [_ Hm].
    destruct (String.eqb_spec (SchemaType.v_message v) EmptyString); congruence.
Qed.

(** C8: when every validator is synchronous, [doValidate] invokes all of
    them in registration order and calls [fn] exactly once, with null when
    none fails and otherwise with the message of the first one that
    returned [false] or threw; on a schema type built by the constructor
    and its methods every validator has a message, and when the field is
    required the built-in required validator is the first in the list, hence
    the first one invoked. *)
Theorem doValidate_reports_first_failure :
  forall (st : SchemaType.t) (val context : value),
    forallb (synchronous val context) (SchemaType.validators st) = true ->
    SchemaType.dv_invoked (SchemaType.doValidate st val context)
      = seq 0 (length (SchemaType.validators st)) /\
    SchemaType.dv_reported (SchemaType.doValidate st val context)
      = [first_failure st val context] /\
    SchemaType.dv_reported_later (SchemaType.doValidate st val context) = [] /\
    (built st ->
     (forall v, In v (SchemaType.validators st) ->
                message_of st v = SchemaType.v_message v) /\
     (SchemaType.required st = true ->
      exists rest,
        SchemaType.validators st
        = SchemaType.required_validator (SchemaType.path st) :: rest)).
Proof.
  intros st val context Hsync.
  assert (Hbuilt : built st ->
     (forall v, In v (SchemaType.validators st) ->
                message_of st v = SchemaType.v_message v) /\
     (SchemaType.required st = true ->
      exists rest,
        SchemaType.validators st
        = SchemaType.required_validator (SchemaType.path st) :: rest)).
  { intros Hb. split; [intros v; apply built_messages, Hb
                      | apply built_required_first, Hb]. }
  assert (Hmain :
    SchemaType.dv_invoked (SchemaType.doValidate st val context)
      = seq 0 (length (SchemaType.validators st)) /\
    SchemaType.dv_reported (SchemaType.doValidate st val context)
      = [first_failure st val context] /\
    SchemaType.dv_reported_later (SchemaType.doValidate st val context) = []).
  { unfold SchemaType.doValidate, first_failure.
    destruct (SchemaType.validators st) as [|v vs] eqn:Ev.
    - simpl. repeat split; reflexivity.
    - rewrite <- Ev in *.
      replace (Nat.eqb (length (SchemaType.validators st)) 0) with false
        by (rewrite Ev; reflexivity).
      rewrite (dv_fold_sync st val context (SchemaType.validators st) Hsync)
        by lia.
      rewrite Nat.eqb_refl.
      replace (Nat.ltb 0 (length (SchemaType.validators st))) with true
        by (rewrite Ev; reflexivity).
      simpl. repeat split; reflexivity. }
  destruct Hmain as (H1 & H2 & H3).
  split; [exact H1|]. split; [exact H2|]. split; [exact H3|exact Hbuilt].
Qed.

Lemma doValidate_reports_first_failure_witness :
  forallb (synchronous VNull (VObj [])) (SchemaType.validators strict_name)
    = true /\
  built strict_name /\
  SchemaType.required strict_name = true /\
  SchemaType.dv_invoked (SchemaType.doValidate strict_name VNull (VObj []))
    = [0; 1] /\
  SchemaType.dv_reported (SchemaType.doValidate strict_name VNull (VObj []))
    = [Some "Path `name` is required."].
Proof.
  split; [reflexivity|]. split; [apply built_new|]. split; [reflexivity|].
  destruct (doValidate_reports_first_failure strict_name VNull (VObj [])
              eq_refl) as (Hi & Hr & _).
  split; [exact Hi | exact Hr].
Defined.

(** ** Objects *)

Lemma obj_lookup_set_eq (k : string) (v : value) (ps : props) :
  obj_lookup k (obj_set k v ps) = Some v.
Proof.
  induction ps as [|[k' v'] ps IH]; simpl.
  - rewrite String.eqb_refl. reflexivity.
  - destruct (String.eqb_spec k' k) as [->|Hne]; simpl.
    + rewrite String.eqb_refl. reflexivity.
    + destruct (String.eqb_spec k' k); [contradiction|exact IH].
Qed.

Lemma obj_lookup_set_ne (k k' : string) (v : value) (ps : props) :
  k <> k' -> obj_lookup k' (obj_set k v ps) = obj_lookup k' ps.
Proof.
  intros Hne. induction ps as [|[k0 v0] ps IH]; simpl.
  - destruct (String.eqb_spec k k'); [contradiction|reflexivity].
  - destruct (String.eqb_spec k0 k) as [->|Hk]; simpl.
    + destruct (String.eqb_spec k k'); [contradiction|reflexivity].
    + destruct (String.eqb_spec k0 k'); [reflexivity|exact IH].
Qed.

Lemma obj_get_set_ne (k k' : string) (v : value) (ps : props) :
  k <> k' -> obj_get (obj_set k v ps) k' = obj_get ps k'.
Proof.
  intros H. unfold obj_get. rewrite obj_lookup_set_ne by exact H. reflexivity.
Qed.

Lemma obj_lookup_none_iff (k : string) (ps : props) :
  obj_lookup k ps = None <-> ~ In k (map fst ps).
Proof.
  induction ps as [|[k' v'] ps IH]; simpl.
  - tauto.
  - destruct (String.eqb_spec k' k) as [->|Hne].
    + split; [discriminate|]. intros H. exfalso. apply H. left. reflexivity.
    + rewrite IH. tauto.
Qed.

Lemma obj_set_fresh (k : string) (v : value) (ps : props) :
  ~ In k (map fst ps) -> obj_set k v ps = ps ++ [(k, v)].
Proof.
  induction ps as [|[k' v'] ps IH]; simpl; intros Hk; [reflexivity|].
  destruct (String.eqb_spec k' k) as [->|Hne]; [tauto|].
  rewrite IH by tauto. reflexivity.
Qed.

(** Copying an object whose property names are distinct gives the same
    properties in the same order. *)
Lemma spread_app (src dst : props) :
  List.NoDup (map fst (dst ++ src)) -> spread src dst = dst ++ src.
Proof.
  revert dst. induction src as [|[k v] src IH]; intros dst Hnd.
  - simpl. rewrite app_nil_r. reflexivity.
  - unfold spread in *. simpl.
    assert (Hk : ~ In k (map fst dst)).
    { rewrite map_app in Hnd. simpl in Hnd.
      apply List.NoDup_remove_2 in Hnd. intros Hin. apply Hnd.
      apply in_or_app. left. exact Hin. }
    rewrite obj_set_fresh by exact Hk.
    rewrite IH; rewrite <- app_assoc; [reflexivity|exact Hnd].
Qed.

Lemma spread_nil (ps : props) : List.NoDup (map fst ps) -> spread ps [] = ps.
Proof. intros H. apply (spread_app ps []). exact H. Qed.

(** ** [Schema.validate] and [Model.create] *)

Lemma doValidate_sync_reported (st : SchemaType.t) (val context : value) :
  forallb (synchronous val context) (SchemaType.validators st) = true ->
  SchemaType.dv_reported (SchemaType.doValidate st val context)
  = [first_failure st val context].
Proof.
  intros Hsync. unfold SchemaType.doValidate, first_failure.
  destruct (SchemaType.validators st) as [|v vs] eqn:Ev.
  - reflexivity.
  - rewrite <- Ev in *.
    replace (Nat.eqb (length (SchemaType.validators st)) 0) with false
      by (rewrite Ev; reflexivity).
    rewrite (dv_fold_sync st val context (SchemaType.validators st) Hsync)
      by lia.
    rewrite Nat.eqb_refl.
    replace (Nat.ltb 0 (length (SchemaType.validators st))) with true
      by (rewrite Ev; reflexivity).
    reflexivity.
Qed.


Lemma fold_left_app_concat {A B} (f : A -> list B) (l : list A) (acc : list B) :
  fold_left (fun errors x => errors ++ f x) l acc = acc ++ concat (map f l).
Proof.
  revert acc. induction l as [|x l IH]; intros acc; simpl.
  - rewrite app_nil_r. reflexivity.
  - rewrite IH, app_assoc. reflexivity.
Qed.

Lemma omap_id_length {A} (l : list (option A)) : length (omap id l) <= length l.
Proof.
  induction l as [|[x|] l IH]; cbn in *; lia.
Qed.

Lemma validate_path_length (data : props) (entry : string * SchemaType.t) :
  length (Schema.validate_path data entry) <= 1.
Proof.
  destruct entry as [path st]. unfold Schema.validate_path.
  destruct (SchemaType.required st && nullish (obj_get data path));
    [simpl; lia|].
  destruct (negb (nullish (obj_get data path))); [|simpl; lia].
  destruct (SchemaType.cast st (obj_get data path)) as [v|e]; [|simpl; lia].
  etransitivity; [apply omap_id_length|apply doValidate_reported_once].
Qed.

Section create.
Context {rt : Runtime}.

Lemma apply_default_throw (e : string) (l : list (string * Schema.fielddef)) :
  fold_left Model.apply_default l (Throw e) = Throw e.
Proof. induction l as [|[f fd] l IH]; simpl; [reflexivity|exact IH]. Qed.

(** The loop over the definition leaves a field absent that is absent in
    the input and has no default. *)
Lemma apply_default_absent (path : string) (dd dd' : props)
    (entry : string * Schema.fielddef) :
  nullish (obj_get dd path) = true ->
  (entry.1 = path -> Model.default_defined (Schema.fd_default entry.2) = false) ->
  Model.apply_default (Ok dd) entry = Ok dd' ->
  nullish (obj_get dd' path) = true.
Proof.
  destruct entry as [field fd]. simpl. intros Habs Hdef.
  unfold Model.apply_default. res_simpl.
  destruct (String.eqb_spec field path) as [->|Hne].
  - rewrite (Hdef eq_refl), andb_false_r. res_simpl.
    destruct (obj_get dd path) eqn:E; try discriminate Habs;
      intros H; injection H as <-; rewrite E; reflexivity.
  - destruct (strict_eq (obj_get dd field) VUndef &&
              Model.default_defined (Schema.fd_default fd)).
    + destruct (Model.eval_default (Schema.fd_default fd)) as [v|e];
        res_simpl; [|discriminate].
      intros H; injection H as <-.
      destruct (obj_get (obj_set field v dd) field);
        try destruct (Schema.fd_type_is_Date fd);
        rewrite ?obj_get_set_ne by assumption; assumption.
    + res_simpl. intros H; injection H as <-.
      destruct (obj_get dd field);
        try destruct (Schema.fd_type_is_Date fd);
        rewrite ?obj_get_set_ne by assumption; assumption.
Qed.

Lemma apply_defaults_absent_from (path : string)
    (l : list (string * Schema.fielddef)) (dd dd' : props) :
  nullish (obj_get dd path) = true ->
  (forall fd, In (path, fd) l ->
              Model.default_defined (Schema.fd_default fd) = false) ->
  fold_left Model.apply_default l (Ok dd) = Ok dd' ->
  nullish (obj_get dd' path) = true.
Proof.
  revert dd. induction l as [|entry l IH]; intros dd Habs Hdef H.
  - injection H as <-. assumption.
  - simpl in H.
    destruct (Model.apply_default (Ok dd) entry) as [dd1|e] eqn:E.
    + apply (IH dd1); [|intros fd Hin; apply Hdef; right; exact Hin|exact H].
      apply (apply_default_absent path dd dd1 entry Habs); [|exact E].
      intros Heq. apply Hdef. left. destruct entry; simpl in *; congruence.
    + rewrite apply_default_throw in H. discriminate.
Qed.

End create.

(** A schema type the constructor makes with a truthy [required] option
    is required. *)
Lemma new_required (p : string) (o : SchemaType.options) :
  truthy (SchemaType.o_required o) = true ->
  SchemaType.required (SchemaType.new p o) = true.
Proof.
  intros Hr. unfold SchemaType.new. rewrite Hr.
  unfold SchemaType.set_required. rewrite Hr.
  unfold SchemaType.required.
  destruct (SchemaType.o_validate o) as [|f|[f|] msg];
    destruct (SchemaType.o_set o); reflexivity.
Qed.

Lemma in_new_paths (entries : list (string * Schema.declared)) (path : string)
    (d : Schema.declared) :
  In (path, d) entries -> path <> "__proto__" ->
  In (path, SchemaType.new path (Schema.d_options d))
     (Schema._paths (Schema.new entries)).
Proof.
  intros Hin Hp. unfold Schema.new. cbn [Schema._paths].
  apply in_map_iff. exists (path, d). split; [reflexivity|].
  apply filter_In. split; [exact Hin|]. cbn [fst].
  destruct (String.eqb_spec path "__proto__"); [contradiction|reflexivity].
Qed.

Lemma new_defaultless (entries : list (string * Schema.declared))
    (path : string) (d : Schema.declared) :
  List.NoDup (map fst entries) -> In (path, d) entries ->
  Model.default_defined (Schema.fd_default (Schema.d_field d)) = false ->
  forall fd, In (path, fd) (Schema.definition (Schema.new entries)) ->
             Model.default_defined (Schema.fd_default fd) = false.
Proof.
  intros Hnd Hin Hd fd Hfd. unfold Schema.new in Hfd.
  cbn [Schema.definition] in Hfd.
  apply in_map_iff in Hfd as ([p d'] & Heq & Hin').
  apply filter_In in Hin' as [Hin' _]. cbn [fst snd] in Heq.
  injection Heq as -> <-.
  assert (d' = d); [|subst; exact Hd].
  eapply NoDup_fst_functional; eassumption.
Qed.

(** C2, counterexample: a required field without default is absent, and
    the default of another field is a function that throws.  [create]
    then fails with what the function has thrown: [validate], which would
    have said ["name is required"], is not reached. *)
Lemma create_fails_with_the_error_of_a_default :
  @Schema.validate (Model.schema coded) [] = ["name is required"] /\
  @Model.create sample_runtime coded new_year "65a000000000000000000003" [] ∅
  = (∅, Throw "no code") /\
  "no code" <> join ", " ["name is required"].
Proof. repeat split; try reflexivity. discriminate. Qed.

(** C2, amended: [validate] handles every path by itself and appends what
    each yields, so no field stops another.  For a path that is no name of
    a member of [Object.prototype], a value that is null or undefined
    yields ["<path> is required"] when the field is required and nothing
    otherwise.  A value that is present is handed to the setters in turn:
    when one throws, the field yields ["<path> validation failed: ..."] with
    what it threw; otherwise the field yields at most one string, and when
    the validators answer at once on what the setters give, it is the
    message of the first validator that fails, if one does.  Hence [create]
    with one record that leaves a required field without default absent
    stores nothing and throws: the error strings of all fields joined by a
    comma, ["<path> is required"] among them, when no default throws, and
    what a default has thrown otherwise.  This holds in particular of a
    schema the constructor has built from a definition in which the field
    has a truthy [required] and no [default]. *)
Theorem validate_per_field_and_create_blocked :
  forall (rt : Runtime) (m : Model.t),
    (forall record,
        Schema.validate (Model.schema m) record
        = concat (map (Schema.validate_path record)
                      (Schema._paths (Model.schema m)))) /\
    (forall record path st,
        (ordinary path = true ->
         nullish (obj_get record path) = true ->
         Schema.validate_path record (path, st)
         = if SchemaType.required st then [path +:+ " is required"] else [])
        /\
        (nullish (obj_get record path) = false ->
         (forall e,
             apply_setters (SchemaType.setters st) (obj_get record path)
             = Throw e ->
             Schema.validate_path record (path, st)
             = [path +:+ " validation failed: " +:+ e]) /\
         (forall v,
             apply_setters (SchemaType.setters st) (obj_get record path)
             = Ok v ->
             length (Schema.validate_path record (path, st)) <= 1 /\
             (forallb (synchronous v (VObj record)) (SchemaType.validators st)
              = true ->
              Schema.validate_path record (path, st)
              = one_error (first_failure st v (VObj record)))))) /\
    (forall data path st now oid fs,
        ordinary_names (Model.schema m) = true ->
        List.NoDup (map fst data) ->
        In (path, st) (Schema._paths (Model.schema m)) ->
        SchemaType.required st = true ->
        nullish (obj_get data path) = true ->
        defaultless (Model.schema m) path ->
        (forall defaulted,
            Model.apply_defaults m data = Ok defaulted ->
            Model.create m now oid data fs
            = (fs, Throw (join ", "
                            (Schema.validate (Model.schema m) defaulted))) /\
            In (path +:+ " is required")
               (Schema.validate (Model.schema m) defaulted)) /\
        (forall e,
            Model.apply_defaults m data = Throw e ->
            Model.create m now oid data fs = (fs, Throw e))) /\
    (forall entries data path d now oid fs,
        constructed (Model.schema m) entries ->
        forallb ordinary (map fst entries) = true ->
        List.NoDup (map fst entries) ->
        List.NoDup (map fst data) ->
        In (path, d) entries ->
        truthy (SchemaType.o_required (Schema.d_options d)) = true ->
        Model.default_defined (Schema.fd_default (Schema.d_field d)) = false ->
        nullish (obj_get data path) = true ->
        exists message,
          Model.create m now oid data fs = (fs, Throw message) /\
          forall defaulted,
            Model.apply_defaults m data = Ok defaulted ->
            message = join ", " (Schema.validate (Model.schema m) defaulted) /\
            In (path +:+ " is required")
               (Schema.validate (Model.schema m) defaulted)).
Proof.
  intros rt m.
  assert (Hconcat : forall record,
        Schema.validate (Model.schema m) record
        = concat (map (Schema.validate_path record)
                      (Schema._paths (Model.schema m)))).
  { intros record. unfold Schema.validate.
    exact (fold_left_app_concat (Schema.validate_path record) _ []). }
  assert (Hcreate : forall data path st now oid fs,
        ordinary_names (Model.schema m) = true ->
        List.NoDup (map fst data) ->
        In (path, st) (Schema._paths (Model.schema m)) ->
        SchemaType.required st = true ->
        nullish (obj_get data path) = true ->
        defaultless (Model.schema m) path ->
        (forall defaulted,
            Model.apply_defaults m data = Ok defaulted ->
            Model.create m now oid data fs
            = (fs, Throw (join ", "
                            (Schema.validate (Model.schema m) defaulted))) /\
            In (path +:+ " is required")
               (Schema.validate (Model.schema m) defaulted)) /\
        (forall e,
            Model.apply_defaults m data = Throw e ->
            Model.create m now oid data fs = (fs, Throw e))).
  { intros data path st now oid fs _ Hnd Hin Hr Habs Hdl. split.
    - intros dd Hdd.
      assert (Hmsg : In (path +:+ " is required")
                        (Schema.validate (Model.schema m) dd)).
      { rewrite Hconcat. apply in_concat.
        exists (Schema.validate_path dd (path, st)). split.
        - apply in_map. exact Hin.
        - unfold Schema.validate_path. rewrite Hr.
          unfold Model.apply_defaults in Hdd.
          rewrite spread_nil in Hdd by exact Hnd.
          rewrite (apply_defaults_absent_from path _ data dd Habs Hdl Hdd).
          left. reflexivity. }
      split; [|exact Hmsg].
      unfold Model.create, Model._createOne, io_bind, io_lift. rewrite Hdd.
      destruct (Schema.validate (Model.schema m) dd) as [|err errs];
        [destruct Hmsg|reflexivity].
    - intros e He.
      unfold Model.create, Model._createOne, io_bind, io_lift. rewrite He.
      reflexivity. }
  split; [exact Hconcat|]. split; [|split; [exact Hcreate|]].
  - intros record path st. split.
    + intros _ Hn. unfold Schema.validate_path. rewrite Hn, andb_true_r.
      cbn [negb]. destruct (SchemaType.required st); reflexivity.
    + intros Hn.
      assert (Hcast : SchemaType.cast st (obj_get record path)
                      = apply_setters (SchemaType.setters st)
                                      (obj_get record path)).
      { unfold SchemaType.cast, apply_setters. rewrite Hn. reflexivity. }
      split.
      * intros e He. unfold Schema.validate_path.
        rewrite Hn, andb_false_r, Hcast, He. reflexivity.
      * intros v Hv. split; [apply validate_path_length|].
        intros Hsync. unfold Schema.validate_path.
        rewrite Hn, andb_false_r, Hcast, Hv. cbn [negb].
        rewrite (doValidate_sync_reported st v _ Hsync).
        destruct (first_failure st v (VObj record)); reflexivity.
  - intros entries data path d now oid fs [Hdef Hpaths] Hall Hnd Hdata Hin Hr
           Hd Habs.
    assert (Hord : ordinary path = true).
    { rewrite forallb_forall in Hall. apply Hall.
      apply (in_map fst) in Hin. exact Hin. }
    assert (Hp : path <> "__proto__") by (intros ->; discriminate Hord).
    assert (Hnames : ordinary_names (Model.schema m) = true).
    { unfold ordinary_names. rewrite Hdef, Hpaths. unfold Schema.new.
      cbn [Schema.definition Schema._paths].
      apply andb_true_intro; split; apply forallb_forall; intros k Hk;
        apply in_map_iff in Hk as (e' & <- & He');
        apply in_map_iff in He' as (e & <- & He);
        apply filter_In in He as [He _]; cbn [fst];
        rewrite forallb_forall in Hall; apply Hall;
        apply (in_map fst) in He; exact He. }
    assert (Hin' : In (path, SchemaType.new path (Schema.d_options d))
                      (Schema._paths (Model.schema m))).
    { rewrite Hpaths. apply in_new_paths; assumption. }
    assert (Hdl : defaultless (Model.schema m) path).
    { unfold defaultless. rewrite Hdef.
      apply (new_defaultless entries path d Hnd Hin Hd). }
    destruct (Hcreate data path _ now oid fs Hnames Hdata Hin'
                (new_required path _ Hr) Habs Hdl) as [Hok Hthrow].
    destruct (Model.apply_defaults m data) as [dd|e] eqn:Hdd.
    + destruct (Hok dd eq_refl) as [Hc Hm]. eexists. split; [exact Hc|].
      intros defaulted Heq. injection Heq as <-. split; [reflexivity|exact Hm].
    + exists e. split; [exact (Hthrow e eq_refl)|]. intros defaulted Heq.
      discriminate Heq.
Qed.

Lemma validate_per_field_and_create_blocked_witness :
  constructed (Model.schema named_people) named_entries /\
  forallb ordinary (map fst named_entries) = true /\
  List.NoDup (map fst named_entries) /\
  List.NoDup (map fst [("age", VNum (num_of_Z 3))]) /\
  nullish (obj_get [("age", VNum (num_of_Z 3))] "name") = true /\
  @Model.create sample_runtime named_people new_year
    "65a000000000000000000001" [("age", VNum (num_of_Z 3))] ∅
  = (∅, Throw "name is required") /\
  Schema.validate (Model.schema named_people) [("name", VStr EmptyString)]
  = ["name validation failed: empty name"] /\
  Schema.validate (Model.schema named_people) [("name", VStr "root")]
  = ["name is taken"].
Proof.
  assert (Hc : constructed (Model.schema named_people) named_entries)
    by (split; reflexivity).
  assert (Hn : List.NoDup (map fst named_entries))
    by (constructor; [simpl; tauto|constructor]).
  assert (Hd : List.NoDup (map fst [("age", VNum (num_of_Z 3))]))
    by (constructor; [simpl; tauto|constructor]).
  split; [exact Hc|]. split; [reflexivity|]. split; [exact Hn|].
  split; [exact Hd|]. split; [reflexivity|].
  destruct (validate_per_field_and_create_blocked sample_runtime named_people)
    as (Hconcat & Hfield & _ & H).
  split; [|split].
  - destruct (H named_entries [("age", VNum (num_of_Z 3))] "name" _
                new_year "65a000000000000000000001" ∅
                Hc eq_refl Hn Hd (or_introl eq_refl) eq_refl eq_refl eq_refl)
      as (message & Hcreate & Hm).
    rewrite Hcreate. destruct (Hm _ eq_refl) as [-> _]. reflexivity.
  - rewrite Hconcat. cbn [map concat app Schema._paths Model.schema
                          named_people Schema.new named_entries List.filter
                          fst snd String.eqb Ascii.eqb Bool.eqb negb].
    rewrite app_nil_r.
    destruct (Hfield [("name", VStr EmptyString)] "name"
                (SchemaType.new "name" name_options))
      as [_ Hp].
    destruct (Hp eq_refl) as [He _]. exact (He "empty name" eq_refl).
  - rewrite Hconcat. cbn [map concat app Schema._paths Model.schema
                          named_people Schema.new named_entries List.filter
                          fst snd String.eqb Ascii.eqb Bool.eqb negb].
    rewrite app_nil_r.
    destruct (Hfield [("name", VStr "root")] "name"
                (SchemaType.new "name" name_options))
      as [_ Hp].
    destruct (Hp eq_refl) as [_ Hv].
    destruct (Hv (VStr "root") eq_refl) as [_ Hs]. exact (Hs eq_refl).
Defined.

(** ** [writeJSON] and [readJSON] *)

Lemma stringify_arr (xs : list value) :
  stringify (VArr xs) = js ← stringify_elems xs; Ok (Some (JArr js)).
Proof. reflexivity. Qed.

Lemma stringify_obj (ps : props) :
  stringify (VObj ps) = js ← stringify_fields ps; Ok (Some (JObj js)).
Proof. reflexivity. Qed.

Lemma distinct_keys_NoDup (ks : list string) :
  distinct_keys ks = true -> List.NoDup ks.
Proof.
  induction ks as [|k ks IH]; simpl; intros H; [constructor|].
  apply andb_prop in H as [Hk Hr]. constructor; [|apply IH, Hr].
  intros Hin. apply negb_true_iff in Hk.
  assert (existsb (String.eqb k) ks = true); [|congruence].
  apply existsb_exists. exists k. split; [exact Hin|apply String.eqb_refl].
Qed.

(** *** Timestamps *)

Lemma is_digit_digit_char (n : nat) : is_digit (digit_char n) = true.
Proof.
  unfold is_digit, digit_char.
  pose proof (Nat.mod_upper_bound n 10 ltac:(lia)) as Hlt.
  rewrite nat_ascii_embedding by lia.
  apply andb_true_intro. split; apply Nat.leb_le; lia.
Qed.

Lemma digit_val_digit_char (n : nat) : digit_val (digit_char n) = n mod 10.
Proof.
  unfold digit_val, digit_char.
  pose proof (Nat.mod_upper_bound n 10 ltac:(lia)) as Hlt.
  rewrite nat_ascii_embedding by lia. lia.
Qed.

Lemma digits_2 (n : nat) : digits 2 n = [digit_char (n / 10); digit_char n].
Proof. reflexivity. Qed.

Lemma digits_3 (n : nat) :
  digits 3 n = [digit_char (n / 10 / 10); digit_char (n / 10); digit_char n].
Proof. reflexivity. Qed.

Lemma digits_4 (n : nat) :
  digits 4 n = [digit_char (n / 10 / 10 / 10); digit_char (n / 10 / 10);
                digit_char (n / 10); digit_char n].
Proof. reflexivity. Qed.

Lemma two_digits_value (n : nat) :
  n < 100 -> 10 * (10 * 0 + (n / 10) mod 10) + n mod 10 = n.
Proof.
  intros H.
  pose proof (Nat.div_mod_eq n 10). pose proof (Nat.mod_upper_bound n 10).
  pose proof (Nat.div_mod_eq (n / 10) 10).
  pose proof (Nat.mod_upper_bound (n / 10) 10).
  assert (n / 10 / 10 = 0)
    by (apply Nat.div_small; apply Nat.Div0.div_lt_upper_bound; lia).
  lia.
Qed.

Lemma three_digits_value (n : nat) :
  n < 1000 ->
  10 * (10 * (10 * 0 + (n / 10 / 10) mod 10) + (n / 10) mod 10) + n mod 10 = n.
Proof.
  intros H.
  pose proof (Nat.div_mod_eq n 10). pose proof (Nat.mod_upper_bound n 10).
  pose proof (Nat.div_mod_eq (n / 10) 10).
  pose proof (Nat.mod_upper_bound (n / 10) 10).
  pose proof (Nat.div_mod_eq (n / 10 / 10) 10).
  pose proof (Nat.mod_upper_bound (n / 10 / 10) 10).
  assert (n / 10 / 10 / 10 = 0)
    by (apply Nat.div_small; repeat apply Nat.Div0.div_lt_upper_bound; lia).
  lia.
Qed.

Lemma four_digits_value (n : nat) :
  (Z.of_nat n <= 9999)%Z ->
  10 * (10 * (10 * (10 * 0 + (n / 10 / 10 / 10) mod 10) + (n / 10 / 10) mod 10)
        + (n / 10) mod 10) + n mod 10 = n.
Proof.
  intros H.
  pose proof (Nat.div_mod_eq n 10). pose proof (Nat.mod_upper_bound n 10).
  pose proof (Nat.div_mod_eq (n / 10) 10).
  pose proof (Nat.mod_upper_bound (n / 10) 10).
  pose proof (Nat.div_mod_eq (n / 10 / 10) 10).
  pose proof (Nat.mod_upper_bound (n / 10 / 10) 10).
  pose proof (Nat.div_mod_eq (n / 10 / 10 / 10) 10).
  pose proof (Nat.mod_upper_bound (n / 10 / 10 / 10) 10).
  assert (n / 10 / 10 / 10 / 10 = 0)
    by (apply Nat.div_small; repeat apply Nat.Div0.div_lt_upper_bound; lia).
  lia.
Qed.

(** [toISOString] prints a Date of a four-digit year in the shape the
    reviver looks for, and [new Date] reads the same Date back. *)
Lemma timestamp_roundtrip (d : jsdate) :
  four_digit_date d = true ->
  exists s, toISOString d = Ok s /\ iso_like s = true /\ parse_iso s = Some d.
Proof.
  destruct d as [|yr mo dy hh mi ss ms]; [discriminate|].
  unfold four_digit_date. intros H.
  apply andb_prop in H as [Hyr Hv].
  assert (Hfields := Hv). unfold valid_fields in Hv.
  repeat (apply andb_prop in Hv as [Hv ?]).
  repeat match goal with
         | E : Nat.leb _ _ = true |- _ => apply Nat.leb_le in E
         end.
  assert (Hdy : dy <= 31).
  { etransitivity; [eassumption|]. unfold days_in_month.
    destruct mo as [|[|[|[|[|[|[|[|[|[|[|[|]]]]]]]]]]]];
      try destruct (leap_year yr); lia. }
  assert (Hy := Hyr). apply andb_prop in Hy as [Hy0 Hy1].
  apply Z.leb_le in Hy0, Hy1.
  unfold toISOString, year_chars. rewrite Hyr.
  rewrite digits_4, digits_3, !digits_2.
  eexists. split; [reflexivity|].
  assert (Hlike : iso_like
    (string_of_list_ascii
       ([digit_char (Z.to_nat yr / 10 / 10 / 10);
         digit_char (Z.to_nat yr / 10 / 10); digit_char (Z.to_nat yr / 10);
         digit_char (Z.to_nat yr)] ++
        "-"%char :: [digit_char (mo / 10); digit_char mo] ++
        "-"%char :: [digit_char (dy / 10); digit_char dy] ++
        "T"%char :: [digit_char (hh / 10); digit_char hh] ++
        ":"%char :: [digit_char (mi / 10); digit_char mi] ++
        ":"%char :: [digit_char (ss / 10); digit_char ss] ++
        "."%char :: [digit_char (ms / 10 / 10); digit_char (ms / 10);
                     digit_char ms] ++ ["Z"%char])) = true).
  { unfold iso_like. rewrite list_ascii_of_string_of_list_ascii.
    cbn [app iso_pattern atoms_match atom_matches].
    rewrite !is_digit_digit_char. reflexivity. }
  split; [exact Hlike|].
  unfold parse_iso. rewrite Hlike.
  rewrite list_ascii_of_string_of_list_ascii.
  cbn [app num_of_digits fold_left].
  rewrite !digit_val_digit_char.
  rewrite (four_digits_value (Z.to_nat yr)) by lia.
  rewrite !two_digits_value by lia.
  rewrite three_digits_value by lia.
  rewrite Z2Nat.id by lia. rewrite Hfields. reflexivity.
Qed.

(** *** The round trip *)

Section roundtrip.
Context {rt : Runtime}.

Lemma stringify_parse (v : value) :
  storable v = true -> exists j, stringify v = Ok (Some j) /\ parse j = v.
Proof.
  induction v as [| |b|n|s|d|xs IH|ps IH] using value_ind'; intros Hs.
  - discriminate.
  - exists JNull. split; reflexivity.
  - exists (JBool b). split; reflexivity.
  - destruct n as [| |q|]; try discriminate.
    exists (JNum q). split; reflexivity.
  - exists (JStr s). split; [reflexivity|].
    simpl in *. apply negb_true_iff in Hs. rewrite Hs. reflexivity.
  - simpl in Hs. destruct (timestamp_roundtrip d Hs) as (s & Hp & Hl & Hr).
    exists (JStr s). split.
    + simpl. unfold date_toJSON. rewrite Hp. reflexivity.
    + simpl. rewrite Hl. unfold new_Date. rewrite Hr. reflexivity.
  - simpl in Hs.
    assert (H : exists js, stringify_elems xs = Ok js /\ map parse js = xs).
    { induction IH as [|x xs Hx _ IHxs]; [exists []; split; reflexivity|].
      simpl in Hs. apply andb_prop in Hs as [Hs1 Hs2].
      destruct (Hx Hs1) as (j & Hj & Hpj).
      destruct (IHxs Hs2) as (js & Hjs & Hpjs).
      exists (j :: js). split; [|simpl; congruence].
      simpl. rewrite Hj. res_simpl. rewrite Hjs. reflexivity. }
    destruct H as (js & Hjs & Hp).
    exists (JArr js). rewrite stringify_arr, Hjs. split; [reflexivity|].
    simpl. rewrite Hp. reflexivity.
  - simpl in Hs. apply andb_prop in Hs as [Hk Hs].
    assert (H : exists js, stringify_fields ps = Ok js /\
                           map (fun kj => (kj.1, parse kj.2)) js = ps).
    { clear Hk. induction IH as [|[k x] ps Hx _ IHps];
        [exists []; split; reflexivity|].
      simpl in Hs. apply andb_prop in Hs as [Hs1 Hs2].
      destruct (Hx Hs1) as (j & Hj & Hpj).
      destruct (IHps Hs2) as (js & Hjs & Hpjs).
      exists ((k, j) :: js). split; [|simpl in *; congruence].
      simpl in *. rewrite Hj. res_simpl. rewrite Hjs. reflexivity. }
    destruct H as (js & Hjs & Hp).
    exists (JObj js). rewrite stringify_obj, Hjs. split; [reflexivity|].
    simpl. rewrite Hp, spread_nil; [reflexivity|].
    apply distinct_keys_NoDup, Hk.
Qed.

End roundtrip.

(** C6, counterexample: a string field that reads like a timestamp is
    written as it is and comes back as a Date, so the sequence read is not
    the sequence written. *)
Lemma timestamp_string_comes_back_as_date :
  (@readJSON sample_runtime "db/Note.json"
     (writeJSON "db/Note.json" noted ∅).1).2
  = Ok (VArr [VObj [("note", VDate (Utc 2020 1 1 0 0 0 0))]]) /\
  VArr [VObj [("note", VDate (Utc 2020 1 1 0 0 0 0))]] <> noted.
Proof. split; [reflexivity|discriminate]. Qed.

(** What else the format does not keep: a property that is undefined is
    dropped, and the invalid Date comes back as null. *)
Example undefined_and_invalid_date_are_lost :
  (@readJSON sample_runtime "f"
     (writeJSON "f" (VArr [VObj [("a", VUndef); ("b", VDate InvalidDate)]])
                ∅).1).2
  = Ok (VArr [VObj [("b", VNull)]]).
Proof. reflexivity. Qed.

(** C6, amended: for every sequence of records made of null, booleans,
    finite numbers, strings that do not have the shape of a timestamp,
    Dates of a four-digit year, and arrays and objects of these,
    [writeJSON] succeeds and [readJSON] from the same path then returns the
    same sequence, every Date a Date again. *)
Theorem store_then_load :
  forall (rt : Runtime) (fs : store) (filePath : string) (docs : list value),
    forallb storable docs = true ->
    (writeJSON filePath (VArr docs) fs).2 = Ok tt /\
    (readJSON filePath (writeJSON filePath (VArr docs) fs).1).2
    = Ok (VArr docs).
Proof.
  intros rt fs filePath docs Hs.
  destruct (stringify_parse (VArr docs) Hs) as (j & Hj & Hp).
  unfold writeJSON. rewrite Hj. simpl. split; [reflexivity|].
  unfold readJSON. rewrite lookup_insert_eq. simpl. rewrite Hp. reflexivity.
Qed.

Lemma store_then_load_witness :
  forallb storable seen = true /\
  (@readJSON sample_runtime "db/Seen.json"
     (writeJSON "db/Seen.json" (VArr seen) ∅).1).2 = Ok (VArr seen).
Proof.
  split; [reflexivity|].
  apply (store_then_load sample_runtime ∅ "db/Seen.json" seen). reflexivity.
Defined.

(** ** [$group]: the groups *)

Lemma slot_lt (ks : list Aggregate.gkey) (k : Aggregate.gkey) (p : nat) :
  slot ks k = Some p -> p < length ks.
Proof.
  revert p. induction ks as [|k0 ks IH]; simpl; intros p H; [discriminate|].
  destruct (Aggregate.key_eqb k0 k).
  - injection H as <-. lia.
  - destruct (slot ks k) as [q|]; [|discriminate].
    injection H as <-. specialize (IH q eq_refl). lia.
Qed.

Lemma slot_key (ks : list Aggregate.gkey) (k : Aggregate.gkey) (p : nat) :
  slot ks k = Some p ->
  exists k0, ks !! p = Some k0 /\ Aggregate.key_eqb k0 k = true.
Proof.
  revert p. induction ks as [|k0 ks IH]; simpl; intros p H; [discriminate|].
  destruct (Aggregate.key_eqb k0 k) eqn:E.
  - injection H as <-. exists k0. split; [reflexivity|exact E].
  - destruct (slot ks k) as [q|]; [|discriminate].
    injection H as <-. exact (IH q eq_refl).
Qed.

Lemma slot_app_some (ks l : list Aggregate.gkey) (k : Aggregate.gkey) (p : nat) :
  slot ks k = Some p -> slot (ks ++ l) k = Some p.
Proof.
  revert p. induction ks as [|k0 ks IH]; simpl; intros p H; [discriminate|].
  destruct (Aggregate.key_eqb k0 k); [exact H|].
  destruct (slot ks k) as [q|]; [|discriminate].
  rewrite (IH q eq_refl). exact H.
Qed.

Lemma slot_app_none (ks : list Aggregate.gkey) (k k' : Aggregate.gkey) :
  slot ks k = None ->
  slot (ks ++ [k']) k
  = if Aggregate.key_eqb k' k then Some (length ks) else None.
Proof.
  induction ks as [|k0 ks IH]; simpl; intros H.
  - destruct (Aggregate.key_eqb k' k); reflexivity.
  - destruct (Aggregate.key_eqb k0 k); [discriminate|].
    destruct (slot ks k) as [q|]; [discriminate|].
    rewrite (IH eq_refl). destruct (Aggregate.key_eqb k' k); reflexivity.
Qed.

Lemma groups_has_slot (k : Aggregate.gkey) (gs : list (Aggregate.gkey * props)) :
  Aggregate.groups_has k gs
  = match slot (map fst gs) k with Some _ => true | None => false end.
Proof.
  unfold Aggregate.groups_has.
  induction gs as [|[k0 g] gs IH]; simpl; [reflexivity|].
  destruct (Aggregate.key_eqb k0 k); simpl; [reflexivity|].
  rewrite IH. destruct (slot (map fst gs) k); reflexivity.
Qed.

Lemma groups_update_slot (k : Aggregate.gkey) (f : props -> res props)
    (gs : list (Aggregate.gkey * props)) (p : nat) (k0 : Aggregate.gkey)
    (g : props) :
  slot (map fst gs) k = Some p -> gs !! p = Some (k0, g) ->
  Aggregate.groups_update k f gs = g' ← f g; Ok (<[p := (k0, g')]> gs).
Proof.
  revert p. induction gs as [|[k1 g1] gs IH]; simpl; intros p Hs Hl;
    [discriminate|].
  destruct (Aggregate.key_eqb k1 k).
  - injection Hs as <-. simpl in Hl. injection Hl as <- <-. reflexivity.
  - destruct (slot (map fst gs) k) as [q|] eqn:E; [|discriminate].
    injection Hs as <-. simpl in Hl. rewrite (IH q eq_refl Hl).
    destruct (f g); reflexivity.
Qed.

Lemma same_value_zero_refl (v : value) :
  is_primitive v = true -> same_value_zero v v = true.
Proof.
  destruct v as [| |b|n|s|d|xs|ps]; try discriminate; intros _; simpl;
    try reflexivity.
  - destruct b; reflexivity.
  - destruct n as [| |q|]; try reflexivity. apply Qeq_bool_refl.
  - apply String.eqb_refl.
Qed.

Section groups_spec.
Context {rt : Runtime}.
Variable grouping : props.

Lemma key_of_refl (idoc : nat * value) :
  Aggregate.key_eqb (key_of grouping idoc) (key_of grouping idoc) = true.
Proof.
  unfold key_of, Aggregate.group_key, Aggregate.key_eqb.
  destruct (strict_eq (obj_get grouping "_id") VNull); [reflexivity|].
  simpl.
  destruct (is_primitive (Aggregate._evaluateExpression _ _)) eqn:E.
  - apply same_value_zero_refl, E.
  - destruct (Aggregate.is_field_reference _); simpl;
      [apply Nat.eqb_refl|reflexivity].
Qed.

Lemma group_step_throw (e : string) (idocs : list (nat * value)) :
  fold_left (Aggregate.group_step grouping) idocs (Throw e) = Throw e.
Proof.
  induction idocs as [|[i d] idocs IH]; simpl; [reflexivity|exact IH].
Qed.

Lemma keys_seen_snoc (idocs : list (nat * value)) (idoc : nat * value) :
  keys_seen grouping (idocs ++ [idoc])
  = see_key grouping (keys_seen grouping idocs) idoc.
Proof. unfold keys_seen. rewrite fold_left_app. reflexivity. Qed.

Lemma members_snoc (idocs : list (nat * value)) (idoc : nat * value)
    (ks : list Aggregate.gkey) (p : nat) :
  members grouping (idocs ++ [idoc]) ks p
  = members grouping idocs ks p
    ++ (if at_slot ks (key_of grouping idoc) p then [idoc] else []).
Proof. unfold members. rewrite List.filter_app. reflexivity. Qed.

Lemma members_stable (idocs : list (nat * value))
    (ks l : list Aggregate.gkey) (p : nat) :
  Forall (fun idoc => is_Some (slot ks (key_of grouping idoc))) idocs ->
  members grouping idocs (ks ++ l) p = members grouping idocs ks p.
Proof.
  intros H. unfold members. apply List.filter_ext_in.
  intros idoc Hin. rewrite List.Forall_forall in H.
  destruct (H idoc Hin) as [q Hq]. unfold at_slot.
  rewrite (slot_app_some ks l _ q Hq), Hq. reflexivity.
Qed.

Lemma accumulate_snoc (idocs : list (nat * value)) (idoc : nat * value) :
  accumulate grouping (idocs ++ [idoc])
  = accumulate grouping idocs ≫= Aggregate.update_group grouping idoc.2.
Proof. unfold accumulate. rewrite fold_left_app. reflexivity. Qed.

End groups_spec.

Lemma map_fst_insert {A B} (l : list (A * B)) (p : nat) (a : A) (b b' : B) :
  l !! p = Some (a, b) -> map fst (<[p := (a, b')]> l) = map fst l.
Proof.
  revert p. induction l as [|[a0 b0] l IH]; intros p H; [reflexivity|].
  destruct p as [|p]; simpl in *.
  - injection H as <- <-. reflexivity.
  - rewrite (IH p H). reflexivity.
Qed.

Lemma members_none_beyond {rt : Runtime} (grouping : props)
    (idocs : list (nat * value)) (ks : list Aggregate.gkey) :
  members grouping idocs ks (length ks) = [].
Proof.
  unfold members. induction idocs as [|idoc idocs IH]; [reflexivity|].
  simpl. rewrite IH. unfold at_slot.
  destruct (slot ks (key_of grouping idoc)) as [q|] eqn:E; [|reflexivity].
  apply slot_lt in E.
  destruct (Nat.eqb_spec q (length ks)); [lia|reflexivity].
Qed.

Section group_loop.
Context {rt : Runtime}.
Variable grouping : props.

(** What the loop of [_group] has built after the records [idocs]: the
    keys in first-seen order, and at every position the accumulators run
    over the records filed there. *)
Lemma group_loop_spec (idocs : list (nat * value)) :
  forall gs,
    fold_left (Aggregate.group_step grouping) idocs (Ok []) = Ok gs ->
    map fst gs = keys_seen grouping idocs /\
    Forall (fun idoc =>
              is_Some (slot (keys_seen grouping idocs) (key_of grouping idoc)))
           idocs /\
    (forall p k group,
        gs !! p = Some (k, group) ->
        accumulate grouping
          (members grouping idocs (keys_seen grouping idocs) p) = Ok group).
Proof.
  induction idocs as [|x idocs IH] using rev_ind; intros gs H.
  - injection H as <-. split; [reflexivity|]. split; [constructor|].
    intros p k group Hl. destruct p; discriminate.
  - rewrite fold_left_app in H. simpl in H.
    destruct (fold_left (Aggregate.group_step grouping) idocs (Ok []))
      as [gs0|e]; [|destruct x; discriminate].
    destruct (IH gs0 eq_refl) as (Hkeys & Hall & Hacc). clear IH.
    rewrite keys_seen_snoc. unfold see_key.
    set (ks := keys_seen grouping idocs) in *.
    destruct x as [i d]. unfold Aggregate.group_step in H.
    change (Aggregate.group_key grouping i d)
      with (key_of grouping (i, d)) in H.
    set (k := key_of grouping (i, d)) in *.
    res_simpl. rewrite groups_has_slot, Hkeys in H.
    destruct (slot ks k) as [p|] eqn:Es.
    + (* the key has been seen *)
      pose proof (slot_lt _ _ _ Es) as Hlt.
      assert (Hlen : length gs0 = length ks)
        by (rewrite <- Hkeys, length_map; reflexivity).
      destruct (lookup_lt_is_Some_2 gs0 p ltac:(lia)) as [[k0 g0] Hp].
      rewrite <- Hkeys in Es.
      rewrite (groups_update_slot k _ gs0 p k0 g0 Es Hp) in H.
      rewrite Hkeys in Es.
      destruct (Aggregate.update_group grouping d g0) as [g'|e] eqn:Eu;
        res_simpl; [|discriminate].
      injection H as <-.
      split; [rewrite (map_fst_insert gs0 p k0 g0 g' Hp); exact Hkeys|].
      split.
      { apply Forall_app. split; [exact Hall|].
        constructor; [|constructor]. fold k. rewrite Es. eauto. }
      intros q kq group Hq. rewrite members_snoc.
      unfold at_slot. fold k. rewrite Es.
      destruct (Nat.eqb_spec p q) as [<-|Hne].
      * rewrite list_lookup_insert_eq in Hq by lia.
        injection Hq as <- <-.
        rewrite accumulate_snoc, (Hacc p k0 g0 Hp). simpl. exact Eu.
      * rewrite list_lookup_insert_ne in Hq by exact Hne.
        rewrite app_nil_r. exact (Hacc q kq group Hq).
    + (* a new key *)
      assert (Hlen : length gs0 = length ks)
        by (rewrite <- Hkeys, length_map; reflexivity).
      destruct (Aggregate.init_group grouping) as [g0|e] eqn:Ei;
        res_simpl; [|discriminate].
      assert (Hs : slot (map fst (gs0 ++ [(k, g0)])) k = Some (length gs0)).
      { rewrite map_app, Hkeys. simpl.
        rewrite (slot_app_none ks k k Es). unfold k.
        rewrite key_of_refl, Hlen. reflexivity. }
      assert (Hp : (gs0 ++ [(k, g0)]) !! length gs0 = Some (k, g0)).
      { rewrite lookup_app_r by lia. rewrite Nat.sub_diag. reflexivity. }
      rewrite (groups_update_slot k _ _ _ k g0 Hs Hp) in H.
      destruct (Aggregate.update_group grouping d g0) as [g'|e] eqn:Eu;
        res_simpl; [|discriminate].
      injection H as <-.
      rewrite insert_app_r_alt by lia. rewrite Nat.sub_diag. simpl.
      assert (Hsk : slot (ks ++ [k]) k = Some (length ks)).
      { rewrite (slot_app_none ks k k Es). unfold k.
        rewrite key_of_refl. reflexivity. }
      split; [rewrite map_app, Hkeys; reflexivity|].
      split.
      { apply Forall_app. split.
        - eapply Forall_impl; [exact Hall|]. intros idoc [q Hq].
          exists q. apply slot_app_some, Hq.
        - constructor; [|constructor]. fold k. rewrite Hsk. eauto. }
      intros q kq group Hq. rewrite members_snoc.
      rewrite (members_stable grouping idocs ks [k] q Hall).
      unfold at_slot. fold k. rewrite Hsk.
      destruct (Nat.eqb_spec (length ks) q) as [<-|Hne].
      * rewrite <- Hlen in Hq. rewrite lookup_app_r in Hq by lia.
        rewrite Nat.sub_diag in Hq. injection Hq as <- <-.
        rewrite members_none_beyond. simpl.
        unfold accumulate. simpl. rewrite Ei. exact Eu.
      * rewrite app_nil_r. apply (Hacc q kq group).
        assert (q < length gs0).
        { apply lookup_lt_Some in Hq. rewrite length_app in Hq.
          simpl in Hq. lia. }
        rewrite lookup_app_l in Hq by lia. exact Hq.
Qed.

End group_loop.

(** *** [_id] in the records of the result *)

Lemma spread_lookup_absent (k : string) (src dst : props) :
  obj_lookup k src = None -> obj_lookup k (spread src dst) = obj_lookup k dst.
Proof.
  revert dst. unfold spread.
  induction src as [|[k1 v1] src IH]; intros dst H; [reflexivity|].
  simpl in *. destruct (String.eqb_spec k1 k) as [->|Hne]; [discriminate|].
  rewrite (IH _ H). apply obj_lookup_set_ne, Hne.
Qed.

Section group_id.
Context {rt : Runtime}.
Variable grouping : props.

Lemma updateAccumulator_no_id (group group' : props) (field : string)
    (spec doc : value) :
  field <> "_id" ->
  Aggregate._updateAccumulator group field spec doc = Ok group' ->
  obj_lookup "_id" group = None -> obj_lookup "_id" group' = None.
Proof.
  intros Hf H Hn. unfold Aggregate._updateAccumulator in H.
  destruct (Aggregate.first_key spec) as [op|e]; res_simpl; [|discriminate].
  assert (Hset : forall v, obj_lookup "_id" (obj_set field v group) = None)
    by (intros v; rewrite obj_lookup_set_ne by exact Hf; exact Hn).
  repeat match type of H with
         | match ?x with _ => _ end = _ => destruct x; try discriminate
         | Ok _ = Ok _ => injection H as <-
         end; try apply Hset; try exact Hn.
Qed.

Lemma fold_no_id_throw {A} (f : res props -> A -> res props) (l : list A)
    (e : string) :
  (forall x, f (Throw e) x = Throw e) -> fold_left f l (Throw e) = Throw e.
Proof.
  intros Hf. induction l as [|x l IH]; simpl; [reflexivity|].
  rewrite Hf. exact IH.
Qed.

Lemma init_group_no_id (group : props) :
  Aggregate.init_group grouping = Ok group -> obj_lookup "_id" group = None.
Proof.
  unfold Aggregate.init_group.
  assert (H : forall l acc,
    obj_lookup "_id" acc = None ->
    fold_left
      (fun group fa =>
         if String.eqb fa.1 "_id" then group
         else g ← group; a ← Aggregate._initializeAccumulator fa.2;
              Ok (obj_set fa.1 a g)) l (Ok acc) = Ok group ->
    obj_lookup "_id" group = None).
  { induction l as [|[f a] l IH]; intros acc Hn H.
    - injection H as <-. exact Hn.
    - simpl in H. destruct (String.eqb_spec f "_id") as [->|Hne].
      + exact (IH acc Hn H).
      + res_simpl.
        destruct (Aggregate._initializeAccumulator a) as [v|e].
        * apply (IH (obj_set f v acc)); [|exact H].
          rewrite obj_lookup_set_ne by exact Hne. exact Hn.
        * rewrite fold_no_id_throw in H; [discriminate|].
          intros [f' a']. simpl. destruct (String.eqb f' "_id"); reflexivity. }
  apply (H grouping []). reflexivity.
Qed.

Lemma update_group_no_id (doc : value) (group group' : props) :
  Aggregate.update_group grouping doc group = Ok group' ->
  obj_lookup "_id" group = None -> obj_lookup "_id" group' = None.
Proof.
  unfold Aggregate.update_group. revert group.
  induction grouping as [|[f a] l IH]; intros group H Hn.
  - injection H as <-. exact Hn.
  - simpl in H. destruct (String.eqb_spec f "_id") as [->|Hne].
    + exact (IH group H Hn).
    + res_simpl.
      destruct (Aggregate._updateAccumulator group f a doc) as [g1|e] eqn:E.
      * apply (IH g1 H).
        exact (updateAccumulator_no_id group g1 f a doc Hne E Hn).
      * rewrite fold_no_id_throw in H; [discriminate|].
        intros [f' a']. simpl. destruct (String.eqb f' "_id"); reflexivity.
Qed.

Lemma accumulate_no_id (idocs : list (nat * value)) (group : props) :
  accumulate grouping idocs = Ok group -> obj_lookup "_id" group = None.
Proof.
  revert group. induction idocs as [|x idocs IH] using rev_ind; intros group H.
  - apply init_group_no_id, H.
  - rewrite accumulate_snoc in H.
    destruct (accumulate grouping idocs) as [g0|e]; [|discriminate].
    simpl in H. exact (update_group_no_id _ g0 group H (IH g0 eq_refl)).
Qed.

Lemma group_record_id (k : Aggregate.gkey) (group : props) :
  obj_lookup "_id" group = None ->
  get_own (Aggregate.group_record (k, group)) "_id"
  = if strict_eq (Aggregate.k_value k) (VStr "null") then VNull
    else Aggregate.k_value k.
Proof.
  intros H. simpl. unfold obj_get.
  rewrite (spread_lookup_absent "_id" group _ H). reflexivity.
Qed.

(** A key holds an origin exactly when its value is an object. *)
Lemma key_of_origin (idoc : nat * value) :
  Aggregate.k_origin (key_of grouping idoc) = None <->
  is_primitive (Aggregate.k_value (key_of grouping idoc)) = true.
Proof.
  unfold key_of, Aggregate.group_key.
  destruct (strict_eq (obj_get grouping "_id") VNull); simpl; [tauto|].
  destruct (is_primitive (Aggregate._evaluateExpression _ _)); simpl.
  - tauto.
  - split; discriminate.
Qed.

Lemma keys_seen_are_keys (idocs : list (nat * value)) :
  Forall (fun k => exists idoc, k = key_of grouping idoc)
         (keys_seen grouping idocs).
Proof.
  induction idocs as [|x idocs IH] using rev_ind; [constructor|].
  rewrite keys_seen_snoc. unfold see_key.
  destruct (slot _ _); [exact IH|].
  apply Forall_app. split; [exact IH|]. constructor; [eauto|constructor].
Qed.

End group_id.

(** Two keys the [Map] takes for equal are the same key when one of them
    is the string ['null'] or null. *)
Lemma key_eqb_null (a b : Aggregate.gkey) :
  (Aggregate.k_origin a = None <-> is_primitive (Aggregate.k_value a) = true) ->
  (Aggregate.k_origin b = None <-> is_primitive (Aggregate.k_value b) = true) ->
  Aggregate.k_value b = VStr "null" \/ Aggregate.k_value b = VNull ->
  Aggregate.key_eqb a b = true \/ Aggregate.key_eqb b a = true -> a = b.
Proof.
  destruct a as [va oa], b as [vb ob]. simpl. intros Ha Hb Hv He.
  assert (ob = None) by (apply Hb; destruct Hv as [->| ->]; reflexivity).
  subst ob. unfold Aggregate.key_eqb in He. simpl in He.
  destruct oa as [o|]; [destruct He; discriminate|].
  f_equal.
  destruct Hv as [->| ->];
    destruct va as [| |b|[| |q|]|s|d|xs|ps];
    cbv [same_value_zero strict_eq] in He;
    try (destruct He; discriminate); try reflexivity.
  destruct He as [He|He]; apply String.eqb_eq in He; congruence.
Qed.

(** *** [_group] returns *)

Section group_total.
Context {rt : Runtime}.
Variable grouping : props.
Hypothesis Hok : grouping_ok grouping.

Lemma first_key_ok (spec : value) :
  nullish spec = false -> exists op, Aggregate.first_key spec = Ok op.
Proof.
  intros H. unfold Aggregate.first_key. rewrite H. eauto.
Qed.

Lemma obj_get_set_eq (k : string) (v : value) (ps : props) :
  obj_get (obj_set k v ps) k = v.
Proof. unfold obj_get. rewrite obj_lookup_set_eq. reflexivity. Qed.

Lemma updateAccumulator_total (group : props) (f : string) (spec doc : value) :
  In (f, spec) grouping -> f <> "_id" ->
  avg_ready grouping group ->
  exists group',
    Aggregate._updateAccumulator group f spec doc = Ok group' /\
    avg_ready grouping group'.
Proof.
  intros Hin Hf Hready. destruct Hok as [Hnd Hspecs].
  rewrite List.Forall_forall in Hspecs.
  destruct (first_key_ok spec (Hspecs (f, spec) Hin Hf)) as [op Hop].
  assert (Hother : forall v,
    Aggregate.first_key spec <> Ok (Some "$avg") ->
    avg_ready grouping (obj_set f v group)).
  { intros v Hne f2 spec2 Hin2 Hf2 Havg.
    destruct (String.eqb_spec f f2) as [<-|Hff].
    - rewrite (NoDup_fst_functional grouping f spec spec2 Hnd Hin Hin2) in Hne.
      contradiction.
    - rewrite obj_get_set_ne by exact Hff. exact (Hready f2 spec2 Hin2 Hf2 Havg). }
  unfold Aggregate._updateAccumulator. rewrite Hop. res_simpl.
  destruct op as [op|]; [|eauto].
  destruct (String.eqb_spec op "$sum") as [->|Hsum].
  { eexists. split; [reflexivity|]. apply Hother. rewrite Hop. discriminate. }
  destruct (String.eqb_spec op "$avg") as [->|Havg].
  { destruct (Hready f spec Hin Hf Hop) as [ps Hps]. rewrite Hps.
    unfold js_get. simpl. eexists. split; [reflexivity|].
    intros f2 spec2 Hin2 Hf2 Havg2.
    destruct (String.eqb_spec f f2) as [<-|Hff].
    - rewrite obj_get_set_eq. eauto.
    - rewrite obj_get_set_ne by exact Hff.
      exact (Hready f2 spec2 Hin2 Hf2 Havg2). }
  destruct (String.eqb_spec op "$min") as [->|Hmin].
  { eexists. split; [reflexivity|]. apply Hother. rewrite Hop. discriminate. }
  destruct (String.eqb_spec op "$max") as [->|Hmax].
  { eexists. split; [reflexivity|]. apply Hother. rewrite Hop. discriminate. }
  exists group. split; [|exact Hready].
  repeat match goal with
         | |- context [match ?s with EmptyString => _ | String _ _ => _ end] =>
             destruct s; try reflexivity
         | |- context [match ?c with Ascii _ _ _ _ _ _ _ _ => _ end] =>
             destruct c
         | |- context [if ?b then _ else _] =>
             destruct b; try reflexivity
         end; congruence.
Qed.

Lemma update_group_total (doc : value) (group : props) :
  avg_ready grouping group ->
  exists group',
    Aggregate.update_group grouping doc group = Ok group' /\
    avg_ready grouping group'.
Proof.
  unfold Aggregate.update_group.
  assert (H : forall entries group0,
    (forall e, In e entries -> In e grouping) ->
    avg_ready grouping group0 ->
    exists group',
      fold_left
        (fun group fa =>
           if String.eqb fa.1 "_id" then group
           else g ← group; Aggregate._updateAccumulator g fa.1 fa.2 doc)
        entries (Ok group0) = Ok group' /\
      avg_ready grouping group').
  { induction entries as [|[f spec] entries IH]; intros group0 Hsub Hready.
    - exists group0. split; [reflexivity|exact Hready].
    - simpl. destruct (String.eqb_spec f "_id") as [->|Hf].
      + apply IH; [intros e He; apply Hsub; right; exact He|exact Hready].
      + res_simpl.
        destruct (updateAccumulator_total group0 f spec doc
                    (Hsub _ (or_introl eq_refl)) Hf Hready)
          as (g1 & Hg1 & Hr1).
        rewrite Hg1. apply IH; [intros e He; apply Hsub; right; exact He|].
        exact Hr1. }
  intros Hready. apply H; [auto|exact Hready].
Qed.

Lemma init_group_total :
  exists group,
    Aggregate.init_group grouping = Ok group /\ avg_ready grouping group.
Proof.
  unfold Aggregate.init_group. destruct Hok as [Hnd Hspecs].
  assert (H : forall done todo acc,
    grouping = done ++ todo ->
    avg_ready done acc ->
    exists group,
      fold_left
        (fun group fa =>
           if String.eqb fa.1 "_id" then group
           else g ← group; a ← Aggregate._initializeAccumulator fa.2;
                Ok (obj_set fa.1 a g))
        todo (Ok acc) = Ok group /\
      avg_ready grouping group).
  { intros done todo. revert done.
    induction todo as [|[f spec] todo IH]; intros done acc Hg Hready.
    - rewrite app_nil_r in Hg. subst done. exists acc.
      split; [reflexivity|exact Hready].
    - simpl.
      assert (Hg' : grouping = (done ++ [(f, spec)]) ++ todo)
        by (rewrite <- app_assoc; exact Hg).
      destruct (String.eqb_spec f "_id") as [->|Hf].
      + apply (IH (done ++ [("_id", spec)]) acc Hg').
        intros f2 spec2 Hin Hf2 Havg.
        apply in_app_or in Hin as [Hin|[Hin|[]]];
          [exact (Hready f2 spec2 Hin Hf2 Havg)|congruence].
      + res_simpl.
        assert (Hin : In (f, spec) grouping)
          by (rewrite Hg; apply in_or_app; right; left; reflexivity).
        rewrite List.Forall_forall in Hspecs.
        destruct (first_key_ok spec (Hspecs (f, spec) Hin Hf)) as [op Hop].
        unfold Aggregate._initializeAccumulator. rewrite Hop. res_simpl.
        apply (IH (done ++ [(f, spec)]) _ Hg').
        intros f2 spec2 Hin2 Hf2 Havg.
        apply in_app_or in Hin2 as [Hin2|[Hin2|[]]].
        * assert (Hff : f <> f2).
          { intros <-. rewrite Hg in Hnd. rewrite map_app in Hnd.
            simpl in Hnd. apply List.NoDup_remove_2 in Hnd. apply Hnd.
            apply in_or_app. left. apply (in_map fst) in Hin2. exact Hin2. }
          rewrite obj_get_set_ne by exact Hff.
          exact (Hready f2 spec2 Hin2 Hf2 Havg).
        * injection Hin2 as <- <-. rewrite obj_get_set_eq.
          rewrite Hop in Havg. injection Havg as ->. eauto. }
  apply (H [] grouping []); [reflexivity|].
  intros f spec [].
Qed.

Lemma groups_update_total (key : Aggregate.gkey) (doc : value)
    (gs : list (Aggregate.gkey * props)) :
  Forall (fun g => avg_ready grouping g.2) gs ->
  exists gs',
    Aggregate.groups_update key (Aggregate.update_group grouping doc) gs
    = Ok gs' /\
    Forall (fun g => avg_ready grouping g.2) gs'.
Proof.
  induction gs as [|[k g] gs IH]; intros H.
  - exists []. split; [reflexivity|constructor].
  - inversion H as [|? ? Hg Hgs]; subst. simpl in *.
    destruct (Aggregate.key_eqb k key).
    + destruct (update_group_total doc g Hg) as (g' & Hg' & Hr').
      rewrite Hg'. res_simpl. eexists. split; [reflexivity|].
      constructor; assumption.
    + destruct (IH Hgs) as (gs' & Hgs' & Hr'). rewrite Hgs'. res_simpl.
      eexists. split; [reflexivity|]. constructor; assumption.
Qed.

(** With such a grouping [_group] returns, whatever the records. *)
Lemma group_total (docs : list value) :
  exists out, Aggregate._group docs grouping = Ok out.
Proof.
  unfold Aggregate._group.
  assert (H : forall idocs gs,
    Forall (fun g => avg_ready grouping g.2) gs ->
    exists gs', fold_left (Aggregate.group_step grouping) idocs (Ok gs)
                = Ok gs').
  { induction idocs as [|[i d] idocs IH]; intros gs Hgs; [eauto|].
    simpl. res_simpl.
    destruct (Aggregate.groups_has (Aggregate.group_key grouping i d) gs).
    - res_simpl.
      destruct (groups_update_total (Aggregate.group_key grouping i d) d gs Hgs)
        as (gs' & Hgs' & Hr').
      rewrite Hgs'. apply IH, Hr'.
    - destruct init_group_total as (g0 & Hg0 & Hr0). rewrite Hg0. res_simpl.
      destruct (groups_update_total (Aggregate.group_key grouping i d) d
                  (gs ++ [(Aggregate.group_key grouping i d, g0)]))
        as (gs' & Hgs' & Hr').
      { apply Forall_app. split; [exact Hgs|]. constructor; [exact Hr0|constructor]. }
      rewrite Hgs'. apply IH, Hr'. }
  destruct (H (imap (fun i doc => (i, doc)) docs) []) as [gs Hgs]; [constructor|].
  rewrite Hgs. eexists. reflexivity.
Qed.

End group_total.

Lemma indexed_lookup (docs : list value) (i : nat) (d : value) :
  docs !! i = Some d -> In (i, d) (indexed docs).
Proof.
  intros H. apply list_elem_of_In. apply list_elem_of_lookup. exists i.
  unfold indexed. rewrite list_lookup_imap, H. reflexivity.
Qed.

(** What a result of [_group] holds for the keys ['null'] and null. *)
Lemma null_keys_of_result :
  forall (rt : Runtime) (docs : list value) (grouping : props)
         (out : list value),
    Aggregate._group docs grouping = Ok out ->
    (obj_get grouping "_id" = VNull ->
     forall i d,
       Aggregate.group_key grouping i d
       = {| Aggregate.k_value := VStr "null"; Aggregate.k_origin := None |}) /\
    (forall f, obj_get grouping "_id" = VStr (String "$" f) ->
     forall i d,
       Aggregate.k_value (Aggregate.group_key grouping i d)
       = Aggregate._getFieldValue d f) /\
    (forall i d,
        docs !! i = Some d ->
        Aggregate.k_value (Aggregate.group_key grouping i d) = VStr "null" \/
        Aggregate.k_value (Aggregate.group_key grouping i d) = VNull ->
        exists p group,
          slot (keys_seen grouping (indexed docs))
               (Aggregate.group_key grouping i d) = Some p /\
          out !! p
          = Some (Aggregate.group_record
                    (Aggregate.group_key grouping i d, group)) /\
          get_own (Aggregate.group_record
                     (Aggregate.group_key grouping i d, group)) "_id" = VNull /\
          accumulate grouping
            (members grouping (indexed docs)
                     (keys_seen grouping (indexed docs)) p) = Ok group /\
          forall j d',
            docs !! j = Some d' ->
            (In (j, d') (members grouping (indexed docs)
                                 (keys_seen grouping (indexed docs)) p) <->
             Aggregate.k_value (Aggregate.group_key grouping j d')
             = Aggregate.k_value (Aggregate.group_key grouping i d))).
Proof.
  intros rt docs grouping out H.
  split.
  { intros Hid i d. unfold Aggregate.group_key. rewrite Hid. reflexivity. }
  split.
  { intros f Hid i d. unfold Aggregate.group_key. rewrite Hid. reflexivity. }
  intros i d Hd Hv.
  unfold Aggregate._group in H. fold (indexed docs) in H.
  destruct (fold_left (Aggregate.group_step grouping) (indexed docs) (Ok []))
    as [gs|e] eqn:Hfold; [|discriminate].
  simpl in H. injection H as <-.
  destruct (group_loop_spec grouping (indexed docs) gs Hfold)
    as (Hkeys & Hall & Hacc).
  set (ks := keys_seen grouping (indexed docs)) in *.
  change (Aggregate.group_key grouping i d) with (key_of grouping (i, d)) in *.
  set (k := key_of grouping (i, d)) in *.
  (* the position of the key *)
  rewrite List.Forall_forall in Hall.
  destruct (Hall (i, d) (indexed_lookup docs i d Hd)) as [p Hp]. fold k in Hp.
  destruct (slot_key ks k p Hp) as (kp & Hkp & Heq).
  assert (Hkpk : kp = k).
  { pose proof (keys_seen_are_keys grouping (indexed docs)) as Hks.
    rewrite List.Forall_forall in Hks.
    destruct (Hks kp) as [idoc ->].
    { apply list_elem_of_In. eapply list_elem_of_lookup_2. exact Hkp. }
    apply key_eqb_null; [apply key_of_origin|apply key_of_origin|exact Hv|].
    left. exact Heq. }
  subst kp.
  assert (Hgs : exists group, gs !! p = Some (k, group)).
  { assert (Hl : map fst gs !! p = Some k) by (rewrite Hkeys; exact Hkp).
    change (map fst gs) with (fst <$> gs) in Hl.
    rewrite list_lookup_fmap in Hl.
    destruct (gs !! p) as [[k0 g0]|]; [|discriminate].
    simpl in Hl. injection Hl as ->. eauto. }
  destruct Hgs as [group Hgs].
  pose proof (Hacc p k group Hgs) as Hgroup.
  exists p, group.
  split; [exact Hp|]. split.
  { change (map Aggregate.group_record gs)
      with (Aggregate.group_record <$> gs).
    rewrite list_lookup_fmap, Hgs. reflexivity. }
  split.
  { rewrite (group_record_id k group (accumulate_no_id grouping _ group Hgroup)).
    destruct Hv as [-> | ->]; reflexivity. }
  split; [exact Hgroup|].
  intros j d' Hj.
  change (Aggregate.group_key grouping j d') with (key_of grouping (j, d')).
  unfold members. rewrite List.filter_In. unfold at_slot.
  split.
  - intros [_ Hs].
    destruct (slot ks (key_of grouping (j, d'))) as [q|] eqn:Eq;
      [|discriminate].
    apply Nat.eqb_eq in Hs. subst q.
    destruct (slot_key ks _ p Eq) as (kp & Hkp' & Heq').
    rewrite Hkp in Hkp'. injection Hkp' as <-.
    assert (Hk' : key_of grouping (j, d') = k).
    { apply key_eqb_null;
        [apply key_of_origin|apply key_of_origin|exact Hv|right; exact Heq']. }
    rewrite Hk'. reflexivity.
  - intros Hval. split; [apply indexed_lookup, Hj|].
    assert (Hk' : key_of grouping (j, d') = k).
    { apply key_eqb_null; [apply key_of_origin|apply key_of_origin|exact Hv|].
      left.
      assert (Ho : Aggregate.k_origin k = None).
      { apply (proj2 (key_of_origin grouping (i, d))). fold k.
        destruct Hv as [-> | ->]; reflexivity. }
      assert (Ho' : Aggregate.k_origin (key_of grouping (j, d')) = None).
      { apply (proj2 (key_of_origin grouping (j, d'))). rewrite Hval.
        destruct Hv as [-> | ->]; reflexivity. }
      unfold Aggregate.key_eqb. rewrite Ho, Ho', Hval.
      apply same_value_zero_refl.
      destruct Hv as [-> | ->]; reflexivity. }
    rewrite Hk', Hp. apply Nat.eqb_refl.
Qed.

(** C10: [_group] returns for every grouping whose accumulators are
    objects.  With the literal null as grouping key every record is filed
    under the string ['null']; with a field reference a record is filed
    under the value of the field.  A record filed under the string ['null']
    or under null is accumulated in the output record at the position where
    that key was first seen, together with exactly the records that have
    the same value, and that output record has [_id] null in both cases: the
    records with the string and the records with null make two groups, each
    labelled null. *)
Theorem null_string_and_null_both_labelled_null :
  forall (rt : Runtime) (docs : list value) (grouping : props),
    grouping_ok grouping ->
    exists out,
      Aggregate._group docs grouping = Ok out /\
      (obj_get grouping "_id" = VNull ->
       forall i d,
         Aggregate.group_key grouping i d
         = {| Aggregate.k_value := VStr "null"; Aggregate.k_origin := None |}) /\
      (forall f, obj_get grouping "_id" = VStr (String "$" f) ->
       forall i d,
         Aggregate.k_value (Aggregate.group_key grouping i d)
         = Aggregate._getFieldValue d f) /\
      (forall i d,
          docs !! i = Some d ->
          Aggregate.k_value (Aggregate.group_key grouping i d) = VStr "null" \/
          Aggregate.k_value (Aggregate.group_key grouping i d) = VNull ->
          exists p group,
            slot (keys_seen grouping (indexed docs))
                 (Aggregate.group_key grouping i d) = Some p /\
            out !! p
            = Some (Aggregate.group_record
                      (Aggregate.group_key grouping i d, group)) /\
            get_own (Aggregate.group_record
                       (Aggregate.group_key grouping i d, group)) "_id"
            = VNull /\
            accumulate grouping
              (members grouping (indexed docs)
                       (keys_seen grouping (indexed docs)) p) = Ok group /\
            forall j d',
              docs !! j = Some d' ->
              (In (j, d') (members grouping (indexed docs)
                                   (keys_seen grouping (indexed docs)) p) <->
               Aggregate.k_value (Aggregate.group_key grouping j d')
               = Aggregate.k_value (Aggregate.group_key grouping i d))).
Proof.
  intros rt docs grouping Hok.
  destruct (group_total grouping Hok docs) as [out Hout].
  exists out. split; [exact Hout|].
  exact (null_keys_of_result rt docs grouping out Hout).
Qed.

Lemma null_string_and_null_both_labelled_null_witness :
  grouping_ok count_by_tag /\
  exists out,
    @Aggregate._group sample_runtime null_tagged count_by_tag = Ok out /\
    out = [VObj [("_id", VNull); ("n", VNum (num_of_Z 2))];
           VObj [("_id", VNull); ("n", VNum (num_of_Z 1))]] /\
    exists p group,
      out !! p
      = Some (Aggregate.group_record
                (Aggregate.group_key count_by_tag 1 (VObj [("tag", VNull)]),
                 group)) /\
      (In (0, VObj [("tag", VStr "null")])
          (members count_by_tag (indexed null_tagged)
             (keys_seen count_by_tag (indexed null_tagged)) p)
       <-> VStr "null" = VNull).
Proof.
  assert (Hok : grouping_ok count_by_tag).
  { split.
    - constructor; [simpl; intros [H|[]]; discriminate|].
      constructor; [simpl; tauto|constructor].
    - repeat constructor. }
  split; [exact Hok|].
  destruct (null_string_and_null_both_labelled_null sample_runtime
              null_tagged count_by_tag Hok) as (out & Hout & _ & _ & H).
  exists out. split; [exact Hout|].
  split.
  { assert (Hc : @Aggregate._group sample_runtime null_tagged count_by_tag
                 = Ok [VObj [("_id", VNull); ("n", VNum (num_of_Z 2))];
                       VObj [("_id", VNull); ("n", VNum (num_of_Z 1))]])
      by reflexivity.
    rewrite Hc in Hout. injection Hout as <-. reflexivity. }
  destruct (H 1 (VObj [("tag", VNull)]) eq_refl (or_intror eq_refl))
    as (p & group & _ & Hp & _ & _ & Hmem).
  exists p, group. split; [exact Hp|].
  exact (Hmem 0 (VObj [("tag", VStr "null")]) eq_refl).
Defined.

(** ** Identifiers *)

Lemma obj_set_keys (k : string) (v : value) (ps : props) :
  List.NoDup (map fst ps) -> List.NoDup (map fst (obj_set k v ps)).
Proof.
  intros Hnd.
  destruct (obj_lookup k ps) eqn:E.
  - assert (H : map fst (obj_set k v ps) = map fst ps); [|rewrite H; exact Hnd].
    clear Hnd. induction ps as [|[k' v'] ps IH]; [discriminate|].
    simpl in *. destruct (String.eqb_spec k' k) as [->|Hne]; [reflexivity|].
    simpl. rewrite (IH E). reflexivity.
  - apply obj_lookup_none_iff in E. rewrite obj_set_fresh by exact E.
    rewrite map_app. simpl.
    apply List.NoDup_app; [exact Hnd|constructor; [simpl; tauto|constructor]|].
    intros x Hx [<-|[]]. contradiction.
Qed.

Lemma spread_keys (src dst : props) :
  List.NoDup (map fst dst) -> List.NoDup (map fst (spread src dst)).
Proof.
  revert dst. unfold spread.
  induction src as [|[k v] src IH]; intros dst H; [exact H|].
  simpl. apply IH, obj_set_keys, H.
Qed.

Section reload.
Context {rt : Runtime}.









(** Reading the collection leaves a store in which it reads the same. *)
Lemma readJSON_stored (m : Model.t) (fs : store) (v : value) :
  stored m fs = Ok v ->
  exists fs1, readJSON (Model.collectionPath m) fs = (fs1, Ok v) /\
              stored m fs1 = Ok v.
Proof.
  unfold stored, readJSON.
  destruct (fs !! Model.collectionPath m) as [[|j|]|] eqn:E; simpl.
  - intros H. injection H as <-. eexists. split; [reflexivity|].
    rewrite lookup_insert_eq. reflexivity.
  - intros H. exists fs. rewrite E. split; [rewrite <- H|]; auto.
  - discriminate.
  - intros H. injection H as <-. eexists. split; [reflexivity|].
    rewrite lookup_insert_eq. reflexivity.
Qed.

End reload.

Lemma has_key_lookup (k : string) (ps : props) :
  has_key k ps = false <-> obj_lookup k ps = None.
Proof.
  unfold has_key. destruct (obj_lookup k ps); split; congruence.
Qed.

Lemma objectid_not_iso (s : string) : is_objectid s = true -> iso_like s = false.
Proof.
  unfold is_objectid, iso_like. intros H. apply andb_prop in H as [_ H].
  destruct (list_ascii_of_string s) as [|c0 [|c1 [|c2 [|c3 [|c4 l]]]]];
    try reflexivity;
    try (unfold iso_pattern; cbn [atoms_match atom_matches];
         rewrite ?andb_false_r; reflexivity).
  simpl in H. repeat (apply andb_prop in H as [? H]).
  assert (Hc : Ascii.eqb c4 "-" = false).
  { destruct (Ascii.eqb_spec c4 "-"%char) as [->|]; [discriminate|reflexivity]. }
  unfold iso_pattern. cbn [atoms_match atom_matches]. rewrite Hc.
  rewrite !andb_false_r. reflexivity.
Qed.








Section operations.
Context {rt : Runtime}.
Variable m : Model.t.








End operations.




(** * Further properties of the code *)

(** ** The file store *)

(** X1: [readJSON] on a missing or blank file writes the empty array there
    and returns it; it never touches another file; and a second read
    returns what the first returned and changes nothing more. *)
Theorem readJSON_creates_and_settles :
  forall (rt : Runtime) (fs : store) (filePath : string),
    (fs !! filePath = None \/ fs !! filePath = Some Blank ->
     readJSON filePath fs
     = (<[filePath := Json (JArr [])]> fs, Ok (VArr []))) /\
    (forall other, other <> filePath ->
                   (readJSON filePath fs).1 !! other = fs !! other) /\
    readJSON filePath (readJSON filePath fs).1
    = ((readJSON filePath fs).1, (readJSON filePath fs).2).
Proof.
  intros rt fs filePath. unfold readJSON, io_bind, writeJSON, io_ret.
  destruct (fs !! filePath) as [[|j|]|] eqn:E; simpl.
  - split; [reflexivity|]. split.
    + intros other Hne. apply lookup_insert_ne. congruence.
    + rewrite lookup_insert_eq. reflexivity.
  - split; [intros [H|H]; discriminate|]. split; [reflexivity|].
    rewrite E. reflexivity.
  - split; [intros [H|H]; discriminate|]. split; [reflexivity|].
    rewrite E. reflexivity.
  - split; [reflexivity|]. split.
    + intros other Hne. apply lookup_insert_ne. congruence.
    + rewrite lookup_insert_eq. reflexivity.
Qed.

Lemma readJSON_creates_and_settles_witness :
  (∅ : store) !! "db/User.json" = None /\
  @readJSON sample_runtime "db/User.json" ∅
  = ({[ "db/User.json" := Json (JArr []) ]}, Ok (VArr [])).
Proof.
  split; [reflexivity|].
  destruct (readJSON_creates_and_settles sample_runtime ∅ "db/User.json")
    as (H & _).
  rewrite (H (or_introl eq_refl)). reflexivity.
Defined.

(** ** Criteria of [_matchQuery] *)

(** X2: a criterion that is a Date, an empty object or an empty array has
    no entry to test and lets every record through, so a query for
    equality with a Date returns what the query without conditions
    returns; a criterion that is a non-empty array rejects every record,
    because its first entry, named ["0"], is no operator. *)
Theorem date_criterion_matches_every_record :
  forall (rt : Runtime) (key : string),
    (forall doc d, Model._matchQuery doc [(key, VDate d)] = Ok true) /\
    (forall doc, Model._matchQuery doc [(key, VObj [])] = Ok true) /\
    (forall doc, Model._matchQuery doc [(key, VArr [])] = Ok true) /\
    (forall doc x xs,
        Model._matchQuery doc [(key, VArr (x :: xs))] = Ok false) /\
    (forall m d fs, exec (find m [(key, VDate d)]) fs = exec (find m []) fs).
Proof.
  intros rt key. repeat split; reflexivity.
Qed.

(** X3: a record that is an object and has nothing at the field, for a
    field name that is no member of [Object.prototype], so that the value
    read is undefined, passes none of the comparisons [$gt], [$gte], [$lt]
    and [$lte], whatever the operand, and is not found by a query for
    null; it passes [$ne] for every operand but undefined. *)
Theorem missing_field_fails_every_comparison :
  forall (rt : Runtime) (ps : props) (key : string) (operand : value),
    ordinary key = true ->
    obj_get ps key = VUndef ->
    Model._matchQuery (VObj ps) [(key, VObj [("$gt", operand)])] = Ok false /\
    Model._matchQuery (VObj ps) [(key, VObj [("$gte", operand)])] = Ok false /\
    Model._matchQuery (VObj ps) [(key, VObj [("$lt", operand)])] = Ok false /\
    Model._matchQuery (VObj ps) [(key, VObj [("$lte", operand)])] = Ok false /\
    Model._matchQuery (VObj ps) [(key, VNull)] = Ok false /\
    (operand <> VUndef ->
     Model._matchQuery (VObj ps) [(key, VObj [("$ne", operand)])] = Ok true).
Proof.
  intros rt ps key operand _ Hget.
  unfold Model._matchQuery. simpl. rewrite ?Hget. simpl.
  unfold js_gt, js_ge, js_lt, js_le, js_less.
  change (to_primitive true VUndef) with VUndef.
  assert (Hl : forall x, num_less NaN x = None) by reflexivity.
  assert (Hr : forall x, num_less x NaN = None) by (intros []; reflexivity).
  repeat split;
    try (destruct (to_primitive true operand); cbn [prim_to_number];
         rewrite ?Hl, ?Hr; reflexivity).
  intros Hne. destruct operand; try reflexivity. contradiction.
Qed.

Lemma missing_field_fails_every_comparison_witness :
  ordinary "age" = true /\
  obj_get [("name", VStr "a")] "age" = VUndef /\
  @Model._matchQuery sample_runtime (VObj [("name", VStr "a")])
    [("age", VObj [("$lt", VNum (num_of_Z 30))])] = Ok false.
Proof.
  split; [reflexivity|]. split; [reflexivity|].
  destruct (missing_field_fails_every_comparison sample_runtime
              [("name", VStr "a")] "age" (VNum (num_of_Z 30))
              eq_refl eq_refl)
    as (_ & _ & H & _).
  exact H.
Defined.

(** X4: [$nin] accepts a record exactly when [$in] with the same operand
    rejects it, and throws when [$in] throws; an operand that is no array
    makes both throw a TypeError on every record; the empty array is in
    nothing, so [$in] with it rejects and [$nin] with it accepts. *)
Theorem nin_is_the_negation_of_in :
  forall (rt : Runtime) (doc : value) (key : string) (operand : value),
    Model._matchQuery doc [(key, VObj [("$nin", operand)])]
    = negb <$> Model._matchQuery doc [(key, VObj [("$in", operand)])] /\
    (is_array operand = false ->
     is_ok (Model._matchQuery doc [(key, VObj [("$in", operand)])]) = false) /\
    (nullish doc = false ->
     Model._matchQuery doc [(key, VObj [("$in", VArr [])])] = Ok false /\
     Model._matchQuery doc [(key, VObj [("$nin", VArr [])])] = Ok true).
Proof.
  intros rt doc key operand. unfold Model._matchQuery. simpl.
  unfold js_get, Model.some_included, Model.as_array.
  destruct (nullish doc) eqn:Hn; simpl.
  - split; [reflexivity|]. split; [reflexivity|discriminate].
  - split; [|split].
    + destruct operand; try reflexivity. simpl.
      destruct (existsb _ xs); reflexivity.
    + intros Ha. destruct operand; try reflexivity. discriminate.
    + intros _. split; reflexivity.
Qed.

Lemma nin_is_the_negation_of_in_witness :
  is_array (VNum (num_of_Z 5)) = false /\
  nullish (VObj [("n", VNum (num_of_Z 5))]) = false /\
  is_ok (@Model._matchQuery sample_runtime (VObj [("n", VNum (num_of_Z 5))])
           [("n", VObj [("$in", VNum (num_of_Z 5))])]) = false /\
  @Model._matchQuery sample_runtime (VObj [("n", VNum (num_of_Z 5))])
    [("n", VObj [("$nin", VArr [])])] = Ok true.
Proof.
  split; [reflexivity|]. split; [reflexivity|].
  destruct (nin_is_the_negation_of_in sample_runtime
              (VObj [("n", VNum (num_of_Z 5))]) "n" (VNum (num_of_Z 5)))
    as (_ & Hthrow & Hempty).
  split; [exact (Hthrow eq_refl)|]. exact (proj2 (Hempty eq_refl)).
Defined.

(** ** The query builder *)

Lemma obj_set_twice (k : string) (v1 v2 : value) (ps : props) :
  obj_set k v2 (obj_set k v1 ps) = obj_set k v2 ps.
Proof.
  induction ps as [|[k' v'] ps IH]; simpl.
  - rewrite String.eqb_refl. reflexivity.
  - destruct (String.eqb_spec k' k) as [->|Hne]; simpl.
    + rewrite String.eqb_refl. reflexivity.
    + destruct (String.eqb_spec k' k); [contradiction|]. rewrite IH.
      reflexivity.
Qed.

Lemma obj_assign_twice (k : string) (v1 v2 : value) (ps : props) :
  obj_assign k v2 (obj_assign k v1 ps) = obj_assign k v2 ps.
Proof.
  unfold obj_assign.
  destruct (String.eqb k "__proto__" && negb (has_key "__proto__" ps)) eqn:E.
  - rewrite E. reflexivity.
  - apply andb_false_iff in E as [E|E].
    + rewrite E. cbn [andb]. apply obj_set_twice.
    + apply negb_false_iff in E.
      destruct (String.eqb_spec k "__proto__") as [->|_]; cbn [andb].
      * assert (H : has_key "__proto__" (obj_set "__proto__" v1 ps) = true).
        { unfold has_key. rewrite obj_lookup_set_eq. reflexivity. }
        rewrite H. cbn [negb]. apply obj_set_twice.
      * apply obj_set_twice.
Qed.

(** X5: the builder keeps one criterion per path: for a path other than
    [__proto__], a second condition on the path replaces the first, so
    [where(p).gt(a).where(p).lt(b)] is the query [where(p).lt(b)] and the
    lower bound is forgotten.  On a query from [find()] the conditions are
    then [{ p: { $lt: b } }] alone, and a record above [a] or not is
    accepted exactly when that one criterion accepts it.  At the path
    [__proto__] neither call writes a condition, and every record is
    accepted. *)
Theorem builder_keeps_last_condition_of_a_path :
  forall (q : Query.t) (p : string) (a b : value),
    (p <> "__proto__" ->
     (forall c1 c2,
         set_condition (where_ (set_condition (where_ q p) c1) p) c2
         = set_condition (where_ q p) c2) /\
     lt (where_ (gt (where_ q p) a) p) b = lt (where_ q p) b /\
     (forall (rt : Runtime) m doc,
         conditions (lt (where_ (gt (where_ (find m []) p) a) p) b)
         = [(p, VObj [("$lt", b)])] /\
         Model._matchQuery doc
           (conditions (lt (where_ (gt (where_ (find m []) p) a) p) b))
         = Model._matchQuery doc [(p, VObj [("$lt", b)])])) /\
    (forall (rt : Runtime) m doc,
        Model._matchQuery doc
          (conditions (lt (where_ (gt (where_ (find m []) "__proto__") a)
                                  "__proto__") b))
        = Ok true).
Proof.
  intros q p a b. split; [|reflexivity]. intros Hp.
  assert (H : forall q' c1 c2,
             set_condition (where_ (set_condition (where_ q' p) c1) p) c2
             = set_condition (where_ q' p) c2).
  { intros q' c1 c2. unfold set_condition, where_.
    cbn [query Query.path conditions model _sort _limit _skip].
    rewrite obj_assign_twice. reflexivity. }
  split; [apply H|]. split; [apply H|].
  intros rt m doc. unfold lt, gt. rewrite H.
  assert (Hc : conditions (set_condition (where_ (find m []) p)
                             (VObj [("$lt", b)]))
               = [(p, VObj [("$lt", b)])]).
  { unfold set_condition, where_, find, obj_assign.
    cbn [query Query.path conditions has_key obj_lookup negb].
    destruct (String.eqb_spec p "__proto__") as [E|_]; [contradiction|].
    reflexivity. }
  rewrite Hc. split; reflexivity.
Qed.

Lemma builder_keeps_last_condition_of_a_path_witness :
  "age" <> "__proto__" /\
  conditions (lt (where_ (gt (where_ (find users []) "age")
                             (VNum (num_of_Z 18))) "age")
                 (VNum (num_of_Z 65)))
  = [("age", VObj [("$lt", VNum (num_of_Z 65))])] /\
  @Model._matchQuery sample_runtime (aged 10)
    (conditions (lt (where_ (gt (where_ (find users []) "age")
                                (VNum (num_of_Z 18))) "age")
                    (VNum (num_of_Z 65))))
  = @Model._matchQuery sample_runtime (aged 10)
      [("age", VObj [("$lt", VNum (num_of_Z 65))])].
Proof.
  split; [discriminate|].
  destruct (builder_keeps_last_condition_of_a_path
              (find users []) "age" (VNum (num_of_Z 18)) (VNum (num_of_Z 65)))
    as (H & _).
  destruct (H ltac:(discriminate)) as (_ & _ & H').
  exact (H' sample_runtime users (aged 10)).
Defined.

(** ** Paging with negative numbers *)

Lemma array_slice_from_end {rt : Runtime} {A} (xs : list A) (s : Z) :
  (s < 0)%Z ->
  array_slice xs (VNum (num_of_Z s)) VUndef
  = drop (length xs - Z.to_nat (- s)) xs.
Proof.
  intros Hs. unfold array_slice.
  rewrite to_number_num, to_integer_of_Z. simpl rel_index.
  destruct (Z.ltb_spec s 0) as [_|?]; [|lia].
  replace (Z.to_nat (Z.max (Z.of_nat (length xs) + s) 0))
    with (length xs - Z.to_nat (- s)) by lia.
  apply take_ge. rewrite length_drop. lia.
Qed.

Lemma array_slice_upto_end {rt : Runtime} {A} (xs : list A) (l : Z) :
  (l < 0)%Z ->
  array_slice xs (VNum (Fin 0)) (VNum (num_of_Z l))
  = take (length xs - Z.to_nat (- l)) xs.
Proof.
  intros Hl. unfold array_slice.
  rewrite !to_number_num, to_integer_of_Z.
  change (to_integer (Fin 0)) with (Int 0). simpl rel_index.
  destruct (Z.ltb_spec l 0) as [_|?]; [|lia].
  rewrite (Z.min_l 0 (Z.of_nat (length xs))) by lia. rewrite Z.sub_0_r.
  change (drop (Z.to_nat 0) xs) with xs.
  f_equal. lia.
Qed.

(** X6: [exec] hands [skip] and [limit] to [Array.prototype.slice] as
    they are, so a negative number counts from the end: [skip(s)] with
    [s < 0] returns the last [-s] records of what the query returns
    without it, and [limit(l)] with [l < 0] returns all but the last
    [-l]. *)
Theorem negative_skip_and_limit_count_from_the_end :
  forall (rt : Runtime) (m : Model.t) (conditions : props) (fs : store)
         (s l : Z) (docs : list Document.t),
    (s < 0)%Z -> (l < 0)%Z ->
    (exec (find m conditions) fs).2 = Ok docs ->
    (exec (skip (find m conditions) (VNum (num_of_Z s))) fs).2
    = Ok (drop (length docs - Z.to_nat (- s)) docs) /\
    (exec (limit (find m conditions) (VNum (num_of_Z l))) fs).2
    = Ok (take (length docs - Z.to_nat (- l)) docs).
Proof.
  intros rt m conditions fs s l docs Hs Hl Hall.
  revert Hall. unfold exec, limit, skip, find. simpl. unfold io_bind.
  destruct (Model._find m conditions fs) as [fs' [xs|e]]; simpl;
    [|discriminate].
  unfold io_lift. simpl. intros Hall.
  rewrite !Qeq_bool_inject_Z_0.
  destruct (Z.eqb_spec s 0) as [?|_]; [lia|].
  destruct (Z.eqb_spec l 0) as [?|_]; [lia|]. simpl.
  rewrite array_slice_from_end, array_slice_upto_end by assumption.
  rewrite <- (mapM_res_length _ _ _ Hall).
  split; [apply mapM_res_drop, Hall | apply mapM_res_take, Hall].
Qed.

Lemma negative_skip_and_limit_count_from_the_end_witness :
  (-1 < 0)%Z /\
  (@exec sample_runtime (find users []) two_users).2
  = Ok [{| Document._doc := [("_id", first_id)]; Document._id := first_id;
           Document.isNew := true |};
        {| Document._doc := [("_id", second_id)]; Document._id := second_id;
           Document.isNew := true |}] /\
  (@exec sample_runtime (skip (find users []) (VNum (num_of_Z (-1))))
     two_users).2
  = Ok [{| Document._doc := [("_id", second_id)]; Document._id := second_id;
           Document.isNew := true |}].
Proof.
  split; [reflexivity|]. split; [reflexivity|].
  destruct (negative_skip_and_limit_count_from_the_end sample_runtime users
              [] two_users (-1) (-1) _ eq_refl eq_refl eq_refl) as [H _].
  exact H.
Defined.

(** ** [$group] with the literal null as key *)

Lemma Qred_inject_Z (z : Z) : Qred (inject_Z z) = inject_Z z.
Proof.
  unfold Qred, inject_Z.
  pose proof (Z.ggcd_gcd z 1) as Hg.
  pose proof (Z.ggcd_correct_divisors z 1) as Hd.
  destruct (Z.ggcd z 1) as [g [aa bb]]. simpl in *.
  rewrite Z.gcd_1_r in Hg. subst g. destruct Hd as [Ha Hb].
  rewrite Z.mul_1_l in Ha, Hb. subst. reflexivity.
Qed.

Lemma num_add_of_Z (a b : Z) :
  num_add (num_of_Z a) (num_of_Z b) = num_of_Z (a + b).
Proof.
  unfold num_of_Z. simpl. f_equal.
  rewrite <- (Qred_inject_Z (a + b)). apply Qred_complete.
  rewrite inject_Z_plus. reflexivity.
Qed.

Section one_group.
Context {rt : Runtime}.
Variable grouping : props.
Hypothesis Hnull : obj_get grouping "_id" = VNull.

Lemma group_key_null (i : nat) (d : value) :
  Aggregate.group_key grouping i d = null_key.
Proof. unfold Aggregate.group_key. rewrite Hnull. reflexivity. Qed.

(** With the literal null as key the loop of [_group] keeps one group,
    which holds what the accumulators make of all the records. *)
Lemma group_by_null_single (idocs : list (nat * value)) :
  idocs <> [] ->
  fold_left (Aggregate.group_step grouping) idocs (Ok [])
  = g ← accumulate grouping idocs; Ok [(null_key, g)].
Proof.
  induction idocs as [|[i d] pre IH] using rev_ind; [congruence|].
  intros _. rewrite fold_left_app, accumulate_snoc. cbn [fold_left].
  destruct pre as [|x pre].
  - cbn [fold_left]. unfold Aggregate.group_step.
    rewrite group_key_null. unfold accumulate. cbn [fold_left].
    destruct (Aggregate.init_group grouping) as [g|e]; [|reflexivity].
    res_simpl.
    destruct (Aggregate.update_group grouping d g); reflexivity.
  - rewrite IH by discriminate.
    destruct (accumulate grouping (x :: pre)) as [g|e]; [|reflexivity].
    unfold Aggregate.group_step. rewrite group_key_null. res_simpl.
    destruct (Aggregate.update_group grouping d g); reflexivity.
Qed.

End one_group.

Lemma accumulate_count {rt : Runtime} (idocs : list (nat * value)) :
  accumulate count_all idocs
  = Ok [("n", VNum (num_of_nat (length idocs)))].
Proof.
  induction idocs as [|[i d] pre IH] using rev_ind; [reflexivity|].
  rewrite accumulate_snoc, IH, length_app. simpl length.
  unfold num_of_nat. rewrite Nat2Z.inj_add, <- num_add_of_Z. reflexivity.
Qed.

(** X7: grouping with [_id: null] and [n: { $sum: 1 }] counts the
    records: a sequence that is not empty gives the one record
    [{ _id: null, n: <its length> }].  The empty sequence gives no record
    at all, for every grouping: no group is ever opened. *)
Theorem group_by_null_counts :
  forall (rt : Runtime) (docs : list value),
    (forall grouping, Aggregate._group [] grouping = Ok []) /\
    (docs <> [] ->
     Aggregate._group docs count_all
     = Ok [VObj [("_id", VNull);
                 ("n", VNum (num_of_nat (length docs)))]]).
Proof.
  intros rt docs. split; [reflexivity|]. intros Hne.
  unfold Aggregate._group. fold (indexed docs).
  rewrite (group_by_null_single count_all eq_refl)
    by (destruct docs; [congruence|discriminate]).
  rewrite accumulate_count. unfold indexed. rewrite length_imap.
  reflexivity.
Qed.

Lemma group_by_null_counts_witness :
  null_tagged <> [] /\
  @Aggregate._group sample_runtime null_tagged count_all
  = Ok [VObj [("_id", VNull); ("n", VNum (num_of_nat 3))]].
Proof.
  split; [discriminate|].
  destruct (group_by_null_counts sample_runtime null_tagged) as [_ H].
  apply H. discriminate.
Defined.

(** ** [_getFieldValue] *)

Lemma split_on_nonempty (sep : ascii) (s : string) : split_on sep s <> [].
Proof.
  destruct s as [|c r]; simpl; [discriminate|].
  destruct (Ascii.eqb c sep); [discriminate|].
  destruct (split_on sep r); discriminate.
Qed.

Lemma split_on_app (sep : ascii) (p q : string) :
  split_on sep (p +:+ String sep q) = split_on sep p ++ split_on sep q.
Proof.
  induction p as [|c r IH]; simpl.
  - rewrite Ascii.eqb_refl. reflexivity.
  - rewrite IH. destruct (Ascii.eqb c sep); [reflexivity|].
    pose proof (split_on_nonempty sep r) as Hne.
    destruct (split_on sep r); [congruence|reflexivity].
Qed.

(** X8: reading a dotted path is reading its first part and then the rest
    from what was found; and from a value that is falsy the rest of a path
    is not followed, the value itself is the result.  So the path [a.b]
    read from a record whose [a] is 0, null or the empty string gives that
    value, not undefined. *)
Theorem getFieldValue_follows_the_path :
  forall (doc : value) (p q : string),
    Aggregate._getFieldValue doc (p +:+ "." +:+ q)
    = Aggregate._getFieldValue (Aggregate._getFieldValue doc p) q /\
    (forall v, truthy v = false -> Aggregate._getFieldValue v q = v) /\
    (truthy (Aggregate._getFieldValue doc p) = false ->
     Aggregate._getFieldValue doc (p +:+ "." +:+ q)
     = Aggregate._getFieldValue doc p).
Proof.
  intros doc p q.
  assert (Hcomp : Aggregate._getFieldValue doc (p +:+ "." +:+ q)
                  = Aggregate._getFieldValue (Aggregate._getFieldValue doc p) q).
  { unfold Aggregate._getFieldValue.
    change ("." +:+ q) with (String "." q).
    rewrite split_on_app, fold_left_app. reflexivity. }
  assert (Hfalsy : forall v, truthy v = false ->
                             Aggregate._getFieldValue v q = v).
  { intros v Hv. unfold Aggregate._getFieldValue.
    induction (split_on "." q) as [|k ks IH]; [reflexivity|].
    simpl. rewrite Hv. exact IH. }
  split; [exact Hcomp|]. split; [exact Hfalsy|].
  intros Hv. rewrite Hcomp. apply Hfalsy, Hv.
Qed.

Lemma getFieldValue_follows_the_path_witness :
  truthy (Aggregate._getFieldValue
            (VObj [("a", VNum (num_of_Z 0))]) "a") = false /\
  Aggregate._getFieldValue
    (VObj [("a", VNum (num_of_Z 0))]) "a.b" = VNum (num_of_Z 0).
Proof.
  split; [reflexivity|].
  destruct (getFieldValue_follows_the_path
              (VObj [("a", VNum (num_of_Z 0))]) "a" "b") as (_ & _ & H).
  exact (H eq_refl).
Defined.

(** ** [doValidate] with validators that answer later *)

Section doValidate_async.
Variables (st : SchemaType.t) (val context : value).

Lemma dv_step_counts (s : SchemaType.dv_state)
    (p : list (SchemaType.validator * SchemaType.settled))
    (i : nat) (v : SchemaType.validator) :
  synchronous val context v || promised val context v = true ->
  let r := SchemaType.dv_step st val context (s, p) (i, v) in
  SchemaType.validatorsCompleted r.1 + length r.2
  = S (SchemaType.validatorsCompleted s + length p) /\
  length p + (if promised val context v then 1 else 0) <= length r.2 /\
  ((SchemaType.validatorsCompleted s < length (SchemaType.validators st) ->
    SchemaType.reported s = []) ->
   SchemaType.validatorsCompleted r.1 < length (SchemaType.validators st) ->
   SchemaType.reported r.1 = []) /\
  SchemaType.invoked r.1 = SchemaType.invoked s ++ [i].
Proof.
  unfold SchemaType.dv_step, promised, synchronous.
  destruct (SchemaType.v_validator v context val)
    as [res| |[|a1 now] [|] [|l1 [|l2 later]]];
    try discriminate; intros _;
    unfold SchemaType.validatorWrapper;
    cbn [fst snd SchemaType.err SchemaType.validatorsCompleted
         SchemaType.invoked SchemaType.reported negb fold_left map];
    rewrite ?length_app; cbn [length];
    (split; [lia|]); (split; [lia|]); (split; [|reflexivity]);
    intros Hs Hlt;
    try (destruct (Nat.eqb_spec (S (SchemaType.validatorsCompleted s))
                                (length (SchemaType.validators st)));
         [lia|]);
    apply Hs; lia.
Qed.

Lemma dv_loop_counts (l : list (nat * SchemaType.validator))
    (s : SchemaType.dv_state)
    (p : list (SchemaType.validator * SchemaType.settled)) :
  forallb (fun v => synchronous val context v || promised val context v)
          (map snd l) = true ->
  let r := fold_left (SchemaType.dv_step st val context) l (s, p) in
  SchemaType.validatorsCompleted r.1 + length r.2
  = SchemaType.validatorsCompleted s + length p + length l /\
  length p + (if existsb (promised val context) (map snd l) then 1 else 0)
  <= length r.2 /\
  ((SchemaType.validatorsCompleted s < length (SchemaType.validators st) ->
    SchemaType.reported s = []) ->
   SchemaType.validatorsCompleted r.1 < length (SchemaType.validators st) ->
   SchemaType.reported r.1 = []) /\
  SchemaType.invoked r.1 = SchemaType.invoked s ++ map fst l.
Proof.
  cbn zeta. revert s p. induction l as [|[i v] l IH]; intros s p Hall.
  - simpl. rewrite app_nil_r. repeat split; auto; lia.
  - cbn [map snd forallb] in Hall. apply andb_prop in Hall as [Hv Hall].
    cbn [fold_left].
    pose proof (dv_step_counts s p i v Hv) as Hstep. cbn zeta in Hstep.
    destruct (SchemaType.dv_step st val context (s, p) (i, v)) as [s' p'].
    cbn [fst snd] in Hstep. destruct Hstep as (S1 & S2 & S3 & S4).
    destruct (IH s' p' Hall) as (H1 & H2 & H3 & H4).
    cbn [map existsb snd fst length].
    split; [lia|]. split.
    { destruct (promised val context v); cbn [orb];
        [|destruct (existsb _ (map snd l))]; lia. }
    split; [intros Hs; apply H3, S3, Hs|].
    rewrite H4, S4, <- app_assoc. reflexivity.
Qed.

Lemma dv_settle_reports_once
    (p : list (SchemaType.validator * SchemaType.settled))
    (s : SchemaType.dv_state) :
  SchemaType.validatorsCompleted s + length p
  = length (SchemaType.validators st) ->
  length (SchemaType.reported (fold_left (SchemaType.dv_settle st) p s))
  = length (SchemaType.reported s) + (if Nat.eqb (length p) 0 then 0 else 1).
Proof.
  revert s. induction p as [|x p IH]; intros s Hn; [simpl; lia|].
  cbn [fold_left]. rewrite IH.
  - unfold SchemaType.dv_settle, SchemaType.validatorWrapper.
    cbn [length] in *.
    destruct (x.2); cbn [SchemaType.reported SchemaType.validatorsCompleted];
      destruct (Nat.eqb_spec (S (SchemaType.validatorsCompleted s))
                             (length (SchemaType.validators st)));
      destruct p; cbn [length Nat.eqb] in *; rewrite ?length_app;
      cbn [length]; lia.
  - unfold SchemaType.dv_settle, SchemaType.validatorWrapper.
    cbn [length] in *.
    destruct (x.2); cbn [SchemaType.validatorsCompleted]; lia.
Qed.

Lemma imap_indices {A} (l : list A) (k : nat) :
  map fst (imap (fun i v => (k + i, v)) l) = seq k (length l).
Proof.
  revert k. induction l as [|x l IH]; intros k; [reflexivity|].
  cbn [imap map fst length seq]. rewrite Nat.add_0_r. f_equal.
  rewrite <- (IH (S k)). f_equal. apply imap_ext. intros i y _.
  unfold compose. f_equal. lia.
Qed.

Lemma imap_values {A} (f : nat -> nat) (l : list A) :
  map snd (imap (fun i v => (f i, v)) l) = l.
Proof.
  revert f. induction l as [|x l IH]; intros f; [reflexivity|].
  cbn [imap map snd]. f_equal. exact (IH (f ∘ S)).
Qed.

Lemma doValidate_promised :
  forallb (fun v => synchronous val context v || promised val context v)
          (SchemaType.validators st) = true ->
  existsb (promised val context) (SchemaType.validators st) = true ->
  SchemaType.dv_invoked (SchemaType.doValidate st val context)
  = seq 0 (length (SchemaType.validators st)) /\
  SchemaType.dv_reported (SchemaType.doValidate st val context) = [] /\
  length (SchemaType.dv_reported_later (SchemaType.doValidate st val context))
  = 1.
Proof.
  intros Hall Hex. unfold SchemaType.doValidate.
  destruct (Nat.eqb_spec (length (SchemaType.validators st)) 0) as [H0|H0].
  { destruct (SchemaType.validators st); [discriminate Hex|discriminate H0]. }
  assert (Hsnd : map snd (imap (fun i v => (i, v)) (SchemaType.validators st))
                 = SchemaType.validators st).
  { exact (imap_values id (SchemaType.validators st)). }
  pose proof (dv_loop_counts
                (imap (fun i v => (i, v)) (SchemaType.validators st))
                {| SchemaType.err := None; SchemaType.validatorsCompleted := 0;
                   SchemaType.invoked := []; SchemaType.reported := [] |} [])
    as H.
  rewrite Hsnd in H. specialize (H Hall).
  destruct (fold_left _ _ _) as [s1 pending]. cbn zeta in H.
  cbn [fst snd SchemaType.validatorsCompleted SchemaType.invoked
       SchemaType.reported length app] in H.
  destruct H as (H1 & H2 & H3 & H4).
  rewrite length_imap in H1.
  rewrite Hex in H2.
  cbn [SchemaType.dv_invoked SchemaType.dv_reported
       SchemaType.dv_reported_later].
  split; [|split].
  - rewrite H4. exact (imap_indices (SchemaType.validators st) 0).
  - apply H3; [reflexivity|lia].
  - rewrite dv_settle_reports_once
      by (cbn [SchemaType.validatorsCompleted]; lia).
    cbn [SchemaType.reported length].
    destruct pending; [simpl in H2; lia|reflexivity].
Qed.

End doValidate_async.

(** X9: when every validator of a field answers at once or with a
    promise, and one of them with a promise, [doValidate] still invokes
    every validator, but calls [fn] not at all before it returns and
    exactly once after the promises have settled, even if a synchronous
    validator has failed in the meantime.  [Schema.validate] only collects
    what [fn] is told before [doValidate] returns, so for a field with
    such a validator it returns no error string.  (A thenable whose [then]
    calls a handler before it returns is no promise: the call counts
    inside the loop, as [dv_step] has it.) *)
Theorem async_validator_is_never_reported_by_validate :
  forall (st : SchemaType.t) (val context : value),
    forallb (fun v => synchronous val context v || promised val context v)
            (SchemaType.validators st) = true ->
    existsb (promised val context) (SchemaType.validators st) = true ->
    SchemaType.dv_invoked (SchemaType.doValidate st val context)
    = seq 0 (length (SchemaType.validators st)) /\
    SchemaType.dv_reported (SchemaType.doValidate st val context) = [] /\
    length (SchemaType.dv_reported_later
              (SchemaType.doValidate st val context)) = 1 /\
    (forall data path,
        context = VObj data ->
        nullish (obj_get data path) = false ->
        SchemaType.cast st (obj_get data path) = Ok val ->
        Schema.validate_path data (path, st) = []).
Proof.
  intros st val context Hall Hex.
  destruct (doValidate_promised st val context Hall Hex) as (H1 & H2 & H3).
  split; [exact H1|]. split; [exact H2|]. split; [exact H3|].
  intros data path -> Hn Hc. unfold Schema.validate_path.
  rewrite Hn, andb_false_r, Hc. simpl. rewrite H2. reflexivity.
Qed.

Lemma async_validator_is_never_reported_by_validate_witness :
  forallb (fun v => synchronous (VStr "x") (VObj [("email", VStr "x")]) v
                    || promised (VStr "x") (VObj [("email", VStr "x")]) v)
          (SchemaType.validators checked_email) = true /\
  existsb (promised (VStr "x") (VObj [("email", VStr "x")]))
          (SchemaType.validators checked_email) = true /\
  fails (VStr "x") (VObj [("email", VStr "x")])
        (SchemaType._createValidator checked_email
           (fun _ _ => SchemaType.Returns (VBool false)) EmptyString) = true /\
  Schema.validate_path [("email", VStr "x")] ("email", checked_email) = [].
Proof.
  split; [reflexivity|]. split; [reflexivity|]. split; [reflexivity|].
  destruct (async_validator_is_never_reported_by_validate checked_email
              (VStr "x") (VObj [("email", VStr "x")]) eq_refl eq_refl)
    as (_ & _ & _ & H).
  apply H; reflexivity.
Defined.

(** X10: no method takes the required validator away again:
    [required(false)] leaves the schema type as it is, and after
    [required], [validate] or [set] a required schema type is still
    required. *)
Theorem required_is_never_undone :
  forall st : SchemaType.t,
    SchemaType.required st = true ->
    (forall r, SchemaType.required (SchemaType.set_required r st) = true) /\
    (forall obj, SchemaType.required (SchemaType.validate obj st) = true) /\
    (forall fn, SchemaType.required (SchemaType.set fn st) = true) /\
    SchemaType.set_required (VBool false) st = st.
Proof.
  intros st Hr. unfold SchemaType.required in *. repeat split.
  - intros r. unfold SchemaType.set_required.
    destruct (truthy r); [|exact Hr]. reflexivity.
  - intros [|f|[f|] m]; simpl; try exact Hr;
      rewrite existsb_app, Hr; reflexivity.
  - intros fn. exact Hr.
Qed.

Lemma required_is_never_undone_witness :
  SchemaType.required strict_name = true /\
  SchemaType.required (SchemaType.set_required (VBool false) strict_name)
  = true.
Proof.
  split; [reflexivity|].
  destruct (required_is_never_undone strict_name eq_refl) as (H & _).
  apply H.
Defined.

(** ** Operations of the model on a collection *)

Lemma filterM_decided {A} (f : A -> res bool) (g : A -> bool) (xs : list A) :
  Forall (fun x => f x = Ok (g x)) xs ->
  Model.filterM f xs = Ok (List.filter g xs).
Proof.
  induction 1 as [|x xs Hx _ IH]; [reflexivity|].
  simpl. rewrite Hx, IH. simpl. destruct (g x); reflexivity.
Qed.

Lemma filter_complement_length {A} (g : A -> bool) (xs : list A) :
  length xs - length (List.filter (fun x => negb (g x)) xs)
  = length (List.filter g xs).
Proof.
  assert (H : length (List.filter g xs)
              + length (List.filter (fun x => negb (g x)) xs) = length xs).
  { induction xs as [|x xs IH]; [reflexivity|].
    simpl. destruct (g x); simpl; lia. }
  lia.
Qed.

Lemma filter_complement_nil {A} (g : A -> bool) (xs : list A) :
  List.filter g (List.filter (fun x => negb (g x)) xs) = [].
Proof.
  induction xs as [|x xs IH]; [reflexivity|]. simpl.
  destruct (g x) eqn:E; simpl; [|rewrite E]; exact IH.
Qed.

Lemma forallb_filter {A} (p g : A -> bool) (xs : list A) :
  forallb p xs = true -> forallb p (List.filter g xs) = true.
Proof.
  induction xs as [|x xs IH]; [reflexivity|]. simpl.
  intros H. apply andb_prop in H as [Hx Hr].
  destruct (g x); simpl; [rewrite Hx|]; apply IH, Hr.
Qed.

Section collections.
Context {rt : Runtime}.
Variable m : Model.t.

Lemma holds_read (fs : store) (docs : list value) :
  holds m fs docs ->
  exists fs1, readJSON (Model.collectionPath m) fs = (fs1, Ok (VArr docs)) /\
              holds m fs1 docs.
Proof.
  intros [Hs Hk]. destruct (readJSON_stored m fs _ Hs) as (fs1 & Hr & Hs1).
  exists fs1. split; [exact Hr|]. split; assumption.
Qed.

Lemma holds_write (fs : store) (xs : list value) :
  forallb storable xs = true ->
  exists fs', writeJSON (Model.collectionPath m) (VArr xs) fs = (fs', Ok tt) /\
              holds m fs' xs.
Proof.
  intros Hk. destruct (stringify_parse (VArr xs) Hk) as (j & Hj & Hp).
  unfold writeJSON. rewrite Hj. eexists. split; [reflexivity|].
  split; [|exact Hk]. unfold stored, readJSON.
  rewrite lookup_insert_eq. simpl. rewrite Hp. reflexivity.
Qed.

Lemma matches_decided (conditions : props) (d : value) :
  decided conditions d = true ->
  Model._matchQuery d conditions = Ok (matches conditions d).
Proof.
  unfold decided, matches.
  destruct (Model._matchQuery d conditions) as [[|]|e];
    [reflexivity|reflexivity|discriminate].
Qed.

Lemma find_holds (fs : store) (docs : list value) (conditions : props) :
  holds m fs docs ->
  forallb (decided conditions) docs = true ->
  (Model._find m conditions fs).2
  = Ok (List.filter (matches conditions) docs).
Proof.
  intros Hh Hd. destruct (holds_read fs docs Hh) as (fs1 & Hr & _).
  unfold Model._find, io_bind. rewrite Hr. unfold io_lift. simpl.
  rewrite (filterM_decided _ (matches conditions)); [reflexivity|].
  apply List.Forall_forall. intros d Hin.
  rewrite forallb_forall in Hd. apply matches_decided, Hd, Hin.
Qed.

End collections.

(** X11: on a collection of records that [_matchQuery] decides,
    [deleteMany] returns the number of records that pass the conditions
    and leaves the others, in their order; afterwards a query with the
    same conditions finds nothing.  With the empty conditions every
    record passes, so the collection is left empty. *)
Theorem deleteMany_removes_what_find_finds :
  forall (rt : Runtime) (m : Model.t) (fs : store) (docs : list value)
         (conditions : props),
    holds m fs docs ->
    forallb (decided conditions) docs = true ->
    exists fs',
      Model.deleteMany m conditions fs
      = (fs', Ok (length (List.filter (matches conditions) docs))) /\
      holds m fs'
        (List.filter (fun d => negb (matches conditions d)) docs) /\
      (Model._find m conditions fs').2 = Ok [] /\
      (conditions = [] -> holds m fs' []).
Proof.
  intros rt m fs docs conditions Hh Hd.
  destruct (holds_read m fs docs Hh) as (fs1 & Hr & Hh1).
  set (rest := List.filter (fun d => negb (matches conditions d)) docs).
  assert (Hk : forallb storable rest = true).
  { apply forallb_filter. exact (proj2 Hh). }
  destruct (holds_write m fs1 rest Hk) as (fs' & Hw & Hh').
  exists fs'.
  assert (Hdel : Model.deleteMany m conditions fs
                 = (fs', Ok (length (List.filter (matches conditions) docs)))).
  { unfold Model.deleteMany, io_bind. rewrite Hr. unfold io_lift. simpl.
    rewrite (filterM_decided _ (fun d => negb (matches conditions d))).
    - simpl. fold rest. rewrite Hw. unfold io_ret.
      unfold rest. rewrite filter_complement_length. reflexivity.
    - apply List.Forall_forall. intros d Hin.
      rewrite forallb_forall in Hd.
      rewrite (matches_decided conditions d (Hd d Hin)). reflexivity. }
  split; [exact Hdel|]. split; [exact Hh'|]. split.
  - rewrite (find_holds m fs' rest conditions Hh').
    + unfold rest. rewrite filter_complement_nil. reflexivity.
    + unfold rest. apply forallb_filter. exact Hd.
  - intros ->. replace rest with (@nil value) in Hh'; [exact Hh'|].
    unfold rest. clear. induction docs as [|d docs IH]; [reflexivity|].
    simpl. exact IH.
Qed.

Lemma deleteMany_removes_what_find_finds_witness :
  @holds sample_runtime users two_users
    [VObj [("_id", first_id)]; VObj [("_id", second_id)]] /\
  (@Model.deleteMany sample_runtime users [("_id", first_id)] two_users).2
  = Ok 1.
Proof.
  assert (Hh : @holds sample_runtime users two_users
                 [VObj [("_id", first_id)]; VObj [("_id", second_id)]]).
  { split; reflexivity. }
  split; [exact Hh|].
  destruct (deleteMany_removes_what_find_finds sample_runtime users two_users
              _ [("_id", first_id)] Hh eq_refl) as (fs' & H & _).
  rewrite H. reflexivity.
Defined.

Lemma findIndex_first {A} (f : A -> res bool) (xs : list A) (i : nat) (x : A) :
  (forall j y, j < i -> xs !! j = Some y -> f y = Ok false) ->
  xs !! i = Some x -> f x = Ok true ->
  Model.findIndex f xs = Ok (Some i).
Proof.
  revert i. induction xs as [|y xs IH]; intros i Hlt Hi Hx; [discriminate|].
  destruct i as [|i]; simpl in *.
  - injection Hi as ->. rewrite Hx. reflexivity.
  - rewrite (Hlt 0 y) by (lia || reflexivity). simpl.
    rewrite (IH i); [reflexivity| |exact Hi|exact Hx].
    intros j z Hj Hz. apply (Hlt (S j) z); [lia|exact Hz].
Qed.

Lemma findIndex_none {A} (f : A -> res bool) (xs : list A) :
  (forall x, In x xs -> f x = Ok false) -> Model.findIndex f xs = Ok None.
Proof.
  induction xs as [|y xs IH]; intros H; [reflexivity|].
  simpl. rewrite (H y) by (left; reflexivity). simpl.
  rewrite IH; [reflexivity|]. intros x Hx. apply H. right. exact Hx.
Qed.

Lemma NoDup_distinct_keys (ks : list string) :
  List.NoDup ks -> distinct_keys ks = true.
Proof.
  induction 1 as [|k ks Hk _ IH]; [reflexivity|]. simpl.
  rewrite IH, andb_true_r. apply negb_true_iff.
  destruct (existsb (String.eqb k) ks) eqn:E; [|reflexivity].
  apply existsb_exists in E as (k' & Hin & He).
  apply String.eqb_eq in He. subst. contradiction.
Qed.

Lemma storable_obj_set (k : string) (v : value) (ps : props) :
  storable (VObj ps) = true -> storable v = true ->
  storable (VObj (obj_set k v ps)) = true.
Proof.
  simpl. intros H Hv. apply andb_prop in H as [Hk Hs].
  apply andb_true_intro. split.
  - apply NoDup_distinct_keys, obj_set_keys, distinct_keys_NoDup, Hk.
  - clear Hk. induction ps as [|[k' v'] ps IH]; simpl in *.
    + rewrite Hv. reflexivity.
    + apply andb_prop in Hs as [Hv' Hs].
      destruct (String.eqb k' k); simpl.
      * rewrite Hv, Hs. reflexivity.
      * rewrite Hv', (IH Hs). reflexivity.
Qed.

Lemma storable_spread (src dst : props) :
  storable (VObj dst) = true ->
  forallb (fun kv => storable kv.2) src = true ->
  storable (VObj (spread src dst)) = true.
Proof.
  revert dst. induction src as [|[k v] src IH]; intros dst Hd Hs.
  - exact Hd.
  - simpl in Hs. apply andb_prop in Hs as [Hv Hs].
    unfold spread in *. simpl. apply IH; [|exact Hs].
    apply storable_obj_set; assumption.
Qed.

Lemma forallb_insert {A} (p : A -> bool) (xs : list A) (i : nat) (x : A) :
  forallb p xs = true -> p x = true -> forallb p (<[i := x]> xs) = true.
Proof.
  revert i. induction xs as [|y xs IH]; intros i H Hx; [reflexivity|].
  simpl in H. apply andb_prop in H as [Hy Hr].
  destruct i as [|i]; simpl.
  - rewrite Hx, Hr. reflexivity.
  - rewrite Hy, (IH i Hr Hx). reflexivity.
Qed.

Lemma forallb_lookup {A} (p : A -> bool) (xs : list A) (i : nat) (x : A) :
  forallb p xs = true -> xs !! i = Some x -> p x = true.
Proof.
  intros H Hi. rewrite forallb_forall in H. apply H.
  apply list_elem_of_In. eapply list_elem_of_lookup_2. exact Hi.
Qed.

(** X12: [updateOne] changes nothing and reports no modification when no
    record passes the conditions; otherwise it changes the first record
    that passes them, in file order, and no other: that record takes the
    properties of the update document over its own, and [updatedAt]
    becomes the clock reading, also when the update document has an
    [updatedAt] of its own. *)
Theorem updateOne_changes_the_first_match_only :
  forall (rt : Runtime) (m : Model.t) (fs : store) (docs : list value)
         (now : jsdate) (conditions update : props),
    holds m fs docs ->
    ((forall d, In d docs -> Model._matchQuery d conditions = Ok false) ->
     exists fs',
       Model.updateOne m now conditions update fs
       = (fs', Ok {| Model.modifiedCount := 0; Model.upsertedCount := 0 |}) /\
       holds m fs' docs) /\
    (forall i ps,
        docs !! i = Some (VObj ps) ->
        Model._matchQuery (VObj ps) conditions = Ok true ->
        (forall j d, j < i -> docs !! j = Some d ->
                     Model._matchQuery d conditions = Ok false) ->
        storable (VObj update) = true ->
        four_digit_date now = true ->
        exists fs',
          Model.updateOne m now conditions update fs
          = (fs', Ok {| Model.modifiedCount := 1;
                        Model.upsertedCount := 0 |}) /\
          holds m fs'
            (<[i := VObj (obj_set "updatedAt" (VDate now) (spread update ps))]>
               docs)).
Proof.
  intros rt m fs docs now conditions update Hh.
  destruct (holds_read m fs docs Hh) as (fs1 & Hr & Hh1).
  split.
  - intros Hno. exists fs1. split; [|exact Hh1].
    unfold Model.updateOne, io_bind. rewrite Hr. unfold io_lift. simpl.
    rewrite findIndex_none by exact Hno. reflexivity.
  - intros i ps Hi Hm Hlt Hu Hnow.
    assert (Hps : storable (VObj ps) = true).
    { exact (forallb_lookup storable docs i _ (proj2 Hh) Hi). }
    set (merged := obj_set "updatedAt" (VDate now) (spread update ps)).
    assert (Hmerged : storable (VObj merged) = true).
    { apply storable_obj_set; [|exact Hnow].
      apply storable_spread; [exact Hps|].
      simpl in Hu. apply andb_prop in Hu as [_ Hu]. exact Hu. }
    assert (Hk : forallb storable (<[i := VObj merged]> docs) = true).
    { apply forallb_insert; [exact (proj2 Hh)|exact Hmerged]. }
    destruct (holds_write m fs1 _ Hk) as (fs' & Hw & Hh').
    exists fs'. split; [|exact Hh'].
    unfold Model.updateOne, io_bind. rewrite Hr. unfold io_lift. simpl.
    rewrite (findIndex_first _ docs i (VObj ps) Hlt Hi Hm). simpl.
    rewrite Hi. simpl.
    rewrite (spread_nil ps).
    + fold merged. rewrite Hw. reflexivity.
    + simpl in Hps. apply andb_prop in Hps as [Hps _].
      apply distinct_keys_NoDup, Hps.
Qed.

Lemma updateOne_changes_the_first_match_only_witness :
  @holds sample_runtime users two_users
    [VObj [("_id", first_id)]; VObj [("_id", second_id)]] /\
  storable (VObj [("name", VStr "x")]) = true /\
  four_digit_date new_year = true /\
  exists fs',
    @Model.updateOne sample_runtime users new_year [("_id", second_id)]
      [("name", VStr "x")] two_users
    = (fs', Ok {| Model.modifiedCount := 1; Model.upsertedCount := 0 |}) /\
    @holds sample_runtime users fs'
      [VObj [("_id", first_id)];
       VObj [("_id", second_id); ("name", VStr "x");
             ("updatedAt", VDate new_year)]].
Proof.
  assert (Hh : @holds sample_runtime users two_users
                 [VObj [("_id", first_id)]; VObj [("_id", second_id)]]).
  { split; reflexivity. }
  split; [exact Hh|]. split; [reflexivity|]. split; [reflexivity|].
  destruct (updateOne_changes_the_first_match_only sample_runtime users
              two_users _ new_year [("_id", second_id)] [("name", VStr "x")]
              Hh) as [_ H].
  apply (H 1 [("_id", second_id)] eq_refl eq_refl).
  - intros j d Hj Hd. destruct j as [|j]; [|lia].
    injection Hd as <-. reflexivity.
  - reflexivity.
  - reflexivity.
Defined.

(** ** [create] *)

Section creating.
Context {rt : Runtime}.
Variable m : Model.t.

Lemma write_read (fs : store) (xs : list value) :
  forallb storable xs = true ->
  exists fs',
    writeJSON (Model.collectionPath m) (VArr xs) fs = (fs', Ok tt) /\
    readJSON (Model.collectionPath m) fs' = (fs', Ok (VArr xs)) /\
    holds m fs' xs.
Proof.
  intros Hk. destruct (stringify_parse (VArr xs) Hk) as (j & Hj & Hp).
  unfold writeJSON. rewrite Hj. eexists. split; [reflexivity|].
  assert (Hr : readJSON (Model.collectionPath m)
                 (<[Model.collectionPath m := Json j]> fs)
               = (<[Model.collectionPath m := Json j]> fs, Ok (VArr xs))).
  { unfold readJSON. rewrite lookup_insert_eq, Hp. reflexivity. }
  split; [exact Hr|]. split; [|exact Hk].
  unfold stored. rewrite Hr. reflexivity.
Qed.

Lemma storable_created (now : jsdate) (oid : string) (dd : props) :
  storable (VObj dd) = true -> four_digit_date now = true ->
  is_objectid oid = true ->
  storable (VObj (created now oid dd)) = true.
Proof.
  intros Hdd Hnow Hoid. unfold created.
  apply storable_obj_set; [|exact Hnow].
  apply storable_obj_set; [|exact Hnow].
  apply storable_spread.
  - simpl. rewrite (objectid_not_iso oid Hoid). reflexivity.
  - simpl in Hdd. apply andb_prop in Hdd as [_ Hdd]. exact Hdd.
Qed.

Lemma created_keys (now : jsdate) (oid : string) (dd : props) :
  List.NoDup (map fst (created now oid dd)).
Proof.
  unfold created. apply obj_set_keys, obj_set_keys, spread_keys.
  constructor; [simpl; tauto|constructor].
Qed.

Lemma created_stamps (now : jsdate) (oid : string) (dd : props) :
  obj_get (created now oid dd) "createdAt" = VDate now /\
  obj_get (created now oid dd) "updatedAt" = VDate now.
Proof.
  unfold created, obj_get. split.
  - rewrite obj_lookup_set_ne by discriminate.
    rewrite obj_lookup_set_eq. reflexivity.
  - rewrite obj_lookup_set_eq. reflexivity.
Qed.

Lemma created_id (now : jsdate) (oid : string) (dd : props) :
  has_key "_id" dd = false ->
  obj_get (created now oid dd) "_id" = VStr oid.
Proof.
  intros H. unfold created, obj_get.
  rewrite !obj_lookup_set_ne by discriminate.
  rewrite spread_lookup_absent by (apply has_key_lookup, H). reflexivity.
Qed.

Lemma document_of_created (now : jsdate) (oid : string) (dd : props) :
  Document.new (VObj (created now oid dd))
  = Ok {| Document._doc := created now oid dd;
          Document._id := obj_get (created now oid dd) "_id";
          Document.isNew := true |}.
Proof.
  unfold Document.new. simpl. rewrite spread_nil by apply created_keys.
  reflexivity.
Qed.

(** [create] up to the post-save hooks, on input that passes validation. *)
Lemma create_steps (fs : store) (docs : list value) (now : jsdate)
    (oid : string) (data dd dd' : props) :
  holds m fs docs ->
  Model.apply_defaults m data = Ok dd ->
  Schema.validate (Model.schema m) dd = [] ->
  Model.run_hooks (Schema.pre_save (Model.schema m)) dd = Ok dd' ->
  storable (VObj dd') = true ->
  four_digit_date now = true ->
  is_objectid oid = true ->
  exists fs',
    Model.create m now oid data fs
    = (fs', nd ← Model.run_hooks (Schema.post_save (Model.schema m))
                   (created now oid dd');
            Document.new (VObj nd)) /\
    readJSON (Model.collectionPath m) fs'
    = (fs', Ok (VArr (docs ++ [VObj (created now oid dd')]))) /\
    holds m fs' (docs ++ [VObj (created now oid dd')]).
Proof.
  intros Hh Hdd Hv Hpre Hs Hnow Hoid.
  destruct (holds_read m fs docs Hh) as (fs1 & Hr & Hh1).
  assert (Hk : forallb storable (docs ++ [VObj (created now oid dd')]) = true).
  { rewrite forallb_app, (proj2 Hh). simpl.
    change (storable (VObj (created now oid dd')) && true = true).
    rewrite storable_created by assumption. reflexivity. }
  destruct (write_read fs1 _ Hk) as (fs' & Hw & Hr' & Hh').
  exists fs'. split; [|split; assumption].
  unfold Model.create, Model._createOne, io_bind, io_lift.
  rewrite Hdd, Hv. simpl. rewrite Hpre, Hr. simpl.
  fold (created now oid dd'). rewrite Hw.
  destruct (Model.run_hooks (Schema.post_save (Model.schema m))
              (created now oid dd')); reflexivity.
Qed.

End creating.

(** A condition whose value is no object asks for strict equality. *)
Lemma matchQuery_plain {rt : Runtime} (doc : value) (key : string) (v : value) :
  truthy v && typeof_object v = false -> nullish doc = false ->
  Model._matchQuery doc [(key, v)] = Ok (strict_eq (get_own doc key) v).
Proof.
  intros Hv Hn. unfold Model._matchQuery. cbn [Model.every].
  unfold Model.match_condition. rewrite Hv. unfold js_get. rewrite Hn.
  change (Ok (get_own doc key) ≫= (fun d => Ok (strict_eq d v)))
    with (@Ok bool (strict_eq (get_own doc key) v)).
  destruct (strict_eq (get_own doc key) v); reflexivity.
Qed.

(** X13: a record that has been created is found under its identifier.
    On input that passes validation, with hooks that leave the stored
    record as it is, [create] appends the record [created now oid dd] to
    the collection and returns the document of it; when the input brings
    no [_id] and the generated one is not in use, [findOne] with that
    [_id] then returns the same document. *)
Theorem create_then_findOne :
  forall (rt : Runtime) (m : Model.t) (fs : store) (docs : list value)
         (now : jsdate) (oid : string) (data dd dd' : props),
    holds m fs docs ->
    Model.apply_defaults m data = Ok dd ->
    Schema.validate (Model.schema m) dd = [] ->
    Model.run_hooks (Schema.pre_save (Model.schema m)) dd = Ok dd' ->
    Model.run_hooks (Schema.post_save (Model.schema m)) (created now oid dd')
    = Ok (created now oid dd') ->
    storable (VObj dd') = true ->
    four_digit_date now = true ->
    is_objectid oid = true ->
    exists fs' doc,
      Model.create m now oid data fs = (fs', Ok doc) /\
      Document._doc doc = created now oid dd' /\
      holds m fs' (docs ++ [VObj (created now oid dd')]) /\
      (has_key "_id" dd' = false ->
       forallb (fun d => negb (nullish d)) docs = true ->
       ~ In (VStr oid) (ids docs) ->
       Document._id doc = VStr oid /\
       Model.findOne m [("_id", VStr oid)] fs' = (fs', Ok (Some doc))).
Proof.
  intros rt m fs docs now oid data dd dd' Hh Hdd Hv Hpre Hpost Hs Hnow Hoid.
  destruct (create_steps m fs docs now oid data dd dd'
              Hh Hdd Hv Hpre Hs Hnow Hoid) as (fs' & Hc & Hr & Hh').
  rewrite Hpost in Hc.
  change (Model.create m now oid data fs
          = (fs', Document.new (VObj (created now oid dd')))) in Hc.
  rewrite document_of_created in Hc.
  eexists fs', _. split; [exact Hc|]. split; [reflexivity|].
  split; [exact Hh'|].
  intros Hid Hobj Hfresh. cbn [Document._id].
  rewrite (created_id now oid dd' Hid). split; [reflexivity|].
  unfold Model.findOne, Model._find, io_bind. rewrite Hr.
  unfold io_lift. simpl.
  rewrite (filterM_decided _
             (fun d => strict_eq (get_own d "_id") (VStr oid))).
  - rewrite List.filter_app. simpl.
    rewrite (created_id now oid dd' Hid). simpl. rewrite String.eqb_refl.
    assert (Hnone : List.filter
                      (fun d => strict_eq (get_own d "_id") (VStr oid)) docs
                    = []).
    { clear - Hfresh. induction docs as [|d docs IH]; [reflexivity|].
      simpl. destruct (strict_eq (get_own d "_id") (VStr oid)) eqn:E.
      - exfalso. apply Hfresh. left. unfold ids. simpl.
        destruct (get_own d "_id"); try discriminate.
        simpl in E. apply String.eqb_eq in E. subst. reflexivity.
      - apply IH. intros Hin. apply Hfresh. right. exact Hin. }
    rewrite Hnone. cbn [app truthy]. rewrite document_of_created.
    rewrite (created_id now oid dd' Hid). reflexivity.
  - apply Forall_app. split.
    + apply List.Forall_forall. intros d Hin.
      rewrite forallb_forall in Hobj. specialize (Hobj d Hin).
      apply negb_true_iff in Hobj.
      apply matchQuery_plain; [apply andb_false_r|exact Hobj].
    + constructor; [|constructor].
      apply matchQuery_plain; [apply andb_false_r|reflexivity].
Qed.

Lemma create_then_findOne_witness :
  @holds sample_runtime users two_users
    [VObj [("_id", first_id)]; VObj [("_id", second_id)]] /\
  @Model.apply_defaults sample_runtime users [("name", VStr "x")]
  = Ok [("name", VStr "x")] /\
  ~ In (VStr "65a000000000000000000003")
       (ids [VObj [("_id", first_id)]; VObj [("_id", second_id)]]) /\
  exists fs' doc,
    @Model.create sample_runtime users new_year "65a000000000000000000003"
      [("name", VStr "x")] two_users = (fs', Ok doc) /\
    Document._doc doc
    = [("_id", VStr "65a000000000000000000003"); ("name", VStr "x");
       ("createdAt", VDate new_year); ("updatedAt", VDate new_year)] /\
    @Model.findOne sample_runtime users
      [("_id", VStr "65a000000000000000000003")] fs' = (fs', Ok (Some doc)).
Proof.
  assert (Hh : @holds sample_runtime users two_users
                 [VObj [("_id", first_id)]; VObj [("_id", second_id)]]).
  { split; reflexivity. }
  assert (Hfresh : ~ In (VStr "65a000000000000000000003")
             (ids [VObj [("_id", first_id)]; VObj [("_id", second_id)]])).
  { intros [H|[H|[]]]; discriminate. }
  split; [exact Hh|]. split; [reflexivity|]. split; [exact Hfresh|].
  destruct (create_then_findOne sample_runtime users two_users _ new_year
              "65a000000000000000000003" [("name", VStr "x")]
              [("name", VStr "x")] [("name", VStr "x")]
              Hh eq_refl eq_refl eq_refl eq_refl eq_refl eq_refl eq_refl)
    as (fs' & doc & Hc & Hd & _ & Hf).
  exists fs', doc. split; [exact Hc|]. split; [exact Hd|].
  exact (proj2 (Hf eq_refl eq_refl Hfresh)).
Defined.

(** X14: a pre-save hook that throws stops [create] before the store is
    read: the store is exactly as it was, and no file is created.  A
    post-save hook that throws makes [create] fail as well, but it runs
    after the write: the record is in the collection although [create] has
    thrown. *)
Theorem hooks_around_the_write :
  forall (rt : Runtime) (m : Model.t) (fs : store) (now : jsdate)
         (oid : string) (data dd : props) (e : string),
    Model.apply_defaults m data = Ok dd ->
    Schema.validate (Model.schema m) dd = [] ->
    (Model.run_hooks (Schema.pre_save (Model.schema m)) dd = Throw e ->
     Model.create m now oid data fs = (fs, Throw e)) /\
    (forall docs dd',
        holds m fs docs ->
        Model.run_hooks (Schema.pre_save (Model.schema m)) dd = Ok dd' ->
        Model.run_hooks (Schema.post_save (Model.schema m))
          (created now oid dd') = Throw e ->
        storable (VObj dd') = true ->
        four_digit_date now = true ->
        is_objectid oid = true ->
        exists fs',
          Model.create m now oid data fs = (fs', Throw e) /\
          holds m fs' (docs ++ [VObj (created now oid dd')])).
Proof.
  intros rt m fs now oid data dd e Hdd Hv. split.
  - intros Hpre. unfold Model.create, Model._createOne, io_bind, io_lift.
    rewrite Hdd, Hv. simpl. rewrite Hpre. reflexivity.
  - intros docs dd' Hh Hpre Hpost Hs Hnow Hoid.
    destruct (create_steps m fs docs now oid data dd dd'
                Hh Hdd Hv Hpre Hs Hnow Hoid) as (fs' & Hc & _ & Hh').
    rewrite Hpost in Hc. exists fs'. split; [exact Hc|exact Hh'].
Qed.

Lemma hooks_around_the_write_witness :
  @Model.create sample_runtime guarded new_year "65a000000000000000000003"
    [("name", VStr "x")] ∅ = (∅, Throw "hook failed") /\
  exists fs',
    @Model.create sample_runtime audited new_year "65a000000000000000000003"
      [("name", VStr "x")] ∅ = (fs', Throw "hook failed") /\
    @holds sample_runtime audited fs'
      [VObj [("_id", VStr "65a000000000000000000003"); ("name", VStr "x");
             ("createdAt", VDate new_year); ("updatedAt", VDate new_year)]].
Proof.
  split.
  - destruct (hooks_around_the_write sample_runtime guarded ∅ new_year
                "65a000000000000000000003" [("name", VStr "x")]
                [("name", VStr "x")] "hook failed" eq_refl eq_refl)
      as [H _].
    exact (H eq_refl).
  - destruct (hooks_around_the_write sample_runtime audited ∅ new_year
                "65a000000000000000000003" [("name", VStr "x")]
                [("name", VStr "x")] "hook failed" eq_refl eq_refl)
      as [_ H].
    apply (H [] [("name", VStr "x")]); try reflexivity.
    split; reflexivity.
Defined.

(** X15: whatever the input holds, the document [create] returns, when
    no post-save hook changes it, has the clock reading as [createdAt] and
    as [updatedAt]: values the caller gives for them are overwritten,
    unlike an [_id]. *)
Theorem create_stamps_both_times :
  forall (rt : Runtime) (m : Model.t) (fs : store) (now : jsdate)
         (oid : string) (data : props) (doc : Document.t),
    Schema.post_save (Model.schema m) = None ->
    (Model.create m now oid data fs).2 = Ok doc ->
    obj_get (Document._doc doc) "createdAt" = VDate now /\
    obj_get (Document._doc doc) "updatedAt" = VDate now /\
    exists dd, Document._doc doc = created now oid dd.
Proof.
  intros rt m fs now oid data doc Hpost.
  unfold Model.create, Model._createOne, io_bind, io_lift.
  destruct (Model.apply_defaults m data) as [dd|e]; [|discriminate].
  destruct (Nat.ltb 0 (length (Schema.validate (Model.schema m) dd)));
    [discriminate|].
  destruct (Model.run_hooks (Schema.pre_save (Model.schema m)) dd)
    as [dd'|e]; [|discriminate].
  destruct (readJSON (Model.collectionPath m) fs) as [fs1 [v|e]];
    [|discriminate].
  simpl. destruct (Model.as_array v) as [xs|e] eqn:Ex; [|discriminate].
  simpl. fold (created now oid dd').
  destruct (writeJSON _ _ fs1) as [fs2 [[]|e]]; [|discriminate].
  simpl. rewrite Hpost. simpl. rewrite document_of_created. simpl.
  intros H. injection H as <-. cbn [Document._doc].
  destruct (created_stamps now oid dd') as [H1 H2].
  split; [exact H1|]. split; [exact H2|]. exists dd'. reflexivity.
Qed.

Lemma create_stamps_both_times_witness :
  Schema.post_save (Model.schema users) = None /\
  exists doc,
    (@Model.create sample_runtime users new_year "65a000000000000000000003"
       [("createdAt", VStr "long ago")] ∅).2 = Ok doc /\
    obj_get (Document._doc doc) "createdAt" = VDate new_year.
Proof.
  split; [reflexivity|]. eexists. split; [reflexivity|].
  refine (proj1 (create_stamps_both_times sample_runtime users ∅ new_year
                   "65a000000000000000000003"
                   [("createdAt", VStr "long ago")] _ eq_refl eq_refl)).
Defined.

(** ** Defaults *)

Section defaults.
Context {rt : Runtime}.

(** One turn of the loop over the definition: the field of the entry
    takes its default when the value is undefined and a default is
    defined, a string becomes a Date in a field of type Date, and no
    other field changes. *)
Lemma apply_default_step (acc acc' : props) (field : string)
    (fd : Schema.fielddef) :
  Model.apply_default (Ok acc) (field, fd) = Ok acc' ->
  (forall k, k <> field -> obj_get acc' k = obj_get acc k) /\
  exists base,
    obj_get acc' field = as_date fd base /\
    (if strict_eq (obj_get acc field) VUndef &&
        Model.default_defined (Schema.fd_default fd)
     then Model.eval_default (Schema.fd_default fd) = Ok base
     else base = obj_get acc field).
Proof.
  unfold Model.apply_default.
  change (Ok acc ≫= ?f) with (f acc). cbv beta.
  assert (Hlast : forall dd : props,
    (forall k, k <> field ->
       obj_get (match obj_get dd field with
                | VStr s => if Schema.fd_type_is_Date fd
                            then obj_set field (VDate (new_Date s)) dd else dd
                | _ => dd
                end) k = obj_get dd k) /\
    obj_get (match obj_get dd field with
             | VStr s => if Schema.fd_type_is_Date fd
                         then obj_set field (VDate (new_Date s)) dd else dd
             | _ => dd
             end) field = as_date fd (obj_get dd field)).
  { intros dd. unfold as_date.
    destruct (obj_get dd field) eqn:E;
      try (split; [reflexivity|exact E]).
    destruct (Schema.fd_type_is_Date fd); [|split; [reflexivity|exact E]].
    split.
    - intros k Hk. apply obj_get_set_ne. congruence.
    - unfold obj_get. rewrite obj_lookup_set_eq. reflexivity. }
  destruct (strict_eq (obj_get acc field) VUndef &&
            Model.default_defined (Schema.fd_default fd)).
  - destruct (Model.eval_default (Schema.fd_default fd)) as [v|e];
      [|discriminate].
    change (Ok v ≫= ?f) with (f v). cbv beta.
    change (Ok (obj_set field v acc) ≫= ?f) with (f (obj_set field v acc)).
    cbv beta. intros H. injection H as <-.
    destruct (Hlast (obj_set field v acc)) as [H1 H2]. split.
    + intros k Hk. rewrite (H1 k Hk). apply obj_get_set_ne. congruence.
    + exists v. split; [|reflexivity]. rewrite H2. unfold obj_get.
      rewrite obj_lookup_set_eq. reflexivity.
  - change (Ok acc ≫= ?f) with (f acc). cbv beta.
    intros H. injection H as <-.
    destruct (Hlast acc) as [H1 H2]. split; [exact H1|].
    exists (obj_get acc field). split; [exact H2|reflexivity].
Qed.

Lemma apply_defaults_fold (l : list (string * Schema.fielddef))
    (acc dd : props) :
  List.NoDup (map fst l) ->
  fold_left Model.apply_default l (Ok acc) = Ok dd ->
  (forall k, ~ In k (map fst l) -> obj_get dd k = obj_get acc k) /\
  (forall field fd,
      In (field, fd) l ->
      exists base,
        obj_get dd field = as_date fd base /\
        (if strict_eq (obj_get acc field) VUndef &&
            Model.default_defined (Schema.fd_default fd)
         then Model.eval_default (Schema.fd_default fd) = Ok base
         else base = obj_get acc field)).
Proof.
  revert acc. induction l as [|[f0 fd0] l IH]; intros acc Hnd H.
  - injection H as <-. split; [reflexivity|]. intros field fd [].
  - cbn [fold_left] in H. cbn [map fst] in Hnd.
    apply List.NoDup_cons_iff in Hnd as [Hf0 Hnd].
    destruct (Model.apply_default (Ok acc) (f0, fd0)) as [acc1|e] eqn:E;
      [|rewrite apply_default_throw in H; discriminate].
    destruct (apply_default_step acc acc1 f0 fd0 E) as [S1 S2].
    destruct (IH acc1 Hnd H) as [I1 I2]. split.
    + intros k Hk. simpl in Hk. rewrite I1 by tauto. apply S1.
      intros ->. apply Hk. left. reflexivity.
    + intros field fd [Heq|Hin].
      * injection Heq as -> ->. rewrite (I1 field Hf0). exact S2.
      * assert (Hne : field <> f0).
        { intros ->. apply Hf0. apply in_map_iff.
          exists (f0, fd). split; [reflexivity|exact Hin]. }
        rewrite <- (S1 field Hne). apply I2, Hin.
Qed.

End defaults.

(** X16: for a schema whose field names are no members of
    [Object.prototype], the loop of [_createOne] over the schema definition
    gives a field its default only when the input has undefined there, or
    nothing: every other value stays, null included; a string in a field
    of type Date becomes the Date it denotes, also when it is the default;
    and a field the definition does not name is left as it is. *)
Theorem defaults_fill_only_undefined :
  forall (rt : Runtime) (m : Model.t) (data dd : props),
    forallb ordinary (map fst (Schema.definition (Model.schema m))) = true ->
    List.NoDup (map fst (Schema.definition (Model.schema m))) ->
    List.NoDup (map fst data) ->
    Model.apply_defaults m data = Ok dd ->
    (forall k, ~ In k (map fst (Schema.definition (Model.schema m))) ->
               obj_get dd k = obj_get data k) /\
    (forall field fd,
        In (field, fd) (Schema.definition (Model.schema m)) ->
        (obj_get data field <> VUndef ->
         obj_get dd field = as_date fd (obj_get data field)) /\
        (obj_get data field = VUndef ->
         (forall v, Schema.fd_default fd = Schema.DefaultValue v ->
                    obj_get dd field = as_date fd v) /\
         (forall f, Schema.fd_default fd = Schema.DefaultProducer f ->
                    exists v, f tt = Ok v /\ obj_get dd field = as_date fd v) /\
         (Schema.fd_default fd = Schema.NoDefault ->
          obj_get dd field = VUndef))).
Proof.
  intros rt m data dd _ Hdef Hdata H. unfold Model.apply_defaults in H.
  rewrite spread_nil in H by exact Hdata.
  destruct (apply_defaults_fold _ data dd Hdef H) as [H1 H2].
  split; [exact H1|]. intros field fd Hin.
  destruct (H2 field fd Hin) as (base & Hb & Hc). split.
  - intros Hne.
    assert (Hs : strict_eq (obj_get data field) VUndef = false)
      by (destruct (obj_get data field); try reflexivity; contradiction).
    rewrite Hs in Hc. simpl in Hc. subst base. exact Hb.
  - intros Hu. rewrite Hu in Hc. simpl in Hc. split; [|split].
    + intros v Hv. rewrite Hv in Hc. simpl in Hc.
      destruct v; try (injection Hc as <-; exact Hb).
      subst base. rewrite Hb. reflexivity.
    + intros f Hf. rewrite Hf in Hc. simpl in Hc.
      exists base. split; [exact Hc|exact Hb].
    + intros Hn. rewrite Hn in Hc. simpl in Hc. subst base.
      rewrite Hb. reflexivity.
Qed.

Lemma defaults_fill_only_undefined_witness :
  forallb ordinary (map fst (Schema.definition (Model.schema member_model)))
  = true /\
  List.NoDup (map fst (Schema.definition (Model.schema member_model))) /\
  List.NoDup (map fst [("role", VNull);
                       ("since", VStr "2024-01-01T00:00:00.000Z")]) /\
  exists dd,
    @Model.apply_defaults sample_runtime member_model
      [("role", VNull); ("since", VStr "2024-01-01T00:00:00.000Z")] = Ok dd /\
    obj_get dd "role" = VNull /\
    obj_get dd "since" = VDate new_year.
Proof.
  assert (H1 : List.NoDup
                 (map fst (Schema.definition (Model.schema member_model)))).
  { constructor; [simpl; intros [H|[]]; discriminate|].
    constructor; [simpl; tauto|constructor]. }
  assert (H2 : List.NoDup (map fst [("role", VNull);
                             ("since", VStr "2024-01-01T00:00:00.000Z")])).
  { constructor; [simpl; intros [H|[]]; discriminate|].
    constructor; [simpl; tauto|constructor]. }
  split; [reflexivity|]. split; [exact H1|]. split; [exact H2|].
  exists [("role", VNull); ("since", VDate new_year)].
  split; [reflexivity|].
  destruct (defaults_fill_only_undefined sample_runtime member_model
              [("role", VNull); ("since", VStr "2024-01-01T00:00:00.000Z")]
              [("role", VNull); ("since", VDate new_year)]
              eq_refl H1 H2 eq_refl)
    as [_ H].
  split.
  - destruct (H "role" _ (or_introl eq_refl)) as [Hr _].
    apply Hr. discriminate.
  - destruct (H "since" _ (or_intror (or_introl eq_refl))) as [Hs _].
    apply Hs. discriminate.
Defined.

(** ** Sorting *)

Section sorting.
Context {rt : Runtime}.


End sorting.

Section insertion.
Variable cmp : value -> value -> res number.
Variable leb : value -> value -> bool.
Variable good : value -> Prop.
Hypothesis leb_total : forall a b, leb a b = true \/ leb b a = true.
Hypothesis leb_trans :
  forall a b c, leb a b = true -> leb b c = true -> leb a c = true.
Hypothesis cmp_leb :
  forall a b, good a -> good b ->
    exists c, cmp a b = Ok c /\
              match num_less (Fin 0) c with Some true => true | _ => false end
              = negb (leb a b).

Let le (a b : value) : Prop := leb a b = true.



End insertion.





(** ** [$unwind] on a property of the record itself *)

Lemma alloc_arr (xs : list value) (h : Unwind.heap) :
  Unwind.alloc (VArr xs) h
  = let '(h1, ys) := Unwind.alloc_all xs h in
    Unwind.new_cell (Unwind.CArr ys) h1.
Proof. reflexivity. Qed.

Lemma alloc_obj (ps : props) (h : Unwind.heap) :
  Unwind.alloc (VObj ps) h
  = let '(h1, ys) := alloc_fields ps h in
    Unwind.new_cell (Unwind.CObj ys) h1.
Proof. reflexivity. Qed.

Lemma repr_arr (h : Unwind.heap) (r : Unwind.hval) (vs : list value) :
  repr h r (VArr vs) <->
  exists l xs, r = Unwind.HRef l /\ h !! l = Some (Unwind.CArr xs) /\
               Forall2 (repr_elem h l) xs vs.
Proof.
  simpl. split; intros (l & xs & Hr & Hl & H); exists l, xs;
    (split; [exact Hr|]); (split; [exact Hl|]).
  - clear Hl Hr. revert xs H. induction vs as [|v vs IH]; intros [|x xs] H;
      try contradiction; [constructor|].
    destruct H as [Hx H]. constructor; [exact Hx|exact (IH xs H)].
  - clear Hl. induction H as [|x v xs vs Hx _ IH]; [exact I|].
    split; [exact Hx|exact IH].
Qed.

Lemma repr_obj (h : Unwind.heap) (r : Unwind.hval) (ps : props) :
  repr h r (VObj ps) <->
  exists l hps, r = Unwind.HRef l /\ h !! l = Some (Unwind.CObj hps) /\
                Forall2 (repr_prop h l) hps ps.
Proof.
  simpl. split; intros (l & hps & Hr & Hl & H); exists l, hps;
    (split; [exact Hr|]); (split; [exact Hl|]).
  - clear Hl Hr. revert hps H. induction ps as [|[k v] ps IH]; intros [|[k' x] hps] H;
      try contradiction; [constructor|].
    destruct H as [Hx H]. constructor; [exact Hx|exact (IH hps H)].
  - clear Hl. induction H as [|[k' x] [k v] hps ps Hx _ IH]; [exact I|].
    split; [exact Hx|exact IH].
Qed.

Lemma repr_mono (v : value) :
  forall (h ext : Unwind.heap) (r : Unwind.hval),
    repr h r v -> repr (h ++ ext) r v.
Proof.
  induction v as [| |b|n|s|d|vs IH|ps IH] using value_ind';
    intros h ext r H; try exact H.
  - apply repr_arr in H as (l & xs & Hr & Hl & H). apply repr_arr.
    exists l, xs. split; [exact Hr|].
    split; [apply lookup_app_l_Some, Hl|].
    clear Hl Hr. induction H as [|x v xs vs [Hb Hx] _ IH2]; [constructor|].
    inversion IH as [|? ? Hv Hvs]; subst.
    constructor; [split; [exact Hb|apply Hv, Hx]|exact (IH2 Hvs)].
  - apply repr_obj in H as (l & hps & Hr & Hl & H). apply repr_obj.
    exists l, hps. split; [exact Hr|].
    split; [apply lookup_app_l_Some, Hl|].
    clear Hl Hr. induction H as [|hp p hps ps (Hk & Hb & Hx) _ IH2];
      [constructor|].
    inversion IH as [|? ? Hv Hvs]; subst.
    constructor; [|exact (IH2 Hvs)].
    split; [exact Hk|]. split; [exact Hb|apply Hv, Hx].
Qed.

Lemma alloc_spec (v : value) :
  forall h : Unwind.heap,
    exists ext,
      (Unwind.alloc v h).1 = h ++ ext /\
      repr (Unwind.alloc v h).1 (Unwind.alloc v h).2 v /\
      ref_bound (Unwind.alloc v h).2 <= length (Unwind.alloc v h).1.
Proof.
  induction v as [| |b|n|s|d|vs IH|ps IH] using value_ind'; intros h;
    try (exists []; rewrite app_nil_r; repeat split; simpl; lia).
  - assert (Hall : forall h0, exists ext,
              (Unwind.alloc_all vs h0).1 = h0 ++ ext /\
              Forall2 (fun y x => repr (Unwind.alloc_all vs h0).1 y x /\
                                  ref_bound y
                                  <= length (Unwind.alloc_all vs h0).1)
                      (Unwind.alloc_all vs h0).2 vs).
    { induction IH as [|v vs Hv _ IHvs]; intros h0.
      - exists []. rewrite app_nil_r. split; [reflexivity|constructor].
      - cbn [Unwind.alloc_all]. destruct (Hv h0) as (e1 & H1 & R1 & B1).
        destruct (Unwind.alloc v h0) as [h1 y]. cbn [fst snd] in *.
        destruct (IHvs h1) as (e2 & H2 & F2).
        destruct (Unwind.alloc_all vs h1) as [h2 ys]. cbn [fst snd] in *.
        subst h1 h2. exists (e1 ++ e2). split; [rewrite <- app_assoc; reflexivity|].
        constructor; [|exact F2]. split.
        + apply repr_mono, R1.
        + rewrite length_app. lia. }
    destruct (Hall h) as (ext & He & F). rewrite alloc_arr.
    destruct (Unwind.alloc_all vs h) as [h1 ys]. cbn [fst snd] in *.
    unfold Unwind.new_cell. cbn [fst snd]. subst h1.
    exists (ext ++ [Unwind.CArr ys]). split; [rewrite <- app_assoc; reflexivity|].
    split; [|simpl; rewrite !length_app; simpl; lia].
    apply repr_arr. exists (length (h ++ ext)), ys.
    split; [reflexivity|]. split; [apply list_lookup_middle; reflexivity|].
    eapply Forall2_impl; [exact F|]. intros y x [R B].
    split; [exact B|apply repr_mono, R].
  - assert (Hall : forall h0, exists ext,
              (alloc_fields ps h0).1 = h0 ++ ext /\
              Forall2 (fun hp p => hp.1 = p.1 /\
                                   repr (alloc_fields ps h0).1 hp.2 p.2 /\
                                   ref_bound hp.2
                                   <= length (alloc_fields ps h0).1)
                      (alloc_fields ps h0).2 ps).
    { induction IH as [|[k v] ps Hv _ IHps]; intros h0.
      - exists []. rewrite app_nil_r. split; [reflexivity|constructor].
      - cbn [alloc_fields]. cbn [snd] in Hv.
        destruct (Hv h0) as (e1 & H1 & R1 & B1).
        destruct (Unwind.alloc v h0) as [h1 y]. cbn [fst snd] in *.
        destruct (IHps h1) as (e2 & H2 & F2).
        destruct (alloc_fields ps h1) as [h2 ys]. cbn [fst snd] in *.
        subst h1 h2. exists (e1 ++ e2). split; [rewrite <- app_assoc; reflexivity|].
        constructor; [|exact F2]. split; [reflexivity|]. split.
        + apply repr_mono, R1.
        + cbn [snd]. rewrite length_app. lia. }
    destruct (Hall h) as (ext & He & F). rewrite alloc_obj.
    destruct (alloc_fields ps h) as [h1 ys]. cbn [fst snd] in *.
    unfold Unwind.new_cell. cbn [fst snd]. subst h1.
    exists (ext ++ [Unwind.CObj ys]). split; [rewrite <- app_assoc; reflexivity|].
    split; [|simpl; rewrite !length_app; simpl; lia].
    apply repr_obj. exists (length (h ++ ext)), ys.
    split; [reflexivity|]. split; [apply list_lookup_middle; reflexivity|].
    eapply Forall2_impl; [exact F|]. intros hp p (K & R & B).
    split; [exact K|]. split; [exact B|apply repr_mono, R].
Qed.

Lemma readback_repr (v : value) :
  forall (h : Unwind.heap) (r : Unwind.hval) (fuel : nat),
    repr h r v -> ref_bound r <= fuel ->
    Unwind.readback fuel h r = Some v.
Proof.
  induction v as [| |b|n|s|d|vs IH|ps IH] using value_ind';
    intros h r fuel H Hf;
    try (simpl in H; subst r; destruct fuel; reflexivity).
  - apply repr_arr in H as (l & xs & -> & Hl & H).
    destruct fuel as [|fuel]; [simpl in Hf; lia|]. simpl in Hf.
    cbn [Unwind.readback]. rewrite Hl.
    assert (Hm : mapM (Unwind.readback fuel h) xs = Some vs).
    { apply mapM_Some. clear Hl.
      induction H as [|x v xs vs [Hb Hx] _ IH2]; [constructor|].
      inversion IH as [|? ? Hv Hvs]; subst.
      constructor; [apply Hv; [exact Hx|lia]|exact (IH2 Hvs)]. }
    rewrite Hm. reflexivity.
  - apply repr_obj in H as (l & hps & -> & Hl & H).
    destruct fuel as [|fuel]; [simpl in Hf; lia|]. simpl in Hf.
    cbn [Unwind.readback]. rewrite Hl.
    assert (Hm : mapM (fun kx : string * Unwind.hval =>
                         pair kx.1 <$> Unwind.readback fuel h kx.2) hps
                 = Some ps).
    { apply mapM_Some. clear Hl.
      induction H as [|[k' x] [k v] hps ps (Hk & Hb & Hx) _ IH2];
        [constructor|].
      inversion IH as [|? ? Hv Hvs]; subst. cbn [fst snd] in *. subst k'.
      constructor; [|exact (IH2 Hvs)].
      cbn [fst snd]. rewrite (Hv h x fuel Hx) by lia. reflexivity. }
    rewrite Hm. reflexivity.
Qed.

Lemma alloc_all_spec (vs : list value) :
  forall h : Unwind.heap,
    Forall2 (repr (Unwind.alloc_all vs h).1) (Unwind.alloc_all vs h).2 vs.
Proof.
  induction vs as [|v vs IH]; intros h; [constructor|].
  cbn [Unwind.alloc_all]. destruct (alloc_spec v h) as (e1 & H1 & R1 & _).
  destruct (Unwind.alloc v h) as [h1 y]. cbn [fst snd] in *.
  specialize (IH h1).
  assert (He : exists e2, (Unwind.alloc_all vs h1).1 = h1 ++ e2).
  { clear. revert h1. induction vs as [|v vs IH]; intros h1.
    - exists []. rewrite app_nil_r. reflexivity.
    - cbn [Unwind.alloc_all]. destruct (alloc_spec v h1) as (e1 & H1 & _).
      destruct (Unwind.alloc v h1) as [h2 y]. cbn [fst snd] in *.
      destruct (IH h2) as [e2 H2].
      destruct (Unwind.alloc_all vs h2) as [h3 ys]. cbn [fst snd] in *.
      subst. exists (e1 ++ e2). rewrite <- app_assoc. reflexivity. }
  destruct He as [e2 He].
  destruct (Unwind.alloc_all vs h1) as [h2 ys]. cbn [fst snd] in *.
  subst h2. constructor; [apply repr_mono, R1|exact IH].
Qed.

Lemma split_on_no_dot (k : string) :
  no_dot k = true -> split_on "." k = [k].
Proof.
  unfold no_dot. induction k as [|c k IH]; [reflexivity|].
  simpl. intros H. apply andb_prop in H as [Hc Hk].
  apply negb_true_iff in Hc. rewrite Hc, (IH Hk). reflexivity.
Qed.

Lemma hset_prop_fresh (k : string) (x : Unwind.hval)
    (ps : list (string * Unwind.hval)) :
  ~ In k (map fst ps) -> Unwind.hset_prop k x ps = ps ++ [(k, x)].
Proof.
  induction ps as [|[k' x'] ps IH]; simpl; intros Hk; [reflexivity|].
  destruct (String.eqb_spec k' k) as [->|Hne]; [tauto|].
  rewrite IH by tauto. reflexivity.
Qed.

Lemma hset_fold (ps acc : list (string * Unwind.hval)) :
  List.NoDup (map fst (acc ++ ps)) ->
  fold_left (fun acc kv => Unwind.hset_prop kv.1 kv.2 acc) ps acc
  = acc ++ ps.
Proof.
  revert acc. induction ps as [|[k x] ps IH]; intros acc Hnd.
  - rewrite app_nil_r. reflexivity.
  - cbn [fold_left fst snd].
    assert (Hk : ~ In k (map fst acc)).
    { rewrite map_app in Hnd. apply NoDup_ListNoDup in Hnd.
      apply NoDup_app in Hnd as (_ & Hd & _). intros Hin.
      apply (Hd k); [apply list_elem_of_In, Hin|].
      simpl. apply list_elem_of_here. }
    rewrite (hset_prop_fresh k x acc Hk), IH.
    + rewrite <- app_assoc. reflexivity.
    + rewrite <- app_assoc. exact Hnd.
Qed.

Lemma repr_props_keys (h : Unwind.heap) (l : nat)
    (hps : list (string * Unwind.hval)) (ps : props) :
  Forall2 (repr_prop h l) hps ps -> map fst hps = map fst ps.
Proof.
  induction 1 as [|hp p hps ps (Hk & _) _ IH]; [reflexivity|].
  simpl. rewrite Hk, IH. reflexivity.
Qed.

Lemma repr_props_lookup (h : Unwind.heap) (l : nat) (k : string)
    (hps : list (string * Unwind.hval)) (ps : props) :
  Forall2 (repr_prop h l) hps ps ->
  repr_elem h l (default Unwind.HUndef (Unwind.hlookup k hps)) (obj_get ps k).
Proof.
  unfold obj_get.
  induction 1 as [|[k' x] [k0 v] hps ps (Hk & Hb & Hx) _ IH].
  - split; [simpl; lia|reflexivity].
  - cbn [fst snd] in *. subst k'. simpl.
    destruct (String.eqb k0 k); [split; assumption|exact IH].
Qed.

Lemma repr_props_set (h : Unwind.heap) (l : nat) (k : string)
    (x : Unwind.hval) (v : value)
    (hps : list (string * Unwind.hval)) (ps : props) :
  Forall2 (repr_prop h l) hps ps -> repr_elem h l x v ->
  Forall2 (repr_prop h l) (Unwind.hset_prop k x hps) (obj_set k v ps).
Proof.
  intros H [Hb Hx].
  induction H as [|[k' y] [k0 w] hps ps (Hk & Hyb & Hy) Hr IH].
  - constructor; [|constructor]. split; [reflexivity|]. split; assumption.
  - cbn [fst snd] in *. subst k'. simpl.
    destruct (String.eqb k0 k).
    + constructor; [|exact Hr]. split; [reflexivity|]. split; assumption.
    + constructor; [|exact IH]. split; [reflexivity|]. split; assumption.
Qed.

Lemma repr_props_mono (h ext : Unwind.heap) (l l' : nat)
    (hps : list (string * Unwind.hval)) (ps : props) :
  l <= l' ->
  Forall2 (repr_prop h l) hps ps ->
  Forall2 (repr_prop (h ++ ext) l') hps ps.
Proof.
  intros Hl H. eapply Forall2_impl; [exact H|].
  intros hp p (Hk & Hb & Hx).
  split; [exact Hk|]. split; [lia|apply repr_mono, Hx].
Qed.

Lemma insert_last {A} (l : list A) (x y : A) :
  <[length l := y]> (l ++ [x]) = l ++ [y].
Proof.
  rewrite insert_app_r_alt by lia. rewrite Nat.sub_diag. reflexivity.
Qed.

Section unwinding.
Variable k : string.
Hypothesis Hk : no_dot k = true.

(** One turn of the inner loop: the copy is a new cell at the end of the
    store, and the element is written into that cell. *)
Lemma unwind_step (h : Unwind.heap) (l : nat)
    (hps : list (string * Unwind.hval)) (item : Unwind.hval) :
  h !! l = Some (Unwind.CObj hps) ->
  List.NoDup (map fst hps) ->
  (let '(h1, newDoc) := Unwind.shallow_copy h (Unwind.HRef l) in
   h2 ← Unwind._setFieldValue h1 newDoc k item; Ok (h2, newDoc))
  = Ok (h ++ [Unwind.CObj (Unwind.hset_prop k item hps)],
        Unwind.HRef (length h)).
Proof.
  intros Hl Hnd. unfold Unwind.shallow_copy, Unwind.new_cell.
  cbn [Unwind.hown_props]. unfold Unwind.heap, Unwind.loc in *.
  rewrite Hl. rewrite (hset_fold hps []) by exact Hnd.
  cbn [app]. unfold Unwind._setFieldValue. rewrite (split_on_no_dot k Hk).
  cbn [removelast List.last fold_left].
  change (Ok (Unwind.HRef (length h)) ≫= ?f)
    with (f (Unwind.HRef (length h))). cbv beta.
  unfold Unwind.hassign. unfold Unwind.heap, Unwind.loc in *.
  match goal with
  | |- context [?a !! ?b] =>
      replace (a !! b) with (Some (Unwind.CObj hps))
        by (symmetry; apply list_lookup_middle; reflexivity)
  end.
  rewrite insert_last. reflexivity.
Qed.

Lemma unwind_items_spec (l : nat) (hps : list (string * Unwind.hval))
    (ps : props) (items : list Unwind.hval) (vitems : list value) :
  forall (h : Unwind.heap) (result : list Unwind.hval),
    h !! l = Some (Unwind.CObj hps) ->
    Forall2 (repr_prop h l) hps ps ->
    List.NoDup (map fst hps) ->
    Forall2 (repr_elem h l) items vitems ->
    exists e outs,
      Unwind.unwind_items k (Unwind.HRef l) items (Ok (h, result))
      = Ok (h ++ e, result ++ outs) /\
      Forall2 (fun o v => repr (h ++ e) o v /\
                          ref_bound o <= length (h ++ e))
              outs (map (fun item => VObj (obj_set k item ps)) vitems).
Proof.
  revert vitems. induction items as [|item items IH];
    intros vitems h result Hl Hps Hnd Hitems.
  - inversion Hitems; subst.
    exists [], []. rewrite !app_nil_r. split; [reflexivity|constructor].
  - inversion Hitems as [|? vitem ? vitems' Hitem Hrest]; subst.
    assert (Hlt : l < length h) by (eapply lookup_lt_Some; exact Hl).
    cbn [Unwind.unwind_items].
    change (Ok (h, result) ≫= ?f) with (f (h, result)). cbv beta iota.
    pose proof (unwind_step h l hps item Hl Hnd) as Hstep.
    destruct (Unwind.shallow_copy h (Unwind.HRef l)) as [h1 newDoc].
    destruct (Unwind._setFieldValue h1 newDoc k item) as [h2|e];
      [|discriminate Hstep].
    injection Hstep as -> ->.
    change (Ok (?a) ≫= ?f) with (f a). cbv beta.
    set (c := Unwind.CObj (Unwind.hset_prop k item hps)).
    destruct (IH vitems' (h ++ [c]) (result ++ [Unwind.HRef (length h)]))
      as (e & outs & Hrun & Houts).
    + apply lookup_app_l_Some, Hl.
    + apply (repr_props_mono h [c] l l); [lia|exact Hps].
    + exact Hnd.
    + eapply Forall2_impl; [exact Hrest|]. intros x v [Hb Hx].
      split; [exact Hb|apply repr_mono, Hx].
    + exists ([c] ++ e), (Unwind.HRef (length h) :: outs).
      split.
      * rewrite Hrun. rewrite <- !app_assoc. reflexivity.
      * cbn [map]. rewrite app_assoc. constructor; [|exact Houts].
        split; [|simpl; rewrite !length_app; simpl; lia].
        apply repr_mono. apply repr_obj.
        exists (length h), (Unwind.hset_prop k item hps).
        split; [reflexivity|].
        split; [apply list_lookup_middle; reflexivity|].
        apply repr_props_set.
        -- apply (repr_props_mono h [c] l (length h)); [lia|exact Hps].
        -- destruct Hitem as [Hb Hx].
           split; [lia|apply repr_mono, Hx].
Qed.

Lemma unwind_doc_spec (h : Unwind.heap) (result : list Unwind.hval)
    (r : Unwind.hval) (d : value) :
  repr h r d -> is_record d = true ->
  exists e outs,
    Unwind.unwind_doc k (Ok (h, result)) r = Ok (h ++ e, result ++ outs) /\
    Forall2 (fun o v => repr (h ++ e) o v /\ ref_bound o <= length (h ++ e))
            outs (unwound k d).
Proof.
  intros Hr Hd. destruct d as [| | | | | | |ps]; try discriminate Hd.
  pose proof Hr as Hr0.
  apply repr_obj in Hr as (l & hps & -> & Hl & Hps).
  assert (Hlt : l < length h) by (eapply lookup_lt_Some; exact Hl).
  assert (Hnd : List.NoDup (map fst hps)).
  { rewrite (repr_props_keys h l hps ps Hps).
    apply distinct_keys_NoDup, Hd. }
  unfold Unwind.unwind_doc.
  change (Ok (h, result) ≫= ?f) with (f (h, result)). cbv beta iota.
  unfold Unwind._getFieldValue. rewrite (split_on_no_dot k Hk).
  cbn [fold_left Unwind.htruthy Unwind.hget_own]. unfold Unwind.heap, Unwind.loc in *.
  rewrite Hl.
  pose proof (repr_props_lookup h l k hps ps Hps) as [Hb Hx].
  unfold unwound.
  assert (Hsame : forall x v,
            repr h x v -> (forall vs, v <> VArr vs) ->
            Unwind.his_array h x = None).
  { intros x v H Hv. destruct v as [| | | | | |vs|qs];
      try (simpl in H; subst x; reflexivity).
    - exfalso. exact (Hv vs eq_refl).
    - apply repr_obj in H as (lo & hqs & -> & Hlo & _).
      simpl. rewrite Hlo. reflexivity. }
  destruct (obj_get ps k) as [| | | | | |vitems|qs] eqn:Ev;
    try (rewrite (Hsame _ _ Hx) by discriminate;
         exists [], [Unwind.HRef l]; rewrite app_nil_r;
         split; [reflexivity|];
         constructor; [split; [exact Hr0|simpl; lia]|constructor]).
  apply repr_arr in Hx as (la & items & Hla & Hcell & Hitems).
  rewrite Hla in *. cbn [Unwind.his_array]. rewrite Hcell.
  simpl in Hb.
  apply (unwind_items_spec l hps ps items vitems h result Hl Hps Hnd).
  eapply Forall2_impl; [exact Hitems|]. intros x v [Hxb Hxr].
  split; [lia|exact Hxr].
Qed.

Lemma unwind_fold_spec (ds : list Unwind.hval) (docs : list value) :
  forall (h : Unwind.heap) (result : list Unwind.hval),
    Forall2 (repr h) ds docs ->
    forallb is_record docs = true ->
    exists e outs,
      fold_left (Unwind.unwind_doc k) ds (Ok (h, result))
      = Ok (h ++ e, result ++ outs) /\
      Forall2 (fun o v => repr (h ++ e) o v /\ ref_bound o <= length (h ++ e))
              outs (concat (map (unwound k) docs)).
Proof.
  revert docs. induction ds as [|r ds IH]; intros docs h result H Hrec.
  - inversion H; subst. exists [], []. rewrite !app_nil_r.
    split; [reflexivity|constructor].
  - inversion H as [|? d ? docs' Hr Hrest]; subst.
    simpl in Hrec. apply andb_prop in Hrec as [Hd Hrec].
    destruct (unwind_doc_spec h result r d Hr Hd) as (e1 & outs1 & H1 & F1).
    cbn [fold_left]. rewrite H1.
    destruct (IH docs' (h ++ e1) (result ++ outs1))
      as (e2 & outs2 & H2 & F2).
    + eapply Forall2_impl; [exact Hrest|]. intros x v Hx.
      apply repr_mono, Hx.
    + exact Hrec.
    + exists (e1 ++ e2), (outs1 ++ outs2). split.
      * rewrite <- !app_assoc in H2. exact H2.
      * cbn [map concat]. rewrite app_assoc. apply Forall2_app; [|exact F2].
        eapply Forall2_impl; [exact F1|]. intros o v [Ho Hb].
        split; [apply repr_mono, Ho|rewrite length_app; lia].
Qed.

End unwinding.

(** X18: on a path without a dot, [$unwind] does to records from a file
    what it is meant to: a record with an array at the property gives one
    record per element, in order, each with the element in the place of
    the array and every other property as it was; a record with the
    empty array there gives none; a record with anything else there, or
    nothing, passes through once. *)
Theorem unwind_on_a_property_of_the_record :
  forall (docs : list value) (path : string),
    no_dot (if starts_with "$" path then slice1 path else path) = true ->
    forallb is_record docs = true ->
    Unwind.unwind_stored docs path
    = Ok (map Some
            (concat
               (map (unwound (if starts_with "$" path then slice1 path
                              else path)) docs))).
Proof.
  intros docs path Hk Hrec. unfold Unwind.unwind_stored, Unwind._unwind.
  pose proof (alloc_all_spec docs []) as Hall.
  destruct (Unwind.alloc_all docs []) as [h ds]. cbn [fst snd] in Hall.
  destruct (unwind_fold_spec _ Hk ds docs h [] Hall Hrec)
    as (e & outs & Hrun & Houts).
  rewrite Hrun. cbn [app].
  change (Ok (h ++ e, outs) ≫= ?f) with (f (h ++ e, outs)). cbv beta iota.
  f_equal. clear Hrun.
  induction Houts as [|o v outs vs [Ho Hb] _ IH]; [reflexivity|].
  cbn [map]. rewrite IH. f_equal.
  apply readback_repr; [exact Ho|lia].
Qed.

Lemma unwind_on_a_property_of_the_record_witness :
  no_dot "tags" = true /\
  forallb is_record tagged_posts = true /\
  Unwind.unwind_stored tagged_posts "$tags"
  = Ok [Some (VObj [("title", VStr "a"); ("tags", VStr "x")]);
        Some (VObj [("title", VStr "a"); ("tags", VStr "y")]);
        Some (VObj [("title", VStr "c")])].
Proof.
  split; [reflexivity|]. split; [reflexivity|].
  rewrite (unwind_on_a_property_of_the_record tagged_posts "$tags"
             eq_refl eq_refl).
  reflexivity.
Defined.

(** ** Conditions [_matchQuery] has no case for *)

Lemma exec_finds_nothing (rt : Runtime) (m : Model.t) (fs : store)
    (conditions : props) :
  holds_array fs (Model.collectionPath m) = true ->
  (forall doc, Model._matchQuery doc conditions = Ok false) ->
  (exec (find m conditions) fs).2 = Ok [].
Proof.
  intros Hfs Hq. unfold exec, find. simpl. unfold io_bind.
  pose proof (find_all_false m conditions fs Hfs Hq) as H.
  destruct (Model._find m conditions fs) as [fs' r]. simpl in H.
  rewrite H. reflexivity.
Qed.

Lemma obj_assign_first (k : string) (v : value) :
  k <> "__proto__" -> obj_assign k v [] = [(k, v)].
Proof.
  intros Hk. unfold obj_assign.
  destruct (String.eqb_spec k "__proto__") as [E|_]; [contradiction|].
  reflexivity.
Qed.

(** X19: the methods [all], [elemMatch] and [mod] write the operators
    [$all], [$elemMatch] and [$mod] under the path, and [and] and [nor]
    write an array under [$and] or [$nor]; [_matchQuery] has a case for
    none of them, so on a query from [find()] such a call, for a path
    other than [__proto__], gives a query that returns the empty sequence
    on every collection.  Only [and] with no condition at all, and the
    three methods at the path [__proto__], where the assignment writes no
    condition, leave a query that returns what [find()] returns. *)
Theorem unhandled_condition_methods_find_nothing :
  forall (rt : Runtime) (m : Model.t) (fs : store),
    holds_array fs (Model.collectionPath m) = true ->
    (forall path,
        path <> "__proto__" ->
        (forall values,
            (exec (Conditions.all_ (find m []) path values) fs).2 = Ok []) /\
        (forall criteria,
            (exec (Conditions.elemMatch (find m []) path criteria) fs).2
            = Ok []) /\
        (forall divisor remainder,
            (exec (Conditions.mod_ (find m []) path divisor remainder) fs).2
            = Ok [])) /\
    (forall c cs,
        exists q q',
          Conditions.and_ (find m []) (VArr (c :: cs)) = Ok q /\
          Conditions.nor (find m []) (VArr (c :: cs)) = Ok q' /\
          (exec q fs).2 = Ok [] /\ (exec q' fs).2 = Ok []) /\
    (exists q,
        Conditions.and_ (find m []) (VArr []) = Ok q /\
        exec q fs = exec (find m []) fs) /\
    (forall values criteria divisor remainder,
        exec (Conditions.all_ (find m []) "__proto__" values) fs
        = exec (find m []) fs /\
        exec (Conditions.elemMatch (find m []) "__proto__" criteria) fs
        = exec (find m []) fs /\
        exec (Conditions.mod_ (find m []) "__proto__" divisor remainder) fs
        = exec (find m []) fs).
Proof.
  intros rt m fs Hfs.
  assert (Hset : forall path c,
             path <> "__proto__" ->
             Conditions.set_condition (find m []) path c = find m [(path, c)]).
  { intros path c Hp. unfold Conditions.set_condition, find.
    cbn [conditions model _sort _limit _skip].
    rewrite (obj_assign_first path c Hp). reflexivity. }
  split; [|split; [|split; [|repeat split]]].
  - intros path Hp. repeat split.
    + intros values. unfold Conditions.all_. rewrite (Hset _ _ Hp).
      apply (exec_finds_nothing rt m fs _ Hfs). reflexivity.
    + intros criteria. unfold Conditions.elemMatch. rewrite (Hset _ _ Hp).
      apply (exec_finds_nothing rt m fs _ Hfs). reflexivity.
    + intros divisor remainder. unfold Conditions.mod_.
      rewrite (Hset _ _ Hp).
      apply (exec_finds_nothing rt m fs _ Hfs). reflexivity.
  - intros c cs. eexists _, _.
    split; [reflexivity|]. split; [reflexivity|].
    split; apply (exec_finds_nothing rt m fs _ Hfs); reflexivity.
  - eexists. split; reflexivity.
Qed.

Lemma unhandled_condition_methods_find_nothing_witness :
  holds_array two_users (Model.collectionPath users) = true /\
  "tags" <> "__proto__" /\
  (@exec sample_runtime
     (Conditions.all_ (find users []) "tags" (VArr [VStr "a"])) two_users).2
  = Ok [].
Proof.
  split; [reflexivity|]. split; [discriminate|].
  destruct (unhandled_condition_methods_find_nothing sample_runtime users
              two_users eq_refl) as (H & _).
  destruct (H "tags" ltac:(discriminate)) as (Hall & _).
  apply Hall.
Defined.

(** ** Pipelines *)

Section pipelines.
Context {rt : Runtime}.

Lemma run_app (p q : list Pipeline.stage) (docs : list value) :
  Pipeline.run (p ++ q) docs
  = Pipeline.run p docs ≫= Pipeline.run q.
Proof.
  unfold Pipeline.run. rewrite fold_left_app.
  destruct (fold_left _ p (Ok docs)) as [out|e]; [reflexivity|].
  simpl. induction q as [|s q IH]; [reflexivity|exact IH].
Qed.

Lemma exec_run (m : Model.t) (p : list Pipeline.stage) (fs : store) :
  (Pipeline.exec m p fs).2
  = (Model._find m [] fs).2 ≫= Pipeline.run p.
Proof.
  unfold Pipeline.exec, io_bind.
  destruct (Model._find m [] fs) as [fs' [docs|e]]; reflexivity.
Qed.

End pipelines.

(** X20: in a pipeline [$skip] and [$limit] are slices without a guard:
    after any stages, [{ $skip: s }, { $limit: l }] with non-negative
    integers keeps exactly the records at the positions [[s, s+l)] of what
    the stages before return, and [{ $limit: 0 }] keeps none, unlike
    [limit(0)] of a query. *)
Theorem pipeline_skip_limit_is_the_slice :
  forall (rt : Runtime) (m : Model.t) (fs : store)
         (p : list Pipeline.stage) (s l : Z),
    (0 <= s)%Z -> (0 <= l)%Z ->
    (Pipeline.exec m (p ++ [Pipeline.Skip (VNum (num_of_Z s));
                            Pipeline.Limit (VNum (num_of_Z l))]) fs).2
    = (fun docs => take (Z.to_nat l) (drop (Z.to_nat s) docs))
        <$> (Pipeline.exec m p fs).2 /\
    (Pipeline.exec m (p ++ [Pipeline.Limit (VNum (num_of_Z 0))]) fs).2
    = (fun _ => []) <$> (Pipeline.exec m p fs).2.
Proof.
  intros rt m fs p s l Hs Hl. rewrite !exec_run.
  destruct ((Model._find m [] fs).2) as [docs|e]; [|split; reflexivity].
  cbn [mbind res_bind]. rewrite !run_app.
  destruct (Pipeline.run p docs) as [out|e]; [|split; reflexivity].
  cbn [mbind res_bind fmap res_fmap]. unfold Pipeline.run.
  cbn [fold_left Pipeline.run_stage mbind res_bind].
  rewrite array_slice_from by exact Hs.
  rewrite !array_slice_upto by lia. split; reflexivity.
Qed.

Lemma pipeline_skip_limit_is_the_slice_witness :
  (0 <= 1)%Z /\ (0 <= 0)%Z /\
  (@Pipeline.exec sample_runtime users
     [Pipeline.Skip (VNum (num_of_Z 1)); Pipeline.Limit (VNum (num_of_Z 1))]
     two_users).2 = Ok [VObj [("_id", second_id)]] /\
  (@Pipeline.exec sample_runtime users
     [Pipeline.Limit (VNum (num_of_Z 0))] two_users).2 = Ok [].
Proof.
  split; [lia|]. split; [lia|].
  destruct (pipeline_skip_limit_is_the_slice sample_runtime users two_users
              [] 1 1 Z.le_0_1 Z.le_0_1) as [H1 H2].
  split; [exact H1|exact H2].
Defined.

(** X21: the stages of a pipeline run one after the other on what the
    stages before return, starting from all the records.  A [$match]
    stage keeps the records a query with the same conditions finds, so
    the pipeline that is one [$match] returns the records of [_find]; a
    stage the [switch] has no case for changes nothing. *)
Theorem pipeline_runs_stage_by_stage :
  forall (rt : Runtime) (m : Model.t) (fs : store)
         (p q : list Pipeline.stage),
    (Pipeline.exec m (p ++ q) fs).2
    = (Pipeline.exec m p fs).2 ≫= Pipeline.run q /\
    (Pipeline.exec m [] fs).2 = (Model._find m [] fs).2 /\
    (forall conditions,
        (Pipeline.exec m [Pipeline.Match (VObj conditions)] fs).2
        = (Model._find m conditions fs).2) /\
    (forall operator operation,
        (Pipeline.exec m (p ++ Pipeline.Other operator operation :: q) fs).2
        = (Pipeline.exec m (p ++ q) fs).2).
Proof.
  intros rt m fs p q. split; [|split; [|split]].
  - rewrite !exec_run.
    destruct ((Model._find m [] fs).2) as [docs|e]; [|reflexivity].
    cbn [mbind res_bind]. apply run_app.
  - rewrite exec_run. destruct ((Model._find m [] fs).2); reflexivity.
  - intros conditions. rewrite exec_run.
    unfold Model._find, io_bind, io_lift.
    destruct (readJSON (Model.collectionPath m) fs) as [fs' [v|e]];
      [|reflexivity].
    cbn [snd]. destruct (Model.as_array v) as [xs|e]; [|reflexivity].
    cbn [mbind res_bind].
    assert (Hall : Model.filterM (fun doc => Model._matchQuery doc []) xs
                   = Ok xs).
    { clear. induction xs as [|x xs IH]; [reflexivity|].
      simpl. res_simpl. rewrite IH. reflexivity. }
    rewrite Hall. reflexivity.
  - intros operator operation. rewrite !exec_run.
    destruct ((Model._find m [] fs).2) as [docs|e]; [|reflexivity].
    cbn [mbind res_bind]. rewrite !run_app.
    destruct (Pipeline.run p docs) as [out|e]; reflexivity.
Qed.

(** ** Documents *)

Lemma set_add_spec (p q : string) (s : list string) :
  existsb (String.eqb q) (Changes.set_add p s)
  = String.eqb q p || existsb (String.eqb q) s.
Proof.
  unfold Changes.set_add.
  destruct (existsb (String.eqb p) s) eqn:E.
  - destruct (String.eqb_spec q p) as [->|]; [rewrite E|]; reflexivity.
  - rewrite existsb_app. simpl. rewrite orb_false_r. apply orb_comm.
Qed.

Lemma getChanges_lookup (d : Changes.t) (q : string) :
  obj_lookup q (Changes.getChanges d)
  = if String.eqb q "__proto__" then None
    else if existsb (String.eqb q) (Changes._modifiedPaths d)
         then Some (Changes.get d q) else None.
Proof.
  unfold Changes.getChanges.
  assert (Hgen : forall l acc,
    obj_lookup "__proto__" acc = None ->
    obj_lookup q (fold_left
                    (fun changes path =>
                       obj_assign path (Changes.get d path) changes) l acc)
    = if String.eqb q "__proto__" then None
      else if existsb (String.eqb q) l then Some (Changes.get d q)
           else obj_lookup q acc).
  { induction l as [|x l IH]; intros acc Hacc.
    - cbn [fold_left existsb].
      destruct (String.eqb_spec q "__proto__") as [->|_];
        [exact Hacc|reflexivity].
    - cbn [fold_left existsb]. unfold obj_assign at 2. unfold has_key.
      rewrite Hacc. cbn [negb]. rewrite andb_true_r.
      destruct (String.eqb_spec x "__proto__") as [->|Hx].
      + rewrite (IH acc Hacc).
        destruct (String.eqb_spec q "__proto__") as [->|Hq]; [reflexivity|].
        cbn [orb]. reflexivity.
      + rewrite IH by (rewrite obj_lookup_set_ne by exact Hx; exact Hacc).
        destruct (String.eqb_spec q "__proto__") as [->|Hq]; [reflexivity|].
        destruct (existsb (String.eqb q) l);
          [rewrite orb_true_r; reflexivity|].
        rewrite orb_false_r.
        destruct (String.eqb_spec q x) as [->|Hne].
        * apply obj_lookup_set_eq.
        * apply obj_lookup_set_ne. congruence. }
  rewrite (Hgen _ [] eq_refl). reflexivity.
Qed.

Lemma since_init_snoc (calls : list Changes.call) (c : Changes.call) :
  since_init (calls ++ [c])
  = if is_init c then [] else since_init calls ++ [c].
Proof. unfold since_init. rewrite fold_left_app. reflexivity. Qed.

Lemma run_snoc (calls : list Changes.call) (c : Changes.call)
    (d : Changes.t) :
  Changes.run (calls ++ [c]) d = Changes.step (Changes.run calls d) c.
Proof. unfold Changes.run. rewrite fold_left_app. reflexivity. Qed.

Lemma run_accessors (calls : list Changes.call) (d : Changes.t) :
  Changes.accessors (Changes.run calls d) = Changes.accessors d.
Proof.
  induction calls as [|c calls IH] using rev_ind; [reflexivity|].
  rewrite run_snoc, <- IH.
  destruct c; cbn [Changes.step]; try reflexivity.
  - unfold Changes.assign.
    destruct (existsb _ _); reflexivity.
  - unfold Changes.restoreSnapshot.
    destruct (Changes._snapshot _); reflexivity.
Qed.

(** The set of modified paths after calls on a new document: the paths
    named since the last [$init]. *)
Lemma run_modified (doc : Document.t) (calls : list Changes.call)
    (p : string) :
  forallb plain calls = true ->
  existsb (String.eqb p)
          (Changes._modifiedPaths (Changes.run calls (Changes.of_document doc)))
  = named (Changes.accessors (Changes.of_document doc)) p calls.
Proof.
  induction calls as [|c calls IH] using rev_ind; intros Hp; [reflexivity|].
  rewrite forallb_app in Hp. apply andb_prop in Hp as [Hcalls Hc].
  specialize (IH Hcalls). unfold named in *.
  rewrite run_snoc, since_init_snoc.
  pose proof (run_accessors calls (Changes.of_document doc)) as Hacc.
  destruct c; cbn [is_init Changes.step]; rewrite ?existsb_app;
    cbn [existsb names];
    try (unfold Changes.set, Changes.markModified;
         cbn [Changes._modifiedPaths];
         rewrite set_add_spec, IH, orb_false_r; apply orb_comm).
  - unfold Changes.assign. rewrite Hacc.
    destruct (existsb (String.eqb key) _).
    + unfold Changes.set. cbn [Changes._modifiedPaths].
      rewrite set_add_spec, IH, orb_false_r. apply orb_comm.
    + rewrite IH, !orb_false_r. reflexivity.
  - reflexivity.
  - cbn [Changes.createSnapshot Changes._modifiedPaths].
    rewrite IH, !orb_false_r. reflexivity.
  - discriminate Hc.
Qed.

Lemma run_snapshot (calls : list Changes.call) (d : Changes.t) :
  forallb keeps_snapshot calls = true ->
  Changes._snapshot (Changes.run calls d) = Changes._snapshot d.
Proof.
  induction calls as [|c calls IH] using rev_ind; intros Hp; [reflexivity|].
  rewrite forallb_app in Hp. apply andb_prop in Hp as [Hcalls Hc].
  rewrite run_snoc, <- (IH Hcalls).
  destruct c; cbn [Changes.step]; try reflexivity.
  - unfold Changes.assign. destruct (existsb _ _); reflexivity.
  - discriminate Hc.
  - unfold Changes.restoreSnapshot.
    destruct (Changes._snapshot (Changes.run calls d)) eqn:E;
      cbn [Changes._snapshot]; [reflexivity|exact E].
Qed.

(** X22: after calls of [set], [markModified], [$init] and
    [$createModifiedPathsSnapshot] and assignments through the accessors on
    a new document, [getChanges] has a property for exactly the paths,
    other than [__proto__], that [set], [markModified] or the setter of an
    accessor have named since the last [$init], and at such a path, when
    it is a property of the record or no name of a member of
    [Object.prototype], it has the value the document has there now.  So
    after [set(p, v)] it holds [v] at [p].  An assignment to a key the
    record did not have at construction is not tracked.  Restoring a
    snapshot brings back the set of paths as it was when the snapshot was
    taken, whatever was called in between. *)
Theorem getChanges_lists_the_modified_paths :
  forall (doc : Document.t) (calls : list Changes.call) (p : string),
    forallb plain calls = true ->
    let d := Changes.run calls (Changes.of_document doc) in
    let acc := Changes.accessors (Changes.of_document doc) in
    obj_lookup "__proto__" (Changes.getChanges d) = None /\
    (p <> "__proto__" ->
     has_key p (Changes.getChanges d) = named acc p calls) /\
    (p <> "__proto__" ->
     ordinary p || has_key p (Document._doc (Changes.doc d)) = true ->
     named acc p calls = true ->
     obj_lookup p (Changes.getChanges d) = Some (Changes.get d p)) /\
    (p <> "__proto__" ->
     forall v, obj_lookup p (Changes.getChanges (Changes.set d p v))
               = Some v) /\
    (forall key v,
        Changes.in_document key = false ->
        existsb (String.eqb key) acc = false ->
        Changes.getChanges (Changes.assign d key v) = Changes.getChanges d) /\
    (forall more,
        forallb keeps_snapshot more = true ->
        Changes._modifiedPaths
          (Changes.restoreSnapshot
             (Changes.run more (Changes.createSnapshot d)))
        = Changes._modifiedPaths d).
Proof.
  intros doc calls p Hplain d acc.
  pose proof (run_modified doc calls p Hplain) as Hm. fold d acc in Hm.
  split; [rewrite getChanges_lookup; reflexivity|].
  split.
  { intros Hp. unfold has_key. rewrite getChanges_lookup, Hm.
    destruct (String.eqb_spec p "__proto__") as [E|_]; [contradiction|].
    destruct (named acc p calls); reflexivity. }
  split.
  { intros Hp _ Hn. rewrite getChanges_lookup, Hm, Hn.
    destruct (String.eqb_spec p "__proto__") as [E|_]; [contradiction|].
    reflexivity. }
  split.
  { intros Hp v. rewrite getChanges_lookup.
    destruct (String.eqb_spec p "__proto__") as [E|_]; [contradiction|].
    unfold Changes.get, Changes.set, obj_assign.
    cbn [Changes._modifiedPaths Changes.doc Document._doc].
    rewrite set_add_spec, String.eqb_refl. cbn [orb].
    destruct (String.eqb_spec p "__proto__") as [E|_]; [contradiction|].
    cbn [andb]. unfold obj_get. rewrite obj_lookup_set_eq. reflexivity. }
  split.
  { intros key v _ Hk. unfold Changes.assign.
    assert (Ha : Changes.accessors d = acc)
      by apply run_accessors.
    rewrite Ha, Hk. reflexivity. }
  intros more Hmore. unfold Changes.restoreSnapshot.
  rewrite (run_snapshot more (Changes.createSnapshot d) Hmore).
  reflexivity.
Qed.

Lemma getChanges_lists_the_modified_paths_witness :
  forallb plain [Changes.Assign "name" (VStr "Eve");
                 Changes.Assign "age" (VNum (num_of_Z 3));
                 Changes.MarkModified "__proto__"] = true /\
  "name" <> "__proto__" /\
  Changes.getChanges
    (Changes.run [Changes.Assign "name" (VStr "Eve");
                  Changes.Assign "age" (VNum (num_of_Z 3));
                  Changes.MarkModified "__proto__"] named_ada)
  = [("name", VStr "Eve")] /\
  has_key "name"
    (Changes.getChanges
       (Changes.run [Changes.Assign "name" (VStr "Eve");
                     Changes.Assign "age" (VNum (num_of_Z 3));
                     Changes.MarkModified "__proto__"] named_ada))
  = named (Changes.accessors named_ada) "name"
      [Changes.Assign "name" (VStr "Eve");
       Changes.Assign "age" (VNum (num_of_Z 3));
       Changes.MarkModified "__proto__"].
Proof.
  split; [reflexivity|]. split; [discriminate|]. split; [reflexivity|].
  destruct (getChanges_lists_the_modified_paths
              {| Document._doc := [("_id", VStr "65a000000000000000000001");
                                   ("name", VStr "Ada")];
                 Document._id := VStr "65a000000000000000000001";
                 Document.isNew := true |}
              [Changes.Assign "name" (VStr "Eve");
               Changes.Assign "age" (VNum (num_of_Z 3));
               Changes.MarkModified "__proto__"] "name" eq_refl)
    as (_ & H & _).
  apply H. discriminate.
Defined.

Lemma spread_lookup_present (k : string) (v : value) (src dst : props) :
  List.NoDup (map fst src) -> obj_lookup k src = Some v ->
  obj_lookup k (spread src dst) = Some v.
Proof.
  revert dst. unfold spread.
  induction src as [|[k1 v1] src IH]; intros dst Hnd H; [discriminate|].
  cbn [map fst] in Hnd. apply List.NoDup_cons_iff in Hnd as [Hk1 Hnd].
  cbn [fold_left fst snd]. simpl in H.
  destruct (String.eqb_spec k1 k) as [->|Hne].
  - injection H as ->.
    fold (spread src (obj_set k v dst)).
    rewrite spread_lookup_absent
      by (apply obj_lookup_none_iff; exact Hk1).
    apply obj_lookup_set_eq.
  - apply IH; assumption.
Qed.

Section saving.
Context {rt : Runtime}.
Variable on_document : Schema.hook -> Changes.t -> res Changes.t.
Variable m : Model.t.
Hypothesis Hpre : Schema.pre_save (Model.schema m) = None.
Hypothesis Hpost : Schema.post_save (Model.schema m) = None.

Lemma save_is_updateOne (now : jsdate) (d : Changes.t) (fs : store) :
  Changes.save on_document m now d fs
  = let '(fs', r) :=
      Model.updateOne m now [("_id", Document._id (Changes.doc d))]
        (Document._doc (Changes.doc d)) fs in
    (fs', (fun result => (result, d)) <$> r).
Proof.
  unfold Changes.save, io_bind, io_lift, io_ret. rewrite Hpre, Hpost.
  cbn [Changes.run_hooks].
  destruct (Model.updateOne _ _ _ _ fs) as [fs' [r|e]]; reflexivity.
Qed.

End saving.

Lemma read_twice {rt : Runtime} (filePath : string) (fs : store) :
  readJSON filePath (readJSON filePath fs).1
  = ((readJSON filePath fs).1, (readJSON filePath fs).2).
Proof.
  unfold readJSON, io_bind, writeJSON, io_ret.
  destruct (fs !! filePath) as [[|j|]|] eqn:E; simpl;
    rewrite ?lookup_insert_eq, ?E; reflexivity.
Qed.

Section updating.
Context {rt : Runtime}.
Variable m : Model.t.

Lemma updateOne_none (fs : store) (docs : list value) (now : jsdate)
    (conditions update : props) :
  holds m fs docs ->
  (forall d, In d docs -> Model._matchQuery d conditions = Ok false) ->
  exists fs',
    Model.updateOne m now conditions update fs
    = (fs', Ok {| Model.modifiedCount := 0; Model.upsertedCount := 0 |}) /\
    readJSON (Model.collectionPath m) fs' = (fs', Ok (VArr docs)) /\
    holds m fs' docs.
Proof.
  intros Hh Hno.
  destruct (holds_read m fs docs Hh) as (fs1 & Hr & Hh1).
  exists fs1. split; [|split; [|exact Hh1]].
  - unfold Model.updateOne, io_bind. rewrite Hr. unfold io_lift. simpl.
    rewrite findIndex_none by exact Hno. reflexivity.
  - pose proof (read_twice (Model.collectionPath m) fs) as H.
    rewrite Hr in H. exact H.
Qed.

Lemma updateOne_first (fs : store) (docs : list value) (now : jsdate)
    (conditions update : props) (i : nat) (ps : props) :
  holds m fs docs ->
  docs !! i = Some (VObj ps) ->
  Model._matchQuery (VObj ps) conditions = Ok true ->
  (forall j d, j < i -> docs !! j = Some d ->
               Model._matchQuery d conditions = Ok false) ->
  storable (VObj update) = true ->
  four_digit_date now = true ->
  exists fs',
    Model.updateOne m now conditions update fs
    = (fs', Ok {| Model.modifiedCount := 1; Model.upsertedCount := 0 |}) /\
    readJSON (Model.collectionPath m) fs'
    = (fs', Ok (VArr (<[i := VObj (obj_set "updatedAt" (VDate now)
                                     (spread update ps))]> docs))) /\
    holds m fs'
      (<[i := VObj (obj_set "updatedAt" (VDate now) (spread update ps))]>
         docs).
Proof.
  intros Hh Hi Hm Hlt Hu Hnow.
  destruct (holds_read m fs docs Hh) as (fs1 & Hr & Hh1).
  assert (Hps : storable (VObj ps) = true).
  { exact (forallb_lookup storable docs i _ (proj2 Hh) Hi). }
  set (merged := obj_set "updatedAt" (VDate now) (spread update ps)).
  assert (Hmerged : storable (VObj merged) = true).
  { apply storable_obj_set; [|exact Hnow].
    apply storable_spread; [exact Hps|].
    simpl in Hu. apply andb_prop in Hu as [_ Hu]. exact Hu. }
  assert (Hk : forallb storable (<[i := VObj merged]> docs) = true).
  { apply forallb_insert; [exact (proj2 Hh)|exact Hmerged]. }
  destruct (write_read m fs1 _ Hk) as (fs' & Hw & Hr' & Hh').
  exists fs'. split; [|split; assumption].
  unfold Model.updateOne, io_bind. rewrite Hr. unfold io_lift. simpl.
  rewrite (findIndex_first _ docs i (VObj ps) Hlt Hi Hm). simpl.
  rewrite Hi. simpl.
  rewrite (spread_nil ps).
  + fold merged. rewrite Hw. reflexivity.
  + simpl in Hps. apply andb_prop in Hps as [Hps _].
    apply distinct_keys_NoDup, Hps.
Qed.

End updating.

(** X23: [save] hands the whole of [_doc] to [updateOne] under the
    [_id] the document was made with.  For a schema without save hooks:
    when the first record with that [_id] is at position [i], [save]
    reports one modification and that record takes every property of the
    document over its own, with [updatedAt] set to the clock reading, so
    the stored record holds every value of the document but [updatedAt];
    when no record has the [_id], [save] reports no modification and the
    collection stays as it is: the record is not inserted. *)
Theorem save_writes_the_document_over_its_record :
  forall (rt : Runtime)
         (on_document : Schema.hook -> Changes.t -> res Changes.t)
         (m : Model.t) (fs : store) (docs : list value) (now : jsdate)
         (d : Changes.t) (id : string),
    Schema.pre_save (Model.schema m) = None ->
    Schema.post_save (Model.schema m) = None ->
    holds m fs docs ->
    forallb (fun r => negb (nullish r)) docs = true ->
    Document._id (Changes.doc d) = VStr id ->
    (~ In (VStr id) (ids docs) ->
     exists fs',
       Changes.save on_document m now d fs
       = (fs', Ok ({| Model.modifiedCount := 0; Model.upsertedCount := 0 |},
                   d)) /\
       holds m fs' docs) /\
    (forall i ps,
        docs !! i = Some (VObj ps) ->
        obj_get ps "_id" = VStr id ->
        ~ In (VStr id) (ids (take i docs)) ->
        storable (VObj (Document._doc (Changes.doc d))) = true ->
        four_digit_date now = true ->
        exists fs',
          Changes.save on_document m now d fs
          = (fs', Ok ({| Model.modifiedCount := 1;
                         Model.upsertedCount := 0 |}, d)) /\
          holds m fs'
            (<[i := VObj (obj_set "updatedAt" (VDate now)
                            (spread (Document._doc (Changes.doc d)) ps))]>
               docs) /\
          (forall p v,
              p <> "updatedAt" ->
              obj_lookup p (Document._doc (Changes.doc d)) = Some v ->
              obj_get (obj_set "updatedAt" (VDate now)
                         (spread (Document._doc (Changes.doc d)) ps)) p
              = v)).
Proof.
  intros rt on_document m fs docs now d id Hpre Hpost Hh Hobj Hid.
  assert (Heq : forall r, In r docs ->
            Model._matchQuery r [("_id", VStr id)]
            = Ok (strict_eq (get_own r "_id") (VStr id))).
  { intros r Hr. rewrite forallb_forall in Hobj.
    apply matchQuery_plain; [apply andb_false_r|].
    apply negb_true_iff, Hobj, Hr. }
  assert (Hne : forall r, In r docs -> get_own r "_id" <> VStr id ->
            Model._matchQuery r [("_id", VStr id)] = Ok false).
  { intros r Hr Hn. rewrite (Heq r Hr).
    destruct (get_own r "_id") as [| | | |s| | |]; try reflexivity.
    simpl. destruct (String.eqb_spec s id) as [->|]; [|reflexivity].
    contradiction. }
  split.
  - intros Hfresh.
    destruct (updateOne_none m fs docs now [("_id", VStr id)]
                (Document._doc (Changes.doc d)) Hh) as (fs' & Hu & _ & Hh').
    + intros r Hr. apply (Hne r Hr). intros Hn. apply Hfresh.
      unfold ids. rewrite <- Hn. apply (in_map (fun doc => get_own doc "_id")).
      exact Hr.
    + exists fs'. split; [|exact Hh'].
      rewrite (save_is_updateOne on_document m Hpre Hpost), Hid, Hu.
      reflexivity.
  - intros i ps Hi Hps Hfirst Hs Hnow.
    destruct (updateOne_first m fs docs now [("_id", VStr id)]
                (Document._doc (Changes.doc d)) i ps Hh Hi)
      as (fs' & Hu & _ & Hh').
    + rewrite (Heq (VObj ps)).
      * cbn [get_own]. rewrite Hps. simpl. rewrite String.eqb_refl.
        reflexivity.
      * apply list_elem_of_In. eapply list_elem_of_lookup_2. exact Hi.
    + intros j r Hj Hr.
      assert (Hin : In r docs).
      { apply list_elem_of_In. eapply list_elem_of_lookup_2. exact Hr. }
      apply (Hne r Hin). intros Hn. apply Hfirst.
      unfold ids. rewrite <- Hn.
      apply (in_map (fun doc => get_own doc "_id")).
      apply list_elem_of_In. apply (list_elem_of_lookup_2 _ j).
      rewrite lookup_take_lt by exact Hj. exact Hr.
    + exact Hs.
    + exact Hnow.
    + exists fs'. split; [|split; [exact Hh'|]].
      * rewrite (save_is_updateOne on_document m Hpre Hpost), Hid, Hu.
        reflexivity.
      * intros p v Hp Hv. unfold obj_get.
        rewrite obj_lookup_set_ne by congruence.
        rewrite (spread_lookup_present p v); [reflexivity| |exact Hv].
        simpl in Hs. apply andb_prop in Hs as [Hs _].
        apply distinct_keys_NoDup, Hs.
Qed.

Lemma save_writes_the_document_over_its_record_witness :
  @holds sample_runtime users two_users
    [VObj [("_id", first_id)]; VObj [("_id", second_id)]] /\
  exists fs',
    @Changes.save sample_runtime (fun _ d => Ok d) users new_year
      (Changes.set (Changes.of_document (document_of [("_id", second_id)]))
                   "name" (VStr "x"))
      two_users
    = (fs', Ok ({| Model.modifiedCount := 1; Model.upsertedCount := 0 |},
                Changes.set
                  (Changes.of_document (document_of [("_id", second_id)]))
                  "name" (VStr "x"))) /\
    @holds sample_runtime users fs'
      [VObj [("_id", first_id)];
       VObj [("_id", second_id); ("name", VStr "x");
             ("updatedAt", VDate new_year)]].
Proof.
  assert (Hh : @holds sample_runtime users two_users
                 [VObj [("_id", first_id)]; VObj [("_id", second_id)]]).
  { split; reflexivity. }
  split; [exact Hh|].
  destruct (save_writes_the_document_over_its_record sample_runtime
              (fun _ d => Ok d) users two_users _ new_year
              (Changes.set
                 (Changes.of_document (document_of [("_id", second_id)]))
                 "name" (VStr "x"))
              "65a000000000000000000002" eq_refl eq_refl Hh eq_refl eq_refl)
    as [_ H].
  destruct (H 1 [("_id", second_id)] eq_refl eq_refl) as (fs' & Hs & Hh' & _).
  - intros [Hx|[]]. discriminate.
  - reflexivity.
  - reflexivity.
  - exists fs'. split; [exact Hs|exact Hh'].
Defined.

(** ** What [Schema.validate] accepts *)

Lemma find_none_existsb {A} (f : A -> bool) (l : list A) :
  List.find f l = None <-> existsb f l = false.
Proof.
  induction l as [|x l IH]; simpl; [tauto|].
  destruct (f x); simpl; [split; discriminate|exact IH].
Qed.

Lemma validate_path_empty_iff (data : props) (entry : string * SchemaType.t) :
  answers_at_once data entry = true ->
  (Schema.validate_path data entry = [] <-> path_ok data entry = true).
Proof.
  destruct entry as [path st]. unfold answers_at_once, path_ok.
  unfold Schema.validate_path.
  destruct (nullish (obj_get data path)) eqn:Hn.
  - intros _. rewrite andb_true_r.
    destruct (SchemaType.required st); simpl; split;
      (discriminate || reflexivity).
  - rewrite andb_false_r. cbn [negb].
    destruct (SchemaType.cast st (obj_get data path)) as [v|e].
    + intros Hsync. rewrite (doValidate_sync_reported st v _ Hsync).
      unfold first_failure.
      destruct (List.find (fails v (VObj data)) (SchemaType.validators st))
        as [x|] eqn:Ef.
      * simpl. split; [discriminate|]. intros H. exfalso.
        apply negb_true_iff in H. apply find_none_existsb in H. congruence.
      * simpl. split; [|reflexivity]. intros _.
        apply negb_true_iff, find_none_existsb, Ef.
    + intros _. split; discriminate.
Qed.

(** X24: for a schema whose paths are no names of members of
    [Object.prototype], when every validator answers at once,
    [Schema.validate] returns no error string exactly when every field
    passes: a field the record has nothing at is not required, and for
    every other field the setters run through and no validator returns
    [false] or throws on the value they give. *)
Theorem validate_is_empty_iff_every_field_passes :
  forall (schema : Schema.t) (data : props),
    forallb ordinary (map fst (Schema._paths schema)) = true ->
    forallb (answers_at_once data) (Schema._paths schema) = true ->
    (Schema.validate schema data = [] <->
     forallb (path_ok data) (Schema._paths schema) = true).
Proof.
  intros schema data _. unfold Schema.validate.
  rewrite (fold_left_app_concat (Schema.validate_path data) _ []).
  cbn [app]. induction (Schema._paths schema) as [|entry l IH].
  - intros _. split; reflexivity.
  - cbn [forallb map concat]. intros H. apply andb_prop in H as [He Hl].
    specialize (IH Hl). pose proof (validate_path_empty_iff data entry He) as Hp.
    split.
    + intros H. apply app_eq_nil in H as [H1 H2].
      apply andb_true_intro. split; [apply Hp, H1|apply IH, H2].
    + intros H. apply andb_prop in H as [H1 H2].
      rewrite (proj2 Hp H1), (proj2 IH H2). reflexivity.
Qed.

Lemma validate_is_empty_iff_every_field_passes_witness :
  forallb ordinary (map fst (Schema._paths person_schema)) = true /\
  forallb (answers_at_once [("age", VNum (num_of_Z 3))])
          (Schema._paths person_schema) = true /\
  forallb (path_ok [("age", VNum (num_of_Z 3))])
          (Schema._paths person_schema) = false /\
  Schema.validate person_schema [("age", VNum (num_of_Z 3))] <> [].
Proof.
  split; [reflexivity|]. split; [reflexivity|]. split; [reflexivity|].
  intros H.
  apply (validate_is_empty_iff_every_field_passes person_schema
           [("age", VNum (num_of_Z 3))] eq_refl eq_refl) in H.
  discriminate H.
Defined.

(** ** The string form of [sort] *)

Lemma split_ws_word (b : bool) (s : string) :
  forallb (fun c => negb (is_space c)) (list_ascii_of_string s) = true ->
  split_ws b s = [s].
Proof.
  revert b. induction s as [|c s IH]; intros b; [reflexivity|].
  simpl. intros H. apply andb_prop in H as [Hc Hs].
  apply negb_true_iff in Hc. rewrite Hc, (IH false Hs). reflexivity.
Qed.

(** X25: [sort] with the name of one field as a string is [sort] with
    the object [{ field: 1 }], and with a dash before the name it is
    [sort] with [{ field: -1 }]; only the first dash is taken off. *)
Theorem sort_string_names_the_field :
  forall (q : Query.t) (field : string),
    forallb (fun c => negb (is_space c)) (list_ascii_of_string field)
    = true ->
    (starts_with "-" field = false ->
     sort q (VStr field) = sort q (VObj [(field, VNum (num_of_Z 1))])) /\
    sort q (VStr (String "-" field))
    = sort q (VObj [(field, VNum (num_of_Z (-1)))]).
Proof.
  intros q field Hw. split.
  - intros Hd. unfold sort. rewrite (split_ws_word false field Hw).
    cbn [fold_left]. unfold sort_field. rewrite Hd. reflexivity.
  - unfold sort. rewrite (split_ws_word false (String "-" field)).
    + reflexivity.
    + cbn [list_ascii_of_string forallb]. rewrite Hw. reflexivity.
Qed.

Lemma sort_string_names_the_field_witness :
  forallb (fun c => negb (is_space c)) (list_ascii_of_string "age") = true /\
  _sort (sort (find users []) (VStr "-age"))
  = [("age", VNum (num_of_Z (-1)))].
Proof.
  split; [reflexivity|].
  destruct (sort_string_names_the_field (find users []) "age" eq_refl)
    as [_ H].
  rewrite H. reflexivity.
Defined.
(** ** Sums, bounds and means *)

Lemma num_of_nat_succ (n : nat) :
  num_add (num_of_nat n) (Fin 1) = num_of_nat (n + 1).
Proof.
  unfold num_of_nat. change (Fin 1) with (num_of_Z 1).
  rewrite num_add_of_Z. f_equal. lia.
Qed.

Section statistics.
Context {rt : Runtime}.
Variable path : string.

Lemma update_statistics (doc : value) (q : Q) (s lo hi a : number) (n : nat) :
  Aggregate._getFieldValue doc path = VNum (Fin q) ->
  Aggregate.update_group (statistics path) doc (statistics_group s lo hi a n)
  = Ok (statistics_group
          (num_add s (Fin q)) (num_min lo (Fin q)) (num_max hi (Fin q))
          (num_div (num_add s (Fin q)) (num_of_nat (n + 1)))
          (n + 1)).
Proof.
  intros Hq. unfold Aggregate.update_group, statistics, statistics_group.
  cbn [fold_left fst snd String.eqb Ascii.eqb Bool.eqb].
  cbn [mbind res_bind]. unfold Aggregate._updateAccumulator.
  cbn -[Aggregate._getFieldValue num_add num_min num_max num_div num_of_nat].
  rewrite !Hq.
  cbn -[num_add num_min num_max num_div num_of_nat].
  rewrite !num_of_nat_succ. reflexivity.
Qed.

Lemma first_statistics (doc : value) (q : Q) :
  Aggregate._getFieldValue doc path = VNum (Fin q) ->
  Aggregate.init_group (statistics path)
    ≫= Aggregate.update_group (statistics path) doc
  = Ok (statistics_group
          (num_add (Fin 0) (Fin q)) (Fin q) (Fin q)
          (num_div (num_add (Fin 0) (Fin q)) (num_of_nat 1)) 1).
Proof.
  intros Hq. unfold Aggregate.init_group, statistics.
  cbn [fold_left fst snd String.eqb Ascii.eqb Bool.eqb].
  cbn -[Aggregate.update_group num_add]. fold (statistics path).
  unfold Aggregate.update_group, statistics, statistics_group.
  cbn [fold_left fst snd String.eqb Ascii.eqb Bool.eqb].
  cbn [mbind res_bind]. unfold Aggregate._updateAccumulator.
  cbn -[Aggregate._getFieldValue num_add num_min num_max num_div num_of_nat].
  rewrite !Hq.
  cbn -[num_add num_div num_of_nat].
  reflexivity.
Qed.

End statistics.

Lemma num_div_by_count (s : Q) (n : nat) :
  num_div (Fin s) (num_of_nat (S n))
  = Fin (Qred (s / inject_Z (Z.of_nat (S n)))).
Proof. reflexivity. Qed.

Lemma num_less_of_Z (a b : Z) :
  num_less (num_of_Z a) (num_of_Z b) = Some (a <? b)%Z.
Proof.
  unfold num_of_Z, num_less, Qle_bool, inject_Z. cbn [Qnum Qden].
  rewrite !Z.mul_1_r, Z.ltb_antisym. reflexivity.
Qed.

Lemma num_min_of_Z (a b : Z) :
  num_min (num_of_Z a) (num_of_Z b) = num_of_Z (Z.min a b).
Proof.
  unfold num_min. rewrite num_less_of_Z.
  destruct (Z.ltb_spec a b); f_equal; lia.
Qed.

Lemma num_max_of_Z (a b : Z) :
  num_max (num_of_Z a) (num_of_Z b) = num_of_Z (Z.max a b).
Proof.
  unfold num_max. rewrite num_less_of_Z.
  destruct (Z.ltb_spec a b); f_equal; lia.
Qed.

(** The quotient of a multiple of the count by the count *)
Lemma mean_of_multiple (k : Z) (n : nat) :
  Qred (inject_Z (k * Z.of_nat (S n)) / inject_Z (Z.of_nat (S n)))
  = inject_Z k.
Proof.
  rewrite <- (Qred_inject_Z k). apply Qred_complete.
  rewrite inject_Z_mult. apply Qdiv_mult_l.
  unfold Qeq, inject_Z. simpl. lia.
Qed.

Section statistics_of_a_group.
Context {rt : Runtime}.
Variable path : string.

Lemma accumulate_integers (idocs : list (nat * value)) (zs : list Z) :
  idocs <> [] ->
  Forall2 (fun idoc z => holds_integer path idoc.2 z) idocs zs ->
  exists (lo hi : Z) (a : Q),
    accumulate (statistics path) idocs
    = Ok (statistics_group (num_of_Z (sum_of zs)) (num_of_Z lo) (num_of_Z hi)
            (Fin a) (length idocs)) /\
    In lo zs /\ Forall (Z.le lo) zs /\
    In hi zs /\ Forall (fun z => (z <= hi)%Z) zs /\
    (forall k, sum_of zs = (k * Z.of_nat (length idocs))%Z -> a = inject_Z k).
Proof.
  revert zs. induction idocs as [|[i d] pre IH] using rev_ind; [congruence|].
  intros zs _ Hall.
  apply Forall2_app_inv_l in Hall as (zs' & zl & Hpre & Hd & ->).
  inversion Hd as [|? z ? ? Hz Hnil]; subst. inversion Hnil; subst.
  cbn [snd] in Hz. unfold holds_integer in Hz.
  rewrite accumulate_snoc, length_app. cbn [length].
  replace (length pre + 1) with (S (length pre)) by lia.
  unfold sum_of. rewrite fold_left_app. cbn [fold_left]. fold (sum_of zs').
  destruct pre as [|x pre].
  - apply Forall2_nil_inv_l in Hpre. subst zs'.
    unfold accumulate. cbn [fold_left app length].
    rewrite (first_statistics path d (inject_Z z) Hz).
    change (Fin 0) with (num_of_Z 0). change (Fin (inject_Z z)) with (num_of_Z z).
    rewrite num_add_of_Z. change (sum_of []) with 0%Z.
    unfold num_of_Z at 4. rewrite num_div_by_count.
    exists z, z, (Qred (inject_Z (0 + z) / inject_Z (Z.of_nat 1))).
    split; [reflexivity|].
    split; [left; reflexivity|]. split; [repeat constructor; lia|].
    split; [left; reflexivity|]. split; [repeat constructor; lia|].
    intros k Hk. rewrite Hk. apply mean_of_multiple.
  - destruct (IH zs' ltac:(discriminate) Hpre)
      as (lo & hi & a & Hacc & Hlo & Hlos & Hhi & His & _).
    rewrite Hacc. cbn [mbind res_bind].
    rewrite (update_statistics path d (inject_Z z) _ _ _ _ _ Hz).
    change (Fin (inject_Z z)) with (num_of_Z z).
    rewrite num_add_of_Z, num_min_of_Z, num_max_of_Z.
    replace (length (x :: pre) + 1) with (S (length (x :: pre))) by lia.
    unfold num_of_Z at 4. rewrite num_div_by_count.
    exists (Z.min lo z), (Z.max hi z),
           (Qred (inject_Z (sum_of zs' + z)
                  / inject_Z (Z.of_nat (S (length (x :: pre)))))).
    split; [reflexivity|].
    split.
    { apply in_or_app. destruct (Z.min_spec lo z) as [[_ ->]|[_ ->]];
        [left; exact Hlo|right; left; reflexivity]. }
    split.
    { apply Forall_app. split; [|repeat constructor; lia].
      eapply Forall_impl; [exact Hlos|]. intros y Hy. cbv beta in Hy. lia. }
    split.
    { apply in_or_app. destruct (Z.max_spec hi z) as [[_ ->]|[_ ->]];
        [right; left; reflexivity|left; exact Hhi]. }
    split.
    { apply Forall_app. split; [|repeat constructor; lia].
      eapply Forall_impl; [exact His|]. intros y Hy. cbv beta in Hy. lia. }
    intros k Hk. rewrite Hk. apply mean_of_multiple.
Qed.

End statistics_of_a_group.

(** X26: the four accumulators on records that all hold an integer at the
    path, for integers that doubles add without rounding (see
    [exactly_summed]).  Grouped into one group, the records give one
    record whose [$sum] is the sum of the integers, whose [$min] and
    [$max] are the least and the greatest of them, and whose [$avg] is an
    object with the sum, the number of records and a [value] that is their
    quotient when the sum is a multiple of the number of records. *)
Theorem group_sums_bounds_and_means :
  forall (rt : Runtime) (path : string) (docs : list value) (zs : list Z)
         (bound : Z),
    docs <> [] ->
    Forall2 (holds_integer path) docs zs ->
    exactly_summed bound zs = true ->
    exists (lo hi : Z) (a : Q),
      Aggregate._group docs (statistics path)
      = Ok [VObj (("_id", VNull)
                  :: statistics_group (num_of_Z (sum_of zs)) (num_of_Z lo)
                       (num_of_Z hi) (Fin a) (length docs))] /\
      In lo zs /\ Forall (Z.le lo) zs /\
      In hi zs /\ Forall (fun z => (z <= hi)%Z) zs /\
      (forall k, sum_of zs = (k * Z.of_nat (length docs))%Z ->
                 a = inject_Z k).
Proof.
  intros rt path docs zs bound Hne Hall _.
  assert (Hlen : length (indexed docs) = length docs).
  { unfold indexed. apply length_imap. }
  destruct (accumulate_integers path (indexed docs) zs)
    as (lo & hi & a & Hacc & Hrest).
  - unfold indexed. destruct docs; [congruence|discriminate].
  - assert (Hv : map snd (indexed docs) = docs)
      by exact (imap_values id docs).
    rewrite <- Hv in Hall.
    exact (proj1 (Forall2_fmap_l snd (holds_integer path) (indexed docs) zs)
                 Hall).
  - exists lo, hi, a. rewrite Hlen in *. split; [|exact Hrest].
    unfold Aggregate._group. fold (indexed docs).
    rewrite (group_by_null_single (statistics path) eq_refl)
      by (unfold indexed; destruct docs; [congruence|discriminate]).
    rewrite Hacc. reflexivity.
Qed.

Lemma group_sums_bounds_and_means_witness :
  [aged 30; aged 20; aged 25] <> [] /\
  Forall2 (holds_integer "age") [aged 30; aged 20; aged 25] [30; 20; 25]%Z /\
  exactly_summed 100 [30; 20; 25]%Z = true /\
  exists (lo hi : Z) (a : Q),
    @Aggregate._group sample_runtime [aged 30; aged 20; aged 25]
      (statistics "age")
    = Ok [VObj (("_id", VNull)
                :: statistics_group (num_of_Z 75) (num_of_Z lo) (num_of_Z hi)
                     (Fin a) 3)] /\
    In lo [30; 20; 25]%Z /\ Forall (Z.le lo) [30; 20; 25]%Z /\
    In hi [30; 20; 25]%Z /\ Forall (fun z => (z <= hi)%Z) [30; 20; 25]%Z /\
    (forall k, 75%Z = (k * 3)%Z -> a = inject_Z k).
Proof.
  assert (H : Forall2 (holds_integer "age")
                [aged 30; aged 20; aged 25] [30; 20; 25]%Z)
    by (repeat constructor).
  split; [discriminate|]. split; [exact H|]. split; [reflexivity|].
  exact (group_sums_bounds_and_means sample_runtime "age"
           [aged 30; aged 20; aged 25] [30; 20; 25]%Z 100
           ltac:(discriminate) H eq_refl).
Defined.
